(** * football-alert-bot: the polling pass, the extraction step and the
      goal-probability heuristic of [telegram_football_alert_bot.py]

    The Python program is embedded shallowly.  Python objects that come out
    of a JSON body are values of [pyval]; Python [int] is [Z], Python
    [float] is the kernel's binary64 [float]; a call that may raise returns
    a [result]; the network and the notifier are an oracle that answers
    from the history of events so far, and every side effect is an [event]
    appended to that history. *)

From Stdlib Require Import ZArith List String Ascii Bool Lia DecimalString.
From Stdlib Require Import Floats Reals Lra.
Import ListNotations.

Set Warnings "-inexact-float,-register-all".
Open Scope string_scope.
Open Scope list_scope.
Open Scope Z_scope.

(** ** Exceptions and fallible computations *)

(** The exceptions the modelled code can raise.  All of them derive from
    Python's [Exception]. *)
Inductive exn : Type :=
| KeyError (key : string)
| TypeError
| ValueError
| OverflowError
| AttributeError
| ClientError
| DecodeError
| TelegramError.

Inductive result (A : Type) : Type :=
| Ok (a : A)
| Raise (e : exn).
Arguments Ok {A} a.
Arguments Raise {A} e.

Definition rbind {A B} (r : result A) (k : A -> result B) : result B :=
  match r with
  | Ok a => k a
  | Raise e => Raise e
  end.

Declare Scope result_scope.
Delimit Scope result_scope with res.
Notation "x <- r ;; k" := (rbind r (fun x => k))
  (at level 61, r at next level, right associativity) : result_scope.

(** ** Python values *)

Inductive pyval : Type :=
| PNone
| PBool (b : bool)
| PInt (z : Z)
| PFloat (f : float)
| PStr (s : string)
| PList (l : list pyval)
| PDict (d : list (string * pyval)).

(** A [dict] with string keys, as an association list; the first binding
    of a key is the live one. *)
Definition dict := list (string * pyval).

Fixpoint dict_find (d : dict) (k : string) : option pyval :=
  match d with
  | [] => None
  | (k', v) :: d' => if String.eqb k' k then Some v else dict_find d' k
  end.

(** [d.get(k, default)] *)
Definition dict_get (d : dict) (k : string) (default : pyval) : pyval :=
  match dict_find d k with
  | Some v => v
  | None => default
  end.

(** [v[k]] for a string key [k]: only a dict can be subscripted by a
    string, and a missing key is a [KeyError]. *)
Definition subscript (v : pyval) (k : string) : result pyval :=
  match v with
  | PDict d =>
      match dict_find d k with
      | Some x => Ok x
      | None => Raise (KeyError k)
      end
  | _ => Raise TypeError
  end.

(** ** Numbers *)

(** Conversion of an [int] to a [float]: round to nearest, ties to even,
    and [OverflowError] when the rounded value is not finite. *)
Definition float_of_Z (z : Z) : result float :=
  match binary_normalize prec emax z 0 false with
  | S754_infinity _ => Raise OverflowError
  | sf => Ok (SF2Prim sf)
  end.

Inductive num : Type :=
| NInt (z : Z)
| NFloat (f : float).

(** [bool] is a subclass of [int]. *)
Definition as_num (v : pyval) : option num :=
  match v with
  | PBool b => Some (NInt (Z.b2z b))
  | PInt z => Some (NInt z)
  | PFloat f => Some (NFloat f)
  | _ => None
  end.

Definition to_float (n : num) : result float :=
  match n with
  | NInt z => float_of_Z z
  | NFloat f => Ok f
  end.

(** [a + b] *)
Definition py_add (a b : pyval) : result pyval :=
  match as_num a, as_num b with
  | Some (NInt x), Some (NInt y) => Ok (PInt (x + y))
  | Some x, Some y =>
      (fx <- to_float x ;; fy <- to_float y ;; Ok (PFloat (fx + fy)))%res
  | _, _ =>
      match a, b with
      | PStr s, PStr t => Ok (PStr (s ++ t)%string)
      | PList l, PList m => Ok (PList (l ++ m))
      | _, _ => Raise TypeError
      end
  end.

(** [a * c] for a float [c]: a number is converted and multiplied, and
    nothing else can be multiplied by a float. *)
Definition py_mul_float (a : pyval) (c : float) : result float :=
  match as_num a with
  | Some x => (fx <- to_float x ;; Ok (fx * c)%float)%res
  | None => Raise TypeError
  end.

(** [min(a, b)] on floats: the first argument unless the second is
    strictly smaller. *)
Definition py_min (a b : float) : float :=
  if (b <? a)%float then b else a.

(** ** The probability heuristic *)

Definition compute_goal_probability (stats : dict) : result float :=
  let xg_home := dict_get stats "xG_home" (PInt 0) in
  let xg_away := dict_get stats "xG_away" (PInt 0) in
  let shots_home := dict_get stats "shots_on_home" (PInt 0) in
  let shots_away := dict_get stats "shots_on_away" (PInt 0) in
  let attacks_home := dict_get stats "attacks_home" (PInt 0) in
  let attacks_away := dict_get stats "attacks_away" (PInt 0) in
  (xg <- py_add xg_home xg_away ;;
   score <- py_mul_float xg 0.5 ;;
   shots <- py_add shots_home shots_away ;;
   t <- py_mul_float shots 0.05 ;;
   let score := (score + t)%float in
   attacks <- py_add attacks_home attacks_away ;;
   t <- py_mul_float attacks 0.01 ;;
   let score := (score + t)%float in
   Ok (py_min (score / 2) 1.0))%res.

(** ** Equality, truth value and conversions *)

(** The exact value of a finite float as an integer, when it is one. *)
Definition Z_of_spec_float (sf : spec_float) : option Z :=
  match sf with
  | S754_zero _ => Some 0
  | S754_finite s m e =>
      if 0 <=? e then Some (cond_Zopp s (Zpos m * 2 ^ e))
      else if (Zpos m) mod 2 ^ (- e) =? 0
           then Some (cond_Zopp s (Zpos m / 2 ^ (- e)))
           else None
  | _ => None
  end.

(** [==] between numbers: an int and a float are compared exactly. *)
Definition num_eq (x y : num) : bool :=
  match x, y with
  | NInt a, NInt b => a =? b
  | NFloat f, NFloat g => (f =? g)%float
  | NInt a, NFloat f | NFloat f, NInt a =>
      match Z_of_spec_float (Prim2SF f) with
      | Some b => a =? b
      | None => false
      end
  end.

(** [a == b] on values decoded from JSON (dicts are kept free of
    duplicate keys). *)
Fixpoint py_eq (a b : pyval) {struct a} : bool :=
  match a, b with
  | PNone, PNone => true
  | PStr s, PStr t => String.eqb s t
  | PList l, PList m =>
      (fix all2 (l m : list pyval) {struct l} : bool :=
         match l, m with
         | [], [] => true
         | x :: l', y :: m' => py_eq x y && all2 l' m'
         | _, _ => false
         end) l m
  | PDict d, PDict d' =>
      (Nat.eqb (List.length d) (List.length d')) &&
      (fix sub (d : list (string * pyval)) {struct d} : bool :=
         match d with
         | [] => true
         | (k, v) :: r =>
             match dict_find d' k with
             | Some v' => py_eq v v'
             | None => false
             end && sub r
         end) d
  | _, _ =>
      match as_num a, as_num b with
      | Some x, Some y => num_eq x y
      | _, _ => false
      end
  end.

(** The truth value of an object. *)
Definition truthy (v : pyval) : bool :=
  match v with
  | PNone => false
  | PBool b => b
  | PInt z => negb (z =? 0)
  | PFloat f => negb (f =? 0)%float
  | PStr s => negb (String.eqb s "")
  | PList l => match l with [] => false | _ => true end
  | PDict d => match d with [] => false | _ => true end
  end.

(** [a or b] *)
Definition py_or (a b : pyval) : pyval :=
  if truthy a then a else b.

(** [for x in v]: the elements the loop visits.  Iterating a dict yields
    its keys and iterating a str yields one-character strs. *)
Definition py_iter (v : pyval) : result (list pyval) :=
  match v with
  | PList l => Ok l
  | PDict d => Ok (map (fun kv => PStr (fst kv)) d)
  | PStr s => Ok (map (fun c => PStr (String c "")) (list_ascii_of_string s))
  | _ => Raise TypeError
  end.

(** ** Text *)

Definition nl : string := String (ascii_of_nat 10) "".

(** [str(n)] for an int. *)
Definition Z_to_string (z : Z) : string :=
  NilZero.string_of_int (Z.to_int z).

Definition two_digits (z : Z) : string :=
  if z <? 10 then ("0" ++ Z_to_string z)%string else Z_to_string z.

(** [n / d] rounded to the nearest integer, ties to even ([0 <= n], [0 < d]). *)
Definition div_half_even (n d : Z) : Z :=
  let q := n / d in
  match (2 * (n mod d)) ?= d with
  | Lt => q
  | Gt => q + 1
  | Eq => if Z.even q then q else q + 1
  end.

(** The number of hundredths nearest to [m * 2^e]. *)
Definition hundredths (m : positive) (e : Z) : Z :=
  if 0 <=? e then Zpos m * 2 ^ e * 100
  else div_half_even (Zpos m * 100) (2 ^ (- e)).

Definition sign_string (s : bool) : string :=
  if s then "-" else "".

(** [format(x, ".2f")]: the exact value of the float, correctly rounded to
    two decimals. *)
Definition format_fixed2 (sf : spec_float) : string :=
  match sf with
  | S754_nan => "nan"
  | S754_infinity s => (sign_string s ++ "inf")%string
  | S754_zero s => (sign_string s ++ "0.00")%string
  | S754_finite s m e =>
      let h := hundredths m e in
      (sign_string s ++ Z_to_string (h / 100) ++ "." ++ two_digits (h mod 100))%string
  end.

(** [format(p, ".2%")]: the float is multiplied by 100, printed with two
    decimals and followed by a percent sign. *)
Definition format_percent (p : float) : string :=
  (format_fixed2 (Prim2SF (p * 100)) ++ "%")%string.

(** ** Effects: the data source, the notifier, the log and the clock *)

(** What the program does to the outside, in the order it does it. *)
Inductive event : Type :=
| EvGetLive
| EvGetStats (fixture_id : pyval)
| EvPrintApi (status : Z)
| EvPrintApiStats (status : Z)
| EvSend (text : string)
| EvPrintLoop (e : exn)
| EvSleep (seconds : Z).

(** The outcome of [session.get]: either the call raises, or there is a
    response with a status and a body that [resp.json()] decodes or
    rejects. *)
Inductive http_outcome : Type :=
| HttpFailure (e : exn)
| HttpResponse (status : Z) (body : result pyval).

(** The outside world answers from the history of events so far. *)
Record oracle : Type := {
  get_live : list event -> http_outcome;
  get_stats : list event -> pyval -> http_outcome;
  send_message : list event -> string -> option exn
}.

(** A computation reads the history and returns its outcome with the
    events it added. *)
Definition M (A : Type) : Type := list event -> result A * list event.

Definition ret {A} (a : A) : M A := fun _ => (Ok a, []).

Definition lift {A} (r : result A) : M A := fun _ => (r, []).

Definition emit (e : event) : M unit := fun _ => (Ok tt, [e]).

Definition bind {A B} (m : M A) (k : A -> M B) : M B := fun h =>
  match m h with
  | (Ok a, es) => let (r, es') := k a (h ++ es) in (r, es ++ es')
  | (Raise e, es) => (Raise e, es)
  end.

(** [try: m  except Exception as e: handler(e)] *)
Definition try_except {A} (m : M A) (handler : exn -> M A) : M A := fun h =>
  match m h with
  | (Ok a, es) => (Ok a, es)
  | (Raise e, es) => let (r, es') := handler e (h ++ es) in (r, es ++ es')
  end.

Declare Scope io_scope.
Delimit Scope io_scope with io.
Notation "x <- m ;; k" := (bind m (fun x => k))
  (at level 61, m at next level, right associativity) : io_scope.
Notation "m ;; k" := (bind m (fun _ => k))
  (at level 61, right associativity) : io_scope.

(** [for x in xs: body(x)] *)
Fixpoint for_each {A} (xs : list A) (body : A -> M unit) : M unit :=
  match xs with
  | [] => ret tt
  | x :: xs' => (body x ;; for_each xs' body)%io
  end.

(** [await asyncio.sleep(seconds)] for an int: a delay that is not
    positive returns at once; a positive one is added to the clock of the
    event loop, a float, which converts it, and an int beyond the floats
    raises [OverflowError].  The event records a sleep that took place. *)
Definition asyncio_sleep (seconds : Z) : M unit := fun _ =>
  if seconds <=? 0 then (Ok tt, [EvSleep seconds])
  else match float_of_Z seconds with
       | Ok _ => (Ok tt, [EvSleep seconds])
       | Raise e => (Raise e, [])
       end.

(** [data.get("response", [])]: only a dict has [get]. *)
Definition response_field (data : pyval) : result pyval :=
  match data with
  | PDict d => Ok (dict_get d "response" (PList []))
  | _ => Raise AttributeError
  end.

(** ** The six statistics of a match *)

(** The six local variables of the loop body. *)
Record extracted : Type := {
  xg_home : pyval;
  xg_away : pyval;
  shots_home : pyval;
  shots_away : pyval;
  attacks_home : pyval;
  attacks_away : pyval
}.

Definition extracted_init : extracted :=
  {| xg_home := PInt 0; xg_away := PInt 0;
     shots_home := PInt 0; shots_away := PInt 0;
     attacks_home := PInt 0; attacks_away := PInt 0 |}.

Definition set_xg_home (v : pyval) (x : extracted) : extracted :=
  {| xg_home := v; xg_away := xg_away x;
     shots_home := shots_home x; shots_away := shots_away x;
     attacks_home := attacks_home x; attacks_away := attacks_away x |}.

Definition set_xg_away (v : pyval) (x : extracted) : extracted :=
  {| xg_home := xg_home x; xg_away := v;
     shots_home := shots_home x; shots_away := shots_away x;
     attacks_home := attacks_home x; attacks_away := attacks_away x |}.

Definition set_shots_home (v : pyval) (x : extracted) : extracted :=
  {| xg_home := xg_home x; xg_away := xg_away x;
     shots_home := v; shots_away := shots_away x;
     attacks_home := attacks_home x; attacks_away := attacks_away x |}.

Definition set_shots_away (v : pyval) (x : extracted) : extracted :=
  {| xg_home := xg_home x; xg_away := xg_away x;
     shots_home := shots_home x; shots_away := v;
     attacks_home := attacks_home x; attacks_away := attacks_away x |}.

Definition set_attacks_home (v : pyval) (x : extracted) : extracted :=
  {| xg_home := xg_home x; xg_away := xg_away x;
     shots_home := shots_home x; shots_away := shots_away x;
     attacks_home := v; attacks_away := attacks_away x |}.

Definition set_attacks_away (v : pyval) (x : extracted) : extracted :=
  {| xg_home := xg_home x; xg_away := xg_away x;
     shots_home := shots_home x; shots_away := shots_away x;
     attacks_home := attacks_home x; attacks_away := v |}.


(** ** Vocabulary of the statements *)

(** The formula of the specification as one Python expression over the six
    fields, evaluated left to right. *)
Definition probability_formula (xh xa sh sa ah aa : pyval) : result float :=
  (a <- py_add xh xa ;; a <- py_mul_float a 0.5 ;;
   b <- py_add sh sa ;; b <- py_mul_float b 0.05 ;;
   c <- py_add ah aa ;; c <- py_mul_float c 0.01 ;;
   Ok (py_min ((a + b + c) / 2) 1.0))%res.

(** The stats record with float fields as a dict. *)
Definition stats_dict (xh xa sh sa ah aa : pyval) : dict :=
  [("xG_home", xh); ("xG_away", xa);
   ("shots_on_home", sh); ("shots_on_away", sa);
   ("attacks_home", ah); ("attacks_away", aa)].

Definition Substring (needle hay : string) : Prop :=
  exists pre post, hay = (pre ++ needle ++ post)%string.

(** The texts handed to the notifier, in order. *)
Fixpoint sent (es : list event) : list string :=
  match es with
  | [] => []
  | EvSend t :: es' => t :: sent es'
  | _ :: es' => sent es'
  end.

(** An interval that [asyncio.sleep] accepts: not positive, or an int that
    converts to a float. *)
Definition sleepable (seconds : Z) : Prop :=
  seconds <= 0 \/ exists f, float_of_Z seconds = Ok f.

(** The sleeps that took place, in order. *)
Fixpoint sleeps (es : list event) : list Z :=
  match es with
  | [] => []
  | EvSleep n :: es' => n :: sleeps es'
  | _ :: es' => sleeps es'
  end.

(** Whether a stat entry carries the given type label. *)
Definition entry_has_type (label : string) (s : pyval) : bool :=
  match subscript s "type" with
  | Ok ty => py_eq ty (PStr label)
  | Raise _ => false
  end.

(** The entries of a per-team block and the blocks of a statistics
    response, as the two loops visit them. *)
Definition block_entries (b : pyval) : list pyval :=
  match (st <- subscript b "statistics" ;; py_iter st)%res with
  | Ok es => es
  | Raise _ => []
  end.

Definition response_blocks (stats_response : pyval) : list pyval :=
  match py_iter stats_response with
  | Ok bs => bs
  | Raise _ => []
  end.

(** No entry of the response carries the label. *)
Definition type_absent (label : string) (stats_response : pyval) : Prop :=
  forall b s, In b (response_blocks stats_response) ->
              In s (block_entries b) -> entry_has_type label s = false.

(** A block with a team name and a list of entries that each have a type. *)
Definition block_well_formed (b : pyval) : Prop :=
  (exists team name, subscript b "team" = Ok team /\
                     subscript team "name" = Ok name) /\
  (exists st es, subscript b "statistics" = Ok st /\ py_iter st = Ok es /\
                 forall s, In s es -> exists ty, subscript s "type" = Ok ty).

(** ** Vocabulary of the float arithmetic

    The kernel's floats are specified through [Prim2SF] by the functions of
    [SpecFloat] ([SFadd], [SFmul], [SFdiv], [SFcompare]).  The statements
    about them speak of the real value of a float and of the rounding of a
    dyadic number [N * 2^c] to binary64. *)

(** [2^e] as a real. *)
Definition bpow (e : Z) : R := powerRZ 2 e.

(** The real [n * 2^e]. *)
Definition F2R (n e : Z) : R := (IZR n * bpow e)%R.

(** The exponent of the binary64 numbers of magnitude [e]. *)
Definition fexp64 (e : Z) : Z := Z.max (e - 53) (-1074).

(** [N * 2^c / 2^E] rounded to the nearest integer, ties to even. *)
Definition rne_at (E N c : Z) : Z :=
  div_half_even (N * 2 ^ (c - Z.min c E)) (2 ^ (E - Z.min c E)).

(** The exponent and the mantissa of [N * 2^c] rounded to binary64. *)
Definition rnd_e (N c : Z) : Z := fexp64 (Zdigits2 N + c).

Definition rnd_m (N c : Z) : Z := rne_at (rnd_e N c) N c.

(** The float with sign [s] that [N * 2^c] rounds to: a zero on underflow,
    an infinity on overflow. *)
Definition SFround (s : bool) (N c : Z) : spec_float :=
  let m1 := rnd_m N c in
  let E := rnd_e N c in
  if m1 =? 0 then S754_zero s
  else if m1 =? 2 ^ 53 then
    if E + 1 <=? 971 then S754_finite s (Z.to_pos (2 ^ 52)) (E + 1)
    else S754_infinity s
  else if E <=? 971 then S754_finite s (Z.to_pos m1) E else S754_infinity s.

(** A shift record that holds [N] shifted right by [k] bits, with its
    round and sticky bits. *)
Record repr (N k : Z) (mrs : shr_record) : Prop := {
  repr_m : shr_m mrs = N / 2 ^ k;
  repr_r : shr_r mrs = (0 <? k) && Z.odd (N / 2 ^ (k - 1));
  repr_s : shr_s mrs = (0 <? k) && negb (N mod 2 ^ (k - 1) =? 0)
}.

(** The real value of a finite float (0 for the others). *)
Definition SF2R (x : spec_float) : R :=
  match x with
  | S754_finite s m e => F2R (cond_Zopp s (Zpos m)) e
  | _ => 0%R
  end.

Definition sf_is_inf (x : spec_float) : bool :=
  match x with S754_infinity _ => true | _ => false end.

Definition sf_is_nan (x : spec_float) : bool :=
  match x with S754_nan => true | _ => false end.

Definition sf_is_fin (x : spec_float) : bool :=
  match x with S754_zero _ | S754_finite _ _ _ => true | _ => false end.

(** What a comparison says about two reals. *)
Definition cmp_spec (c : option comparison) (a b : R) : Prop :=
  match c with
  | Some Lt => (a < b)%R
  | Some Eq => a = b
  | Some Gt => (b < a)%R
  | None => False
  end.

(** Floats that are not negative, and floats that are not positive. *)
Definition nonneg_class (o : spec_float) : Prop :=
  match o with
  | S754_zero _ | S754_infinity false | S754_finite false _ _ => True
  | _ => False
  end.

Definition nonpos_class (o : spec_float) : Prop :=
  match o with
  | S754_zero _ | S754_infinity true | S754_finite true _ _ => True
  | _ => False
  end.

(** [o] is the rounding of the real [r]. *)
Inductive Rounds (r : R) (o : spec_float) : Prop :=
| Rounds_zero (s : bool) : r = 0%R -> o = S754_zero s -> Rounds r o
| Rounds_pos (N c : Z) :
    0 < N -> r = F2R N c -> o = SFround false N c -> Rounds r o
| Rounds_neg (N c : Z) :
    0 < N -> r = (- F2R N c)%R -> o = SFround true N c -> Rounds r o.

(** "Not decreased": [a <= b], or one of the two is a NaN. *)
Definition sf_le (a b : spec_float) : Prop :=
  sf_is_nan a = true \/ sf_is_nan b = true \/ SFleb a b = true.

Definition fle (a b : float) : Prop := sf_le (Prim2SF a) (Prim2SF b).

(** The floats 2.0 and 1.0. *)
Definition p52 : positive := 4503599627370496.

Definition sf_two : spec_float := S754_finite false p52 (-51).

Definition sf_one : spec_float := S754_finite false p52 (-52).

(** ** Vocabulary of the score

    The six fields by name, the sum of a home and an away field, and the
    order [<] of Python numbers. *)

Inductive field : Type :=
| XgHome | XgAway | ShotsHome | ShotsAway | AttacksHome | AttacksAway.

Definition field_eqb (i j : field) : bool :=
  match i, j with
  | XgHome, XgHome | XgAway, XgAway | ShotsHome, ShotsHome
  | ShotsAway, ShotsAway | AttacksHome, AttacksHome
  | AttacksAway, AttacksAway => true
  | _, _ => false
  end.

(** The key of a field in the stats dict. *)
Definition field_key (i : field) : string :=
  match i with
  | XgHome => "xG_home" | XgAway => "xG_away"
  | ShotsHome => "shots_on_home" | ShotsAway => "shots_on_away"
  | AttacksHome => "attacks_home" | AttacksAway => "attacks_away"
  end.

(** The stats dict that holds [r i] under the key of field [i]. *)
Definition stats_of (r : field -> pyval) : dict :=
  stats_dict (r XgHome) (r XgAway) (r ShotsHome) (r ShotsAway)
             (r AttacksHome) (r AttacksAway).

(** The six fields with [v] in place of field [i]. *)
Definition with_field (r : field -> pyval) (i : field) (v : pyval)
  : field -> pyval :=
  fun j => if field_eqb i j then v else r j.

(** The six fields with home and away exchanged. *)
Definition swap_sides (r : field -> pyval) : field -> pyval :=
  fun j => match j with
           | XgHome => r XgAway | XgAway => r XgHome
           | ShotsHome => r ShotsAway | ShotsAway => r ShotsHome
           | AttacksHome => r AttacksAway | AttacksAway => r AttacksHome
           end.

(** The six local variables as fields. *)
Definition fields_of (x : extracted) : field -> pyval :=
  fun j => match j with
           | XgHome => xg_home x | XgAway => xg_away x
           | ShotsHome => shots_home x | ShotsAway => shots_away x
           | AttacksHome => attacks_home x | AttacksAway => attacks_away x
           end.

(** One term of the score: [(a + b) * c]. *)
Definition pair_term (a b : pyval) (c : float) : result float :=
  (s <- py_add a b ;; py_mul_float s c)%res.

(** [float(x + y)] for two numbers, as [(x + y) * c] computes it before
    the multiplication: two ints are added exactly and converted once. *)
Definition num_sum (x y : num) : result float :=
  match x, y with
  | NInt a, NInt b => float_of_Z (a + b)
  | _, _ => (fx <- to_float x ;; fy <- to_float y ;; Ok (fx + fy)%float)%res
  end.

(** The comparison of an int with a float, which Python makes on the exact
    values. *)
Definition cmp_Z_sf (z : Z) (sf : spec_float) : option comparison :=
  match sf with
  | S754_nan => None
  | S754_infinity s => Some (if s then Gt else Lt)
  | S754_zero _ => Some (z ?= 0)
  | S754_finite s m e =>
      Some (if 0 <=? e then z ?= cond_Zopp s (Zpos m * 2 ^ e)
            else z * 2 ^ (- e) ?= cond_Zopp s (Zpos m))
  end.

(** [x < y] between numbers. *)
Definition num_lt (x y : num) : bool :=
  match x, y with
  | NInt a, NInt b => a <? b
  | NFloat f, NFloat g => (f <? g)%float
  | NInt a, NFloat g =>
      match cmp_Z_sf a (Prim2SF g) with Some Lt => true | _ => false end
  | NFloat f, NInt b =>
      match cmp_Z_sf b (Prim2SF f) with Some Gt => true | _ => false end
  end.

Definition py_lt (a b : pyval) : bool :=
  match as_num a, as_num b with
  | Some x, Some y => num_lt x y
  | _, _ => false
  end.

(** A number that a float holds exactly when it is an int: any float, and
    an int of magnitude at most [2^53]. *)
Definition plain_num (x : num) : Prop :=
  match x with
  | NInt z => Z.abs z <= 2 ^ 53
  | NFloat _ => True
  end.

Definition plain (v : pyval) : Prop :=
  match as_num v with
  | Some x => plain_num x
  | None => False
  end.

(** A number that is not negative, an int being below [2^1022]. *)
Definition nonneg_num (x : num) : Prop :=
  match x with
  | NInt z => 0 <= z < 2 ^ 1022
  | NFloat f => (0 <=? f)%float = true
  end.

Definition small_nonneg (v : pyval) : Prop :=
  match as_num v with
  | Some x => nonneg_num x
  | None => False
  end.

Definition fnonneg (f : float) : Prop := nonneg_class (Prim2SF f).

(** A positive float constant with a full mantissa, as the three
    coefficients of the score are. *)
Definition coefficient (c : float) : Prop :=
  exists mc ec, Prim2SF c = S754_finite false mc ec /\ Zdigits2 (Zpos mc) = 53.

(** ** Vocabulary of the pass *)

(** [match["fixture"]["id"]] *)
Definition fixture_id_of (m : pyval) : result pyval :=
  (fixture <- subscript m "fixture" ;; subscript fixture "id")%res.

(** The fixture ids whose statistics were requested, in order. *)
Fixpoint stats_requested (es : list event) : list pyval :=
  match es with
  | [] => []
  | EvGetStats id :: es' => id :: stats_requested es'
  | _ :: es' => stats_requested es'
  end.

(** The number of requests for the live matches. *)
Fixpoint live_requests (es : list event) : nat :=
  match es with
  | [] => O
  | EvGetLive :: es' => S (live_requests es')
  | _ :: es' => live_requests es'
  end.

(** What the extraction can leave in a count field and in an xG field. *)
Definition stored_count (v : pyval) : Prop := v = PInt 0 \/ truthy v = true.

Definition stored_xg (v : pyval) : Prop := v = PInt 0 \/ exists f, v = PFloat f.

(** The property of the six variables that both loops keep. *)
Definition stored (x : extracted) : Prop :=
  stored_xg (xg_home x) /\ stored_xg (xg_away x) /\
  stored_count (shots_home x) /\ stored_count (shots_away x) /\
  stored_count (attacks_home x) /\ stored_count (attacks_away x).

(** ** Sample data *)

Definition ex_stats (xh xa : float) : dict :=
  [("xG_home", PFloat xh); ("xG_away", PFloat xa);
   ("shots_on_home", PInt 4); ("shots_on_away", PInt 2);
   ("attacks_home", PInt 10); ("attacks_away", PInt 5)].

Definition ex_match (id : Z) (home away : string) : pyval :=
  PDict [("fixture", PDict [("id", PInt id)]);
         ("teams", PDict [("home", PDict [("name", PStr home)]);
                          ("away", PDict [("name", PStr away)])])].

Definition ex_entry (ty : string) (v : pyval) : pyval :=
  PDict [("type", PStr ty); ("value", v)].

Definition ex_block (team : string) (entries : list pyval) : pyval :=
  PDict [("team", PDict [("name", PStr team)]); ("statistics", PList entries)].

Definition ex_body (response : list pyval) : result pyval :=
  Ok (PDict [("response", PList response)]).

(** A [repr] good enough for ints and the floats of the examples. *)
Definition ex_repr (v : pyval) : string :=
  match v with
  | PInt z => Z_to_string z
  | PFloat f => if (f =? 3.25)%float then "3.25" else "?"
  | _ => "?"
  end.

Definition ex_parse (s : string) : option float :=
  if String.eqb s "3.25" then Some 3.25%float else None.

Definition ex_world : oracle :=
  {| get_live := fun _ =>
       HttpResponse 200 (ex_body [ex_match 7 "Roma" "Lazio"; ex_match 8 "Inter" "Milan"]);
     get_stats := fun _ id =>
       if py_eq id (PInt 7) then
         HttpResponse 200
           (ex_body [ex_block "Roma" [ex_entry "Shots on Goal" (PInt 9);
                                      ex_entry "Attacks" (PInt 40);
                                      ex_entry "Ball Possession" (PStr "55%");
                                      ex_entry "xG" (PStr "3.25")];
                     ex_block "Lazio" [ex_entry "Shots on Goal" PNone;
                                       ex_entry "Attacks" (PInt 12)]])
       else HttpResponse 503 (Raise DecodeError);
     send_message := fun _ _ => None |}.

(** A data source whose statistics endpoint is down. *)
Definition down_world : oracle :=
  {| get_live := fun _ => HttpResponse 200 (ex_body [ex_match 8 "Inter" "Milan"]);
     get_stats := fun _ _ => HttpResponse 503 (Raise DecodeError);
     send_message := fun _ _ => None |}.

(** A pass over three live matches, the second of which has no "teams"
    key. *)
Definition broken_world : oracle :=
  {| get_live := fun _ =>
       HttpResponse 200
         (ex_body [ex_match 7 "Roma" "Lazio";
                   PDict [("fixture", PDict [("id", PInt 8)])];
                   ex_match 9 "Inter" "Milan"]);
     get_stats := get_stats ex_world;
     send_message := fun _ _ => None |}.

(** The [extracted] record of the two worked examples. *)
Definition ex_extracted (xh xa : float) : extracted :=
  {| xg_home := PFloat xh; xg_away := PFloat xa;
     shots_home := PInt 4; shots_away := PInt 2;
     attacks_home := PInt 10; attacks_away := PInt 5 |}.

Definition ex_teams (home away : string) : pyval :=
  PDict [("home", PDict [("name", PStr home)]);
         ("away", PDict [("name", PStr away)])].

(** Six fields: a float xG and int counts. *)
Definition ex_fields : field -> pyval :=
  fun j => match j with
           | XgHome => PFloat 1.5
           | XgAway => PInt 0
           | ShotsHome => PInt 3
           | ShotsAway => PBool true
           | AttacksHome => PInt 20
           | AttacksAway => PInt 7
           end.

(** Six int fields, one of them beyond the floats. *)
Definition huge_fields : field -> pyval :=
  fun j => match j with
           | XgHome => PInt (2 ^ 1024)
           | _ => PInt 0
           end.

(** A data source whose live endpoint is down. *)
Definition live_down_world : oracle :=
  {| get_live := fun _ => HttpResponse 503 (Raise DecodeError);
     get_stats := get_stats ex_world;
     send_message := fun _ _ => None |}.

(** A data source that answers with an object without "response", and one
    that answers with a JSON array. *)
Definition empty_world : oracle :=
  {| get_live := fun _ => HttpResponse 200 (Ok (PDict [("results", PInt 0)]));
     get_stats := get_stats ex_world;
     send_message := fun _ _ => None |}.

Definition array_world : oracle :=
  {| get_live := fun _ => HttpResponse 200 (Ok (PList []));
     get_stats := get_stats ex_world;
     send_message := fun _ _ => None |}.

(** A data source that gives the shots on goal as text. *)
Definition text_world : oracle :=
  {| get_live := fun _ =>
       HttpResponse 200 (ex_body [ex_match 7 "Roma" "Lazio"]);
     get_stats := fun _ _ =>
       HttpResponse 200
         (ex_body [ex_block "Roma" [ex_entry "Shots on Goal" (PStr "9")]]);
     send_message := fun _ _ => None |}.

(** The data source of the examples with a notifier that refuses. *)
Definition mute_world : oracle :=
  {| get_live := get_live ex_world;
     get_stats := get_stats ex_world;
     send_message := fun _ _ => Some TelegramError |}.

Section Bot.

(** The interpreter's [float(str)] and [repr], and the configuration read
    from the environment at start-up. *)
Variable parse_float : string -> option float.
Variable py_repr : pyval -> string.
Variable DEFAULT_THRESHOLD : float.
Variable POLL_SECONDS : Z.
Variable world : oracle.

Definition fetch_live_matches : M pyval := fun h =>
  match get_live world h with
  | HttpFailure e => (Raise e, [EvGetLive])
  | HttpResponse status body =>
      if negb (status =? 200) then (Ok (PList []), [EvGetLive; EvPrintApi status])
      else ((data <- body ;; response_field data)%res, [EvGetLive])
  end.

Definition fetch_match_statistics (fixture_id : pyval) : M pyval := fun h =>
  match get_stats world h fixture_id with
  | HttpFailure e => (Raise e, [EvGetStats fixture_id])
  | HttpResponse status body =>
      if negb (status =? 200)
      then (Ok (PList []), [EvGetStats fixture_id; EvPrintApiStats status])
      else ((data <- body ;; response_field data)%res, [EvGetStats fixture_id])
  end.

(** [app.bot.send_message(chat_id=TELEGRAM_CHAT_ID, text=message)] *)
Definition bot_send_message (text : string) : M unit := fun h =>
  match send_message world h text with
  | None => (Ok tt, [EvSend text])
  | Some e => (Raise e, [EvSend text])
  end.

(** [float(v)] *)
Definition py_float (v : pyval) : result float :=
  match v with
  | PBool b => Ok (if b then 1 else 0)%float
  | PInt z => float_of_Z z
  | PFloat f => Ok f
  | PStr s =>
      match parse_float s with
      | Some f => Ok f
      | None => Raise ValueError
      end
  | _ => Raise TypeError
  end.

(** [str(v)], as an f-string field without a format uses it. *)
Definition py_str (v : pyval) : string :=
  match v with
  | PStr s => s
  | _ => py_repr v
  end.

(** *** The extraction step *)

(** [teams["home"]["name"]] and [teams["away"]["name"]] *)
Definition home_name (teams : pyval) : result pyval :=
  (t <- subscript teams "home" ;; subscript t "name")%res.

Definition away_name (teams : pyval) : result pyval :=
  (t <- subscript teams "away" ;; subscript t "name")%res.

(** One [if s["type"] == label:] statement with its two branches;
    [convert] is what is applied to [s["value"] or 0] before the
    assignment. *)
Definition assign_stat (label : string) (convert : pyval -> result pyval)
    (set_home set_away : pyval -> extracted -> extracted)
    (teams team_name s : pyval) (x : extracted) : result extracted :=
  (ty <- subscript s "type" ;;
   if py_eq ty (PStr label) then
     hn <- home_name teams ;;
     if py_eq team_name hn then
       v <- subscript s "value" ;;
       c <- convert (py_or v (PInt 0)) ;;
       Ok (set_home c x)
     else
       v <- subscript s "value" ;;
       c <- convert (py_or v (PInt 0)) ;;
       Ok (set_away c x)
   else Ok x)%res.

Definition keep (v : pyval) : result pyval := Ok v.

Definition to_pyfloat (v : pyval) : result pyval :=
  (f <- py_float v ;; Ok (PFloat f))%res.

(** The body of [for s in stats:]. *)
Definition extract_entry (teams team_name : pyval) (x : extracted) (s : pyval)
  : result extracted :=
  (x <- assign_stat "Shots on Goal" keep set_shots_home set_shots_away
          teams team_name s x ;;
   x <- assign_stat "Attacks" keep set_attacks_home set_attacks_away
          teams team_name s x ;;
   assign_stat "xG" to_pyfloat set_xg_home set_xg_away teams team_name s x)%res.

Fixpoint extract_entries (teams team_name : pyval) (x : extracted)
    (stats : list pyval) : result extracted :=
  match stats with
  | [] => Ok x
  | s :: stats' =>
      (x' <- extract_entry teams team_name x s ;;
       extract_entries teams team_name x' stats')%res
  end.

(** The body of [for team_stats in stats_response:]. *)
Definition extract_block (teams : pyval) (x : extracted) (team_stats : pyval)
  : result extracted :=
  (team <- subscript team_stats "team" ;;
   team_name <- subscript team "name" ;;
   stats <- subscript team_stats "statistics" ;;
   entries <- py_iter stats ;;
   extract_entries teams team_name x entries)%res.

Fixpoint extract_blocks (teams : pyval) (x : extracted) (blocks : list pyval)
  : result extracted :=
  match blocks with
  | [] => Ok x
  | b :: blocks' =>
      (x' <- extract_block teams x b ;; extract_blocks teams x' blocks')%res
  end.

(** Lines 75 to 100: the six variables after both loops. *)
Definition extract_stats (teams stats_response : pyval) : result extracted :=
  (blocks <- py_iter stats_response ;;
   extract_blocks teams extracted_init blocks)%res.

(** The dict literal [real_stats]. *)
Definition real_stats (x : extracted) : dict :=
  [("xG_home", xg_home x); ("xG_away", xg_away x);
   ("shots_on_home", shots_home x); ("shots_on_away", shots_away x);
   ("attacks_home", attacks_home x); ("attacks_away", attacks_away x)].

(** *** The alert *)

(** [repr] of a dict whose keys need no escaping. *)
Definition dict_repr (d : dict) : string :=
  ("{" ++ String.concat ", "
            (map (fun kv => "'" ++ fst kv ++ "': " ++ py_repr (snd kv)) d)
       ++ "}")%string.

(** The f-string of lines 113 to 118. *)
Definition alert_message (home away : pyval) (prob : float) (stats : dict)
  : string :=
  ("⚡ Probabilità alta di gol!" ++ nl
   ++ py_str home ++ " 🆚 " ++ py_str away ++ nl
   ++ "Probabilità stimata: " ++ format_percent prob ++ nl
   ++ "📊 Stats: " ++ dict_repr stats)%string.

(** Lines 111 to 119: score the extracted stats and alert. *)
Definition score_and_alert (teams : pyval) (x : extracted) : M unit :=
  (prob <- lift (compute_goal_probability (real_stats x)) ;;
   if (DEFAULT_THRESHOLD <=? prob)%float then
     home <- lift (home_name teams) ;;
     away <- lift (away_name teams) ;;
     bot_send_message (alert_message home away prob (real_stats x))
   else ret tt)%io.

(** The body of [for match in matches:]. *)
Definition analyze_match (m : pyval) : M unit :=
  (fixture <- lift (subscript m "fixture") ;;
   fixture_id <- lift (subscript fixture "id") ;;
   teams <- lift (subscript m "teams") ;;
   stats_response <- fetch_match_statistics fixture_id ;;
   x <- lift (extract_stats teams stats_response) ;;
   score_and_alert teams x)%io.

Definition analyze_matches : M unit :=
  (matches <- fetch_live_matches ;;
   ms <- lift (py_iter matches) ;;
   for_each ms analyze_match)%io.

(** *** The poll loop *)

(** One turn of [while True:]: the [try] statement, then the sleep, which
    is outside of it. *)
Definition loop_iteration : M unit :=
  (try_except analyze_matches (fun e => emit (EvPrintLoop e)) ;;
   asyncio_sleep POLL_SECONDS)%io.

(** The first [n] turns of the loop, which has no exit of its own: it ends
    only by an exception of the sleep. *)
Fixpoint background_task (n : nat) : M unit :=
  match n with
  | O => ret tt
  | S n' => (loop_iteration ;; background_task n')%io
  end.

(** *** Statistics in range *)

(** An entry whose value, when it is a shots or attacks entry, is absent
    or a count that is not negative and, when it is an xG entry, converts
    to a float that is not negative. *)
Definition entry_in_range (s : pyval) : Prop :=
  forall v, subscript s "value" = Ok v ->
    (entry_has_type "Shots on Goal" s = true \/
     entry_has_type "Attacks" s = true ->
     small_nonneg (py_or v (PInt 0))) /\
    (entry_has_type "xG" s = true ->
     forall f, py_float (py_or v (PInt 0)) = Ok f -> (0 <=? f)%float = true).

(** * Theorems *)

Lemma sent_app (es es' : list event) : sent (es ++ es') = sent es ++ sent es'.
Proof.
  induction es as [|e es IH]; simpl; [reflexivity|].
  destruct e; simpl; rewrite IH; reflexivity.
Qed.

Lemma Substring_intro (pre needle post : string) :
  Substring needle (pre ++ needle ++ post).
Proof. exists pre, post. reflexivity. Qed.

Lemma append_assoc (a b c : string) : ((a ++ b) ++ c = a ++ (b ++ c))%string.
Proof. induction a as [|x a IH]; simpl; [reflexivity | rewrite IH; reflexivity]. Qed.

(** C1. [compute_goal_probability] returns
    [min(((xG_home + xG_away) * 0.5 + (shots_on_home + shots_on_away) * 0.05
          + (attacks_home + attacks_away) * 0.01) / 2, 1.0)]:
    on any dict it is the formula applied to the six fields (an absent
    field read as 0), raising what the formula raises; on six float fields
    it is the float expression itself, with these coefficients and the
    division by 2. *)
Theorem compute_goal_probability_formula :
  (forall stats : dict,
     compute_goal_probability stats =
     probability_formula
       (dict_get stats "xG_home" (PInt 0)) (dict_get stats "xG_away" (PInt 0))
       (dict_get stats "shots_on_home" (PInt 0))
       (dict_get stats "shots_on_away" (PInt 0))
       (dict_get stats "attacks_home" (PInt 0))
       (dict_get stats "attacks_away" (PInt 0))) /\
  (forall xh xa sh sa ah aa : pyval,
     compute_goal_probability (stats_dict xh xa sh sa ah aa) =
     probability_formula xh xa sh sa ah aa) /\
  (forall xh xa sh sa ah aa : float,
     compute_goal_probability
       (stats_dict (PFloat xh) (PFloat xa) (PFloat sh) (PFloat sa)
                   (PFloat ah) (PFloat aa)) =
     Ok (py_min (((xh + xa) * 0.5 + (sh + sa) * 0.05 + (ah + aa) * 0.01) / 2)
                1.0)%float).
Proof.
  assert (G : forall stats : dict,
     compute_goal_probability stats =
     probability_formula
       (dict_get stats "xG_home" (PInt 0)) (dict_get stats "xG_away" (PInt 0))
       (dict_get stats "shots_on_home" (PInt 0))
       (dict_get stats "shots_on_away" (PInt 0))
       (dict_get stats "attacks_home" (PInt 0))
       (dict_get stats "attacks_away" (PInt 0))).
  { intros stats. unfold compute_goal_probability, probability_formula.
    destruct (py_add (dict_get stats "xG_home" (PInt 0))
                     (dict_get stats "xG_away" (PInt 0))) as [a|e]; simpl; [|reflexivity].
    destruct (py_mul_float a 0.5) as [a'|e]; simpl; [|reflexivity].
    destruct (py_add (dict_get stats "shots_on_home" (PInt 0))
                     (dict_get stats "shots_on_away" (PInt 0))) as [b|e]; simpl; [|reflexivity].
    destruct (py_mul_float b 0.05) as [b'|e]; simpl; [|reflexivity].
    destruct (py_add (dict_get stats "attacks_home" (PInt 0))
                     (dict_get stats "attacks_away" (PInt 0))) as [c|e]; simpl; [|reflexivity].
    destruct (py_mul_float c 0.01) as [c'|e]; simpl; reflexivity. }
  split; [exact G|]. split.
  - intros. rewrite G. reflexivity.
  - intros. rewrite G. reflexivity.
Qed.

(** ** Order on floats *)

Lemma SFcompare_antisym (x y : spec_float) :
  SFcompare y x = option_map CompOpp (SFcompare x y).
Proof.
  destruct x as [sx|sx| |sx mx ex], y as [sy|sy| |sy my ey]; simpl;
    try reflexivity;
    try (destruct sx; reflexivity); try (destruct sy; reflexivity);
    try (destruct sx, sy; reflexivity).
  destruct sx, sy; simpl; try reflexivity.
  - rewrite (Z.compare_antisym ex ey).
    destruct (ex ?= ey) eqn:E; simpl; try reflexivity.
    rewrite (Pos.compare_cont_antisym mx my Eq). simpl. reflexivity.
  - rewrite (Z.compare_antisym ex ey).
    destruct (ex ?= ey) eqn:E; simpl; try reflexivity.
    rewrite (Pos.compare_cont_antisym mx my Eq). simpl.
    destruct (Pos.compare_cont Eq my mx); reflexivity.
Qed.

Lemma ltb_leb_false (a b : float) :
  (a <? b)%float = true -> (b <=? a)%float = false.
Proof.
  rewrite ltb_spec, leb_spec. unfold SFltb, SFleb.
  rewrite (SFcompare_antisym (Prim2SF a) (Prim2SF b)).
  destruct (SFcompare (Prim2SF a) (Prim2SF b)) as [[]|]; simpl; congruence.
Qed.

Lemma append_nil_r (a : string) : (a ++ "")%string = a.
Proof. induction a as [|x a IH]; simpl; [reflexivity | rewrite IH; reflexivity]. Qed.

(** ** Running the monad *)

Lemma bind_lift {A B} (r : result A) (k : A -> M B) (h : list event) :
  bind (lift r) k h =
  match r with
  | Ok a => k a h
  | Raise e => (Raise e, [])
  end.
Proof.
  unfold bind, lift. destruct r as [a|e]; [|reflexivity].
  rewrite app_nil_r. destruct (k a h); reflexivity.
Qed.

Lemma bind_run {A B} (m : M A) (k : A -> M B) (h : list event) a es :
  m h = (Ok a, es) ->
  bind m k h = (fst (k a (h ++ es)), es ++ snd (k a (h ++ es))).
Proof.
  intros E. unfold bind. rewrite E. destruct (k a (h ++ es)); reflexivity.
Qed.

Lemma bind_raise {A B} (m : M A) (k : A -> M B) (h : list event) e es :
  m h = (Raise e, es) -> bind m k h = (Raise e, es).
Proof. intros E. unfold bind. rewrite E. reflexivity. Qed.

Lemma fetch_match_statistics_sent (id : pyval) (h : list event) :
  sent (snd (fetch_match_statistics id h)) = [].
Proof.
  unfold fetch_match_statistics.
  destruct (get_stats world h id) as [e|status body]; [reflexivity|].
  destruct (negb (status =? 200)); reflexivity.
Qed.

Lemma score_and_alert_run (teams home away : pyval) (x : extracted)
    (prob : float) (h : list event) :
  compute_goal_probability (real_stats x) = Ok prob ->
  home_name teams = Ok home ->
  away_name teams = Ok away ->
  snd (score_and_alert teams x h) =
  if (DEFAULT_THRESHOLD <=? prob)%float
  then [EvSend (alert_message home away prob (real_stats x))]
  else [].
Proof.
  intros Hp Hh Ha.
  unfold score_and_alert.
  rewrite bind_lift, Hp.
  destruct (DEFAULT_THRESHOLD <=? prob)%float; [|reflexivity].
  rewrite bind_lift, Hh, bind_lift, Ha.
  unfold bot_send_message.
  destruct (send_message world h _); reflexivity.
Qed.

Lemma analyze_match_run (m fixture fixture_id teams stats_response : pyval)
    (x : extracted) (h es : list event) :
  subscript m "fixture" = Ok fixture ->
  subscript fixture "id" = Ok fixture_id ->
  subscript m "teams" = Ok teams ->
  fetch_match_statistics fixture_id h = (Ok stats_response, es) ->
  extract_stats teams stats_response = Ok x ->
  analyze_match m h =
  (fst (score_and_alert teams x (h ++ es)),
   es ++ snd (score_and_alert teams x (h ++ es))).
Proof.
  intros Hf Hi Ht Hs Hx.
  unfold analyze_match.
  rewrite bind_lift, Hf, bind_lift, Hi, bind_lift, Ht.
  rewrite (bind_run _ _ _ _ _ Hs).
  rewrite bind_lift, Hx. reflexivity.
Qed.

(** C2. For a match of the pass whose statistics were fetched, extracted
    and scored, the notifier is called if and only if the probability is
    greater than or equal to the threshold; then it is called exactly once,
    with a text that contains both team names, the probability as a
    percentage and the stats record; below the threshold it is not
    called. *)
Theorem alert_iff_threshold
    (m fixture fixture_id teams stats_response home away : pyval)
    (x : extracted) (prob : float) (h es : list event) :
  subscript m "fixture" = Ok fixture ->
  subscript fixture "id" = Ok fixture_id ->
  subscript m "teams" = Ok teams ->
  fetch_match_statistics fixture_id h = (Ok stats_response, es) ->
  extract_stats teams stats_response = Ok x ->
  compute_goal_probability (real_stats x) = Ok prob ->
  home_name teams = Ok home ->
  away_name teams = Ok away ->
  let msg := alert_message home away prob (real_stats x) in
  sent (snd (analyze_match m h)) =
    (if (DEFAULT_THRESHOLD <=? prob)%float then [msg] else []) /\
  ((exists t, In t (sent (snd (analyze_match m h)))) <->
   (DEFAULT_THRESHOLD <=? prob)%float = true) /\
  ((prob <? DEFAULT_THRESHOLD)%float = true ->
   sent (snd (analyze_match m h)) = []) /\
  Substring (py_str home) msg /\
  Substring (py_str away) msg /\
  Substring (format_percent prob) msg /\
  Substring (dict_repr (real_stats x)) msg.
Proof.
  intros Hf Hi Ht Hs Hx Hp Hh Ha msg.
  assert (E : sent (snd (analyze_match m h)) =
              if (DEFAULT_THRESHOLD <=? prob)%float then [msg] else []).
  { rewrite (analyze_match_run _ _ _ _ _ _ _ _ Hf Hi Ht Hs Hx). simpl.
    rewrite sent_app.
    pose proof (fetch_match_statistics_sent fixture_id h) as F.
    rewrite Hs in F. simpl in F. rewrite F. simpl.
    rewrite (score_and_alert_run _ _ _ _ _ _ Hp Hh Ha).
    destruct (DEFAULT_THRESHOLD <=? prob)%float; reflexivity. }
  split; [exact E|]. split; [|split].
  - rewrite E. destruct (DEFAULT_THRESHOLD <=? prob)%float.
    + split; [reflexivity|]. intros _. exists msg. left. reflexivity.
    + split; [intros [t []]|discriminate].
  - intros Hlt. rewrite E. rewrite (ltb_leb_false _ _ Hlt). reflexivity.
  - unfold msg, alert_message. repeat split.
    + exists ("⚡ Probabilità alta di gol!" ++ nl)%string. eexists.
      rewrite !append_assoc. reflexivity.
    + exists ("⚡ Probabilità alta di gol!" ++ nl ++ py_str home ++ " 🆚 ")%string.
      eexists. rewrite !append_assoc. reflexivity.
    + exists ("⚡ Probabilità alta di gol!" ++ nl ++ py_str home ++ " 🆚 "
               ++ py_str away ++ nl ++ "Probabilità stimata: ")%string.
      eexists. rewrite !append_assoc. reflexivity.
    + exists ("⚡ Probabilità alta di gol!" ++ nl ++ py_str home ++ " 🆚 "
               ++ py_str away ++ nl ++ "Probabilità stimata: "
               ++ format_percent prob ++ nl ++ "📊 Stats: ")%string.
      exists "". rewrite !append_assoc. rewrite append_nil_r. reflexivity.
Qed.

Lemma extract_stats_empty (teams : pyval) :
  extract_stats teams (PList []) = Ok extracted_init.
Proof. reflexivity. Qed.

Lemma compute_goal_probability_zero :
  compute_goal_probability (real_stats extracted_init) = Ok 0%float.
Proof. vm_compute. reflexivity. Qed.

Lemma fetch_match_statistics_failure (id : pyval) (h : list event)
    (status : Z) (body : result pyval) :
  get_stats world h id = HttpResponse status body ->
  status <> 200 ->
  fetch_match_statistics id h =
  (Ok (PList []), [EvGetStats id; EvPrintApiStats status]).
Proof.
  intros Hg Hs. unfold fetch_match_statistics.
  rewrite Hg. destruct (Z.eqb_spec status 200) as [->|_]; [contradiction|].
  reflexivity.
Qed.

(** C5 (amended). When the statistics request of a match is answered with
    a status other than 200, the statistics are the empty list, the
    extraction leaves all six fields at 0, the probability is 0 and, the
    threshold not being less than or equal to 0, nothing is sent for that
    match. *)
Theorem stats_failure_no_alert
    (m fixture fixture_id teams : pyval) (h : list event)
    (status : Z) (body : result pyval) :
  subscript m "fixture" = Ok fixture ->
  subscript fixture "id" = Ok fixture_id ->
  subscript m "teams" = Ok teams ->
  get_stats world h fixture_id = HttpResponse status body ->
  status <> 200 ->
  (DEFAULT_THRESHOLD <=? 0)%float = false ->
  fetch_match_statistics fixture_id h =
    (Ok (PList []), [EvGetStats fixture_id; EvPrintApiStats status]) /\
  extract_stats teams (PList []) = Ok extracted_init /\
  real_stats extracted_init =
    stats_dict (PInt 0) (PInt 0) (PInt 0) (PInt 0) (PInt 0) (PInt 0) /\
  compute_goal_probability (real_stats extracted_init) = Ok 0%float /\
  analyze_match m h =
    (Ok tt, [EvGetStats fixture_id; EvPrintApiStats status]) /\
  sent (snd (analyze_match m h)) = [].
Proof.
  intros Hf Hi Ht Hg Hs Hthr.
  pose proof (fetch_match_statistics_failure _ _ _ _ Hg Hs) as F.
  assert (A : analyze_match m h =
              (Ok tt, [EvGetStats fixture_id; EvPrintApiStats status])).
  { rewrite (analyze_match_run _ _ _ _ _ _ _ _ Hf Hi Ht F
               (extract_stats_empty teams)).
    unfold score_and_alert.
    rewrite bind_lift, compute_goal_probability_zero, Hthr. reflexivity. }
  split; [exact F|]. split; [reflexivity|]. split; [reflexivity|].
  split; [apply compute_goal_probability_zero|]. split; [exact A|].
  rewrite A. reflexivity.
Qed.

(** ** The extraction step *)

Lemma assign_stat_hit (label : string) (convert : pyval -> result pyval)
    (set_home set_away : pyval -> extracted -> extracted)
    (teams team_name s hn v : pyval) (x : extracted) :
  entry_has_type label s = true ->
  home_name teams = Ok hn ->
  subscript s "value" = Ok v ->
  assign_stat label convert set_home set_away teams team_name s x =
  (c <- convert (py_or v (PInt 0)) ;;
   Ok ((if py_eq team_name hn then set_home else set_away) c x))%res.
Proof.
  unfold entry_has_type, assign_stat. intros Ht Hh Hv.
  destruct (subscript s "type") as [ty|e]; [|discriminate]. simpl.
  rewrite Ht, Hh. simpl. rewrite Hv. simpl.
  destruct (py_eq team_name hn); reflexivity.
Qed.

Lemma assign_stat_miss (label : string) (convert : pyval -> result pyval)
    (set_home set_away : pyval -> extracted -> extracted)
    (teams team_name s ty : pyval) (x : extracted) :
  subscript s "type" = Ok ty ->
  py_eq ty (PStr label) = false ->
  assign_stat label convert set_home set_away teams team_name s x = Ok x.
Proof.
  unfold assign_stat. intros Hs Ht. rewrite Hs. simpl. rewrite Ht. reflexivity.
Qed.

Lemma assign_stat_cases (label : string) (convert : pyval -> result pyval)
    (set_home set_away : pyval -> extracted -> extracted)
    (teams team_name s : pyval) (x x' : extracted) :
  assign_stat label convert set_home set_away teams team_name s x = Ok x' ->
  (entry_has_type label s = false /\ x' = x) \/
  (entry_has_type label s = true /\
   exists c, x' = set_home c x \/ x' = set_away c x).
Proof.
  unfold entry_has_type, assign_stat.
  destruct (subscript s "type") as [ty|e]; simpl; [|discriminate].
  destruct (py_eq ty (PStr label)).
  - intros H. right. split; [reflexivity|].
    destruct (home_name teams) as [hn|e]; simpl in H; [|discriminate].
    destruct (py_eq team_name hn);
      destruct (subscript s "value") as [v|e]; simpl in H; try discriminate;
      destruct (convert (py_or v (PInt 0))) as [c|e]; simpl in H;
      try discriminate; injection H as <-; exists c; auto.
  - intros H. injection H as <-. left. split; reflexivity.
Qed.

(** A stat entry whose type is one of the three labels hits exactly one
    of the three [if] statements. *)
Lemma extract_entry_shots (teams team_name s hn v : pyval) (x : extracted) :
  subscript s "type" = Ok (PStr "Shots on Goal") ->
  home_name teams = Ok hn ->
  subscript s "value" = Ok v ->
  extract_entry teams team_name x s =
  Ok ((if py_eq team_name hn then set_shots_home else set_shots_away)
        (py_or v (PInt 0)) x).
Proof.
  intros Ht Hh Hv. unfold extract_entry.
  rewrite (assign_stat_hit _ _ _ _ _ _ _ hn v); trivial;
    [|unfold entry_has_type; rewrite Ht; reflexivity].
  unfold keep. simpl.
  rewrite (assign_stat_miss _ _ _ _ _ _ _ _ _ Ht); [|reflexivity]. simpl.
  rewrite (assign_stat_miss _ _ _ _ _ _ _ _ _ Ht); reflexivity.
Qed.

Lemma extract_entry_attacks (teams team_name s hn v : pyval) (x : extracted) :
  subscript s "type" = Ok (PStr "Attacks") ->
  home_name teams = Ok hn ->
  subscript s "value" = Ok v ->
  extract_entry teams team_name x s =
  Ok ((if py_eq team_name hn then set_attacks_home else set_attacks_away)
        (py_or v (PInt 0)) x).
Proof.
  intros Ht Hh Hv. unfold extract_entry.
  rewrite (assign_stat_miss _ _ _ _ _ _ _ _ _ Ht); [|reflexivity]. simpl.
  rewrite (assign_stat_hit _ _ _ _ _ _ _ hn v); trivial;
    [|unfold entry_has_type; rewrite Ht; reflexivity].
  unfold keep. simpl.
  rewrite (assign_stat_miss _ _ _ _ _ _ _ _ _ Ht); reflexivity.
Qed.

Lemma extract_entry_xg (teams team_name s hn v : pyval) (x : extracted) :
  subscript s "type" = Ok (PStr "xG") ->
  home_name teams = Ok hn ->
  subscript s "value" = Ok v ->
  extract_entry teams team_name x s =
  (f <- py_float (py_or v (PInt 0)) ;;
   Ok ((if py_eq team_name hn then set_xg_home else set_xg_away)
         (PFloat f) x))%res.
Proof.
  intros Ht Hh Hv. unfold extract_entry.
  rewrite (assign_stat_miss _ _ _ _ _ _ _ _ _ Ht); [|reflexivity]. simpl.
  rewrite (assign_stat_miss _ _ _ _ _ _ _ _ _ Ht); [|reflexivity]. simpl.
  rewrite (assign_stat_hit _ _ _ _ _ _ _ hn v); trivial;
    [|unfold entry_has_type; rewrite Ht; reflexivity].
  unfold to_pyfloat.
  destruct (py_float (py_or v (PInt 0))); reflexivity.
Qed.





Ltac assign_step H x1 :=
  match type of H with
  | rbind ?a _ = Ok _ =>
      let E := fresh "E" in
      destruct a as [x1|?] eqn:E; simpl in H; [|discriminate]
  end.

Lemma extract_entry_keeps_shots (teams tn s : pyval) (x x' : extracted) :
  extract_entry teams tn x s = Ok x' ->
  entry_has_type "Shots on Goal" s = false ->
  shots_home x' = shots_home x /\ shots_away x' = shots_away x.
Proof.
  unfold extract_entry. intros H N.
  assign_step H x1. assign_step H x2.
  destruct (assign_stat_cases _ _ _ _ _ _ _ _ _ E) as [[_ ->]|[T _]];
    [|congruence].
  destruct (assign_stat_cases _ _ _ _ _ _ _ _ _ E0) as [[_ ->]|[_ [c [->| ->]]]];
    destruct (assign_stat_cases _ _ _ _ _ _ _ _ _ H) as [[_ ->]|[_ [c' [->| ->]]]];
    split; reflexivity.
Qed.

Lemma extract_entry_keeps_attacks (teams tn s : pyval) (x x' : extracted) :
  extract_entry teams tn x s = Ok x' ->
  entry_has_type "Attacks" s = false ->
  attacks_home x' = attacks_home x /\ attacks_away x' = attacks_away x.
Proof.
  unfold extract_entry. intros H N.
  assign_step H x1. assign_step H x2.
  destruct (assign_stat_cases _ _ _ _ _ _ _ _ _ E0) as [[_ ->]|[T _]];
    [|congruence].
  destruct (assign_stat_cases _ _ _ _ _ _ _ _ _ E) as [[_ ->]|[_ [c [->| ->]]]];
    destruct (assign_stat_cases _ _ _ _ _ _ _ _ _ H) as [[_ ->]|[_ [c' [->| ->]]]];
    split; reflexivity.
Qed.

Lemma extract_entry_keeps_xg (teams tn s : pyval) (x x' : extracted) :
  extract_entry teams tn x s = Ok x' ->
  entry_has_type "xG" s = false ->
  xg_home x' = xg_home x /\ xg_away x' = xg_away x.
Proof.
  unfold extract_entry. intros H N.
  assign_step H x1. assign_step H x2.
  destruct (assign_stat_cases _ _ _ _ _ _ _ _ _ H) as [[_ ->]|[T _]];
    [|congruence].
  destruct (assign_stat_cases _ _ _ _ _ _ _ _ _ E) as [[_ ->]|[_ [c [->| ->]]]];
    destruct (assign_stat_cases _ _ _ _ _ _ _ _ _ E0) as [[_ ->]|[_ [c' [->| ->]]]];
    split; reflexivity.
Qed.

(** A field pair that every entry without the label keeps is kept by both
    loops. *)
Lemma extract_stats_keeps (label : string) (proj : extracted -> pyval * pyval) :
  (forall teams tn s x x',
     extract_entry teams tn x s = Ok x' ->
     entry_has_type label s = false -> proj x' = proj x) ->
  forall teams stats_response x,
    extract_stats teams stats_response = Ok x ->
    type_absent label stats_response ->
    proj x = proj extracted_init.
Proof.
  intros Step teams sr x. unfold extract_stats, type_absent, response_blocks.
  destruct (py_iter sr) as [bs|e]; simpl; [|discriminate].
  generalize extracted_init as x0. revert x.
  induction bs as [|b bs IH]; intros x x0 H A; simpl in H.
  - injection H as <-. reflexivity.
  - destruct (extract_block teams x0 b) as [x1|e] eqn:B; simpl in H;
      [|discriminate].
    rewrite (IH x x1 H) by (intros b' s' I; apply A; right; exact I).
    assert (Ab : forall s', In s' (block_entries b) ->
                            entry_has_type label s' = false)
      by (intros s' I; apply (A b); [left; reflexivity | exact I]).
    clear IH H A. unfold extract_block in B. unfold block_entries in Ab.
    destruct (subscript b "team") as [team|e]; simpl in B; [|discriminate].
    destruct (subscript team "name") as [tn|e]; simpl in B; [|discriminate].
    destruct (subscript b "statistics") as [st|e]; simpl in B, Ab;
      [|discriminate].
    destruct (py_iter st) as [es|e]; simpl in B, Ab; [|discriminate].
    revert x0 B. induction es as [|s es IHes]; intros x0 B; simpl in B.
    + injection B as <-. reflexivity.
    + destruct (extract_entry teams tn x0 s) as [x2|e] eqn:X; simpl in B;
        [|discriminate].
      rewrite (IHes (fun s' I => Ab s' (or_intror I)) x2 B).
      apply (Step _ _ _ _ _ X). apply Ab. left. reflexivity.
Qed.

Lemma extract_entry_unrecognised (teams tn s : pyval) (x : extracted) :
  (exists ty, subscript s "type" = Ok ty) ->
  entry_has_type "Shots on Goal" s = false ->
  entry_has_type "Attacks" s = false ->
  entry_has_type "xG" s = false ->
  extract_entry teams tn x s = Ok x.
Proof.
  intros [ty Ht]. unfold entry_has_type. rewrite Ht. intros N1 N2 N3.
  unfold extract_entry.
  rewrite (assign_stat_miss _ _ _ _ _ _ _ _ _ Ht N1). simpl.
  rewrite (assign_stat_miss _ _ _ _ _ _ _ _ _ Ht N2). simpl.
  apply (assign_stat_miss _ _ _ _ _ _ _ _ _ Ht N3).
Qed.

(** C6. A recognised stat entry whose value is null assigns 0 to its
    field; a recognised type that no entry of the response carries leaves
    both of its fields at the initial 0; and a well-formed response that
    carries none of the three types is extracted without an error, all six
    fields 0. *)
Theorem null_or_missing_stat_is_zero :
  (forall (teams tn s hn : pyval) (x : extracted),
     home_name teams = Ok hn ->
     subscript s "value" = Ok PNone ->
     (subscript s "type" = Ok (PStr "Shots on Goal") ->
      extract_entry teams tn x s =
      Ok ((if py_eq tn hn then set_shots_home else set_shots_away) (PInt 0) x)) /\
     (subscript s "type" = Ok (PStr "Attacks") ->
      extract_entry teams tn x s =
      Ok ((if py_eq tn hn then set_attacks_home else set_attacks_away)
            (PInt 0) x)) /\
     (subscript s "type" = Ok (PStr "xG") ->
      extract_entry teams tn x s =
      Ok ((if py_eq tn hn then set_xg_home else set_xg_away)
            (PFloat 0) x))) /\
  (forall (teams stats_response : pyval) (x : extracted),
     extract_stats teams stats_response = Ok x ->
     (type_absent "Shots on Goal" stats_response ->
      shots_home x = PInt 0 /\ shots_away x = PInt 0) /\
     (type_absent "Attacks" stats_response ->
      attacks_home x = PInt 0 /\ attacks_away x = PInt 0) /\
     (type_absent "xG" stats_response ->
      xg_home x = PInt 0 /\ xg_away x = PInt 0)) /\
  (forall (teams : pyval) (blocks : list pyval),
     (forall b, In b blocks -> block_well_formed b) ->
     type_absent "Shots on Goal" (PList blocks) ->
     type_absent "Attacks" (PList blocks) ->
     type_absent "xG" (PList blocks) ->
     extract_stats teams (PList blocks) = Ok extracted_init).
Proof.
  split; [|split].
  - intros teams tn s hn x Hh Hv. split; [|split]; intros Ht.
    + rewrite (extract_entry_shots _ _ _ _ _ _ Ht Hh Hv). reflexivity.
    + rewrite (extract_entry_attacks _ _ _ _ _ _ Ht Hh Hv). reflexivity.
    + rewrite (extract_entry_xg _ _ _ _ _ _ Ht Hh Hv). reflexivity.
  - intros teams sr x H. split; [|split]; intros A.
    + pose proof (extract_stats_keeps "Shots on Goal"
                    (fun x => (shots_home x, shots_away x))) as K.
      simpl in K. 
      assert (P : (shots_home x, shots_away x) = (PInt 0, PInt 0)).
      { apply (K (fun teams tn s x x' H N =>
                  match extract_entry_keeps_shots teams tn s x x' H N with
                  | conj a b => f_equal2 pair a b end) teams sr x H A). }
      injection P as -> ->. split; reflexivity.
    + pose proof (extract_stats_keeps "Attacks"
                    (fun x => (attacks_home x, attacks_away x))) as K.
      simpl in K.
      assert (P : (attacks_home x, attacks_away x) = (PInt 0, PInt 0)).
      { apply (K (fun teams tn s x x' H N =>
                  match extract_entry_keeps_attacks teams tn s x x' H N with
                  | conj a b => f_equal2 pair a b end) teams sr x H A). }
      injection P as -> ->. split; reflexivity.
    + pose proof (extract_stats_keeps "xG"
                    (fun x => (xg_home x, xg_away x))) as K.
      simpl in K.
      assert (P : (xg_home x, xg_away x) = (PInt 0, PInt 0)).
      { apply (K (fun teams tn s x x' H N =>
                  match extract_entry_keeps_xg teams tn s x x' H N with
                  | conj a b => f_equal2 pair a b end) teams sr x H A). }
      injection P as -> ->. split; reflexivity.
  - intros teams bs W A1 A2 A3. unfold extract_stats. simpl.
    unfold type_absent, response_blocks in A1, A2, A3. simpl in A1, A2, A3.
    generalize extracted_init as x0.
    induction bs as [|b bs IH]; intros x0; simpl; [reflexivity|].
    assert (B : extract_block teams x0 b = Ok x0).
    { destruct (W b (or_introl eq_refl))
        as [[team [name [Hteam Hname]]] [st [es [Hst [Hes Hty]]]]].
      assert (Ab : forall label,
                 (forall b' s, In b' (b :: bs) -> In s (block_entries b') ->
                               entry_has_type label s = false) ->
                 forall s, In s es -> entry_has_type label s = false).
      { intros label A s I. apply (A b); [left; reflexivity|].
        unfold block_entries. rewrite Hst. simpl. rewrite Hes. exact I. }
      pose proof (Ab _ A1) as N1. pose proof (Ab _ A2) as N2.
      pose proof (Ab _ A3) as N3.
      unfold extract_block. rewrite Hteam. simpl. rewrite Hname. simpl.
      rewrite Hst. simpl. rewrite Hes. simpl.
      clear Hes Ab. induction es as [|s es IHes]; simpl; [reflexivity|].
      rewrite extract_entry_unrecognised.
      - simpl. apply IHes; intros s' I.
        + apply Hty; right; exact I.
        + apply N1; right; exact I.
        + apply N2; right; exact I.
        + apply N3; right; exact I.
      - apply Hty; left; reflexivity.
      - apply N1; left; reflexivity.
      - apply N2; left; reflexivity.
      - apply N3; left; reflexivity. }
    rewrite B. simpl. apply IH.
    + intros b' I. apply W. right. exact I.
    + intros b' s' I. apply A1. right. exact I.
    + intros b' s' I. apply A2. right. exact I.
    + intros b' s' I. apply A3. right. exact I.
Qed.

(** ** The poll loop *)

Lemma sleeps_app (es es' : list event) :
  sleeps (es ++ es') = sleeps es ++ sleeps es'.
Proof.
  induction es as [|e es IH]; simpl; [reflexivity|].
  destruct e; simpl; rewrite IH; reflexivity.
Qed.

Lemma bind_sleeps {A B} (m : M A) (k : A -> M B) :
  (forall h, sleeps (snd (m h)) = []) ->
  (forall a h, sleeps (snd (k a h)) = []) ->
  forall h, sleeps (snd (bind m k h)) = [].
Proof.
  intros Hm Hk h. unfold bind. specialize (Hm h).
  destruct (m h) as [[a|e] es]; simpl in *; [|exact Hm].
  specialize (Hk a (h ++ es)). destruct (k a (h ++ es)) as [r es']. simpl in *.
  rewrite sleeps_app, Hm, Hk. reflexivity.
Qed.

Lemma for_each_sleeps {A} (body : A -> M unit) (xs : list A) :
  (forall a h, sleeps (snd (body a h)) = []) ->
  forall h, sleeps (snd (for_each xs body h)) = [].
Proof.
  intros Hb. induction xs as [|x xs IH]; simpl; [reflexivity|].
  apply bind_sleeps; [apply Hb | intros _; exact IH].
Qed.

Lemma analyze_match_sleeps (m : pyval) (h : list event) :
  sleeps (snd (analyze_match m h)) = [].
Proof.
  revert h. unfold analyze_match.
  repeat (apply bind_sleeps; [reflexivity | intros ?]).
  apply bind_sleeps.
  { intros h. unfold fetch_match_statistics.
    destruct (get_stats world h _) as [e|status body]; [reflexivity|].
    destruct (negb (status =? 200)); reflexivity. }
  intros sr. apply bind_sleeps; [reflexivity | intros x].
  unfold score_and_alert. apply bind_sleeps; [reflexivity | intros prob].
  destruct (DEFAULT_THRESHOLD <=? prob)%float; [|reflexivity].
  repeat (apply bind_sleeps; [reflexivity | intros ?]).
  intros h. unfold bot_send_message.
  destruct (send_message world h _); reflexivity.
Qed.

Lemma analyze_matches_sleeps (h : list event) :
  sleeps (snd (analyze_matches h)) = [].
Proof.
  revert h. unfold analyze_matches. apply bind_sleeps.
  { intros h. unfold fetch_live_matches.
    destruct (get_live world h) as [e|status body]; [reflexivity|].
    destruct (negb (status =? 200)); reflexivity. }
  intros live. apply bind_sleeps; [reflexivity | intros ms].
  apply for_each_sleeps. apply analyze_match_sleeps.
Qed.

Lemma asyncio_sleep_ok (seconds : Z) (h : list event) :
  sleepable seconds -> asyncio_sleep seconds h = (Ok tt, [EvSleep seconds]).
Proof.
  unfold sleepable, asyncio_sleep. intros [L|[f E]].
  - destruct (Z.leb_spec seconds 0); [reflexivity|lia].
  - rewrite E. destruct (seconds <=? 0); reflexivity.
Qed.

Lemma asyncio_sleep_raises (seconds : Z) (h : list event) :
  ~ sleepable seconds -> asyncio_sleep seconds h = (Raise OverflowError, []).
Proof.
  unfold sleepable, asyncio_sleep, float_of_Z. intros N.
  destruct (Z.leb_spec seconds 0) as [L|L]; [exfalso; apply N; left; exact L|].
  destruct (binary_normalize prec emax seconds 0 false);
    try reflexivity; exfalso; apply N; right; eexists; reflexivity.
Qed.

(** The [try] statement of a turn always ends normally. *)
Lemma try_analyze_run (h : list event) :
  try_except analyze_matches (fun e => emit (EvPrintLoop e)) h =
  (Ok tt,
   snd (analyze_matches h)
   ++ match fst (analyze_matches h) with
      | Ok _ => []
      | Raise e => [EvPrintLoop e]
      end).
Proof.
  unfold try_except, emit.
  destruct (analyze_matches h) as [[[]|e] es]; cbn [fst snd];
    [rewrite app_nil_r|]; reflexivity.
Qed.

Lemma loop_iteration_run (h : list event) :
  sleepable POLL_SECONDS ->
  loop_iteration h =
  (Ok tt,
   snd (analyze_matches h)
   ++ match fst (analyze_matches h) with
      | Ok _ => []
      | Raise e => [EvPrintLoop e]
      end
   ++ [EvSleep POLL_SECONDS]).
Proof.
  intros S. unfold loop_iteration, bind. rewrite try_analyze_run.
  rewrite (asyncio_sleep_ok _ _ S), <- app_assoc. reflexivity.
Qed.

Lemma loop_iteration_dies (h : list event) :
  ~ sleepable POLL_SECONDS ->
  loop_iteration h =
  (Raise OverflowError,
   snd (analyze_matches h)
   ++ match fst (analyze_matches h) with
      | Ok _ => []
      | Raise e => [EvPrintLoop e]
      end).
Proof.
  intros N. unfold loop_iteration, bind. rewrite try_analyze_run.
  rewrite (asyncio_sleep_raises _ _ N), app_nil_r. reflexivity.
Qed.

Lemma loop_iteration_cases (h : list event) :
  loop_iteration h =
    (Ok tt,
     snd (analyze_matches h)
     ++ match fst (analyze_matches h) with
        | Ok _ => []
        | Raise e => [EvPrintLoop e]
        end
     ++ [EvSleep POLL_SECONDS]) \/
  exists e,
    loop_iteration h =
    (Raise e,
     snd (analyze_matches h)
     ++ match fst (analyze_matches h) with
        | Ok _ => []
        | Raise e => [EvPrintLoop e]
        end).
Proof.
  unfold loop_iteration, bind. rewrite try_analyze_run. unfold asyncio_sleep.
  destruct (POLL_SECONDS <=? 0);
    [left; rewrite <- app_assoc; reflexivity|].
  destruct (float_of_Z POLL_SECONDS) as [f|e].
  - left. rewrite <- app_assoc. reflexivity.
  - right. exists e. rewrite app_nil_r. reflexivity.
Qed.

Lemma background_task_dies (n : nat) (h : list event) :
  ~ sleepable POLL_SECONDS ->
  background_task (S n) h =
  (Raise OverflowError,
   snd (analyze_matches h)
   ++ match fst (analyze_matches h) with
      | Ok _ => []
      | Raise e => [EvPrintLoop e]
      end).
Proof.
  intros N. cbn [background_task]. unfold bind.
  rewrite (loop_iteration_dies h N). reflexivity.
Qed.

(** C8 (amended). When [POLL_SECONDS] is an interval that the sleep
    accepts (not positive, or an int that converts to a float), whatever
    the analysis of a turn raises, the turn ends normally: the exception is
    printed and the loop sleeps [POLL_SECONDS]; a turn without an exception
    sleeps the same; any number of turns therefore completes, with one
    sleep of the fixed interval per turn, and the next turn starts from the
    history the previous one left.  With any other interval the sleep of
    the first turn, which is outside the [try], raises [OverflowError] and
    the loop ends there. *)
Theorem poll_loop_survives_exceptions :
  (sleepable POLL_SECONDS ->
   (forall h,
      loop_iteration h =
      (Ok tt,
       snd (analyze_matches h)
       ++ match fst (analyze_matches h) with
          | Ok _ => []
          | Raise e => [EvPrintLoop e]
          end
       ++ [EvSleep POLL_SECONDS])) /\
   (forall n h,
      fst (background_task n h) = Ok tt /\
      sleeps (snd (background_task n h)) = repeat POLL_SECONDS n) /\
   (forall n h,
      background_task (S n) h =
      (Ok tt,
       snd (loop_iteration h)
       ++ snd (background_task n (h ++ snd (loop_iteration h)))))) /\
  (~ sleepable POLL_SECONDS ->
   forall n h,
     background_task (S n) h =
     (Raise OverflowError,
      snd (analyze_matches h)
      ++ match fst (analyze_matches h) with
         | Ok _ => []
         | Raise e => [EvPrintLoop e]
         end) /\
     sleeps (snd (background_task (S n) h)) = []).
Proof.
  split.
  - intros Hs.
    assert (T : forall n h, fst (background_task n h) = Ok tt).
    { induction n as [|n IH]; intros h; [reflexivity|].
      cbn [background_task]. unfold bind. rewrite (loop_iteration_run h Hs).
      match goal with
      | |- context [background_task n ?h'] =>
          specialize (IH h'); destruct (background_task n h') as [r es]
      end.
      exact IH. }
    assert (U : forall n h,
       background_task (S n) h =
       (Ok tt,
        snd (loop_iteration h)
        ++ snd (background_task n (h ++ snd (loop_iteration h))))).
    { intros n h. cbn [background_task]. unfold bind at 1.
      pose proof (T n (h ++ snd (loop_iteration h))) as E.
      destruct (loop_iteration h) as [r es] eqn:L.
      rewrite (loop_iteration_run h Hs) in L. injection L as <- <-.
      cbn [snd] in *.
      match goal with
      | |- context [background_task n ?h'] =>
          destruct (background_task n h') as [r es]
      end.
      cbn [fst snd] in *. rewrite E. reflexivity. }
    split; [exact (fun h => loop_iteration_run h Hs)|]. split; [|exact U].
    intros n h. split; [apply T|]. revert h.
    induction n as [|n IH]; intros h; [reflexivity|].
    rewrite U. cbn [snd]. rewrite sleeps_app, IH, (loop_iteration_run h Hs).
    cbn [snd]. rewrite !sleeps_app, analyze_matches_sleeps.
    destruct (fst (analyze_matches h)); reflexivity.
  - intros N n h. rewrite (background_task_dies n h N). split; [reflexivity|].
    cbn [snd]. rewrite sleeps_app, analyze_matches_sleeps.
    destruct (fst (analyze_matches h)); reflexivity.
Qed.

(** ** Malformed entries *)

Lemma for_each_stops {A} (body : A -> M unit) (pre post : list A) (bad : A)
    (e : exn) :
  forall (h es_pre es_bad : list event),
    for_each pre body h = (Ok tt, es_pre) ->
    body bad (h ++ es_pre) = (Raise e, es_bad) ->
    for_each (pre ++ bad :: post) body h = (Raise e, es_pre ++ es_bad).
Proof.
  induction pre as [|a pre IH]; intros h es_pre es_bad Hpre Hbad; simpl in *.
  - injection Hpre as <-. rewrite app_nil_r in Hbad.
    unfold bind. rewrite Hbad. reflexivity.
  - unfold bind in *.
    destruct (body a h) as [[[]|e'] ea]; [|discriminate].
    destruct (for_each pre body (h ++ ea)) as [r er] eqn:R.
    injection Hpre as -> <-.
    rewrite app_assoc in Hbad.
    rewrite (IH _ _ _ R Hbad). rewrite app_assoc. reflexivity.
Qed.

Lemma extract_blocks_stops (teams bad : pyval) (pre post : list pyval)
    (x x' : extracted) (e : exn) :
  extract_blocks teams x pre = Ok x' ->
  extract_block teams x' bad = Raise e ->
  extract_blocks teams x (pre ++ bad :: post) = Raise e.
Proof.
  revert x. induction pre as [|b pre IH]; intros x Hpre Hbad; simpl in *.
  - injection Hpre as <-. rewrite Hbad. reflexivity.
  - destruct (extract_block teams x b) as [x1|e1]; simpl in *; [|discriminate].
    apply IH; assumption.
Qed.

Lemma analyze_match_extract_raises (m fixture fixture_id teams sr : pyval)
    (h es : list event) (e : exn) :
  subscript m "fixture" = Ok fixture ->
  subscript fixture "id" = Ok fixture_id ->
  subscript m "teams" = Ok teams ->
  fetch_match_statistics fixture_id h = (Ok sr, es) ->
  extract_stats teams sr = Raise e ->
  analyze_match m h = (Raise e, es).
Proof.
  intros Hf Hi Ht Hs Hx. unfold analyze_match.
  rewrite bind_lift, Hf, bind_lift, Hi, bind_lift, Ht.
  rewrite (bind_run _ _ _ _ _ Hs).
  rewrite bind_lift, Hx. simpl. rewrite app_nil_r. reflexivity.
Qed.

(** C10. A live-match entry without the "fixture" or the "teams" key, and
    a statistics element without the "team" or the "statistics" key, make
    the analysis of that match raise [KeyError]; the pass then stops at
    that match: its result and events do not depend on the matches after
    it, the events of the matches before it stay, and the exception leaves
    [analyze_matches] to be caught by the [try] statement of the turn of
    the poll loop, which prints it; the turn then sleeps, when
    [POLL_SECONDS] is an interval that the sleep accepts. *)
Theorem missing_key_aborts_pass :
  (forall (d : dict) (h : list event),
     dict_find d "fixture" = None ->
     analyze_match (PDict d) h = (Raise (KeyError "fixture"), [])) /\
  (forall (d : dict) (fixture fixture_id : pyval) (h : list event),
     subscript (PDict d) "fixture" = Ok fixture ->
     subscript fixture "id" = Ok fixture_id ->
     dict_find d "teams" = None ->
     analyze_match (PDict d) h = (Raise (KeyError "teams"), [])) /\
  (forall (m fixture fixture_id teams sr : pyval) (pre post : list pyval)
          (d : dict) (x : extracted) (h es : list event),
     subscript m "fixture" = Ok fixture ->
     subscript fixture "id" = Ok fixture_id ->
     subscript m "teams" = Ok teams ->
     fetch_match_statistics fixture_id h = (Ok sr, es) ->
     py_iter sr = Ok (pre ++ PDict d :: post) ->
     extract_blocks teams extracted_init pre = Ok x ->
     (dict_find d "team" = None ->
      analyze_match m h = (Raise (KeyError "team"), es)) /\
     (forall team name,
        subscript (PDict d) "team" = Ok team ->
        subscript team "name" = Ok name ->
        dict_find d "statistics" = None ->
        analyze_match m h = (Raise (KeyError "statistics"), es))) /\
  (forall (live bad : pyval) (pre post : list pyval) (key : string)
          (h es_live es_pre es_bad : list event),
     fetch_live_matches h = (Ok live, es_live) ->
     py_iter live = Ok (pre ++ bad :: post) ->
     for_each pre analyze_match (h ++ es_live) = (Ok tt, es_pre) ->
     analyze_match bad ((h ++ es_live) ++ es_pre) =
       (Raise (KeyError key), es_bad) ->
     analyze_matches h = (Raise (KeyError key), es_live ++ es_pre ++ es_bad) /\
     try_except analyze_matches (fun e => emit (EvPrintLoop e)) h =
       (Ok tt, (es_live ++ es_pre ++ es_bad) ++ [EvPrintLoop (KeyError key)]) /\
     (sleepable POLL_SECONDS ->
      loop_iteration h =
        (Ok tt,
         (es_live ++ es_pre ++ es_bad)
         ++ [EvPrintLoop (KeyError key); EvSleep POLL_SECONDS]))).
Proof.
  split; [|split; [|split]].
  - intros d h N. unfold analyze_match. rewrite bind_lift. simpl.
    rewrite N. reflexivity.
  - intros d fixture fixture_id h Hf Hi N. unfold analyze_match.
    rewrite bind_lift, Hf, bind_lift, Hi, bind_lift. simpl.
    rewrite N. reflexivity.
  - intros m fixture fixture_id teams sr pre post d x h es Hf Hi Ht Hs Hit Hpre.
    split.
    + intros N.
      apply (analyze_match_extract_raises _ _ _ _ _ _ _ _ Hf Hi Ht Hs).
      unfold extract_stats. rewrite Hit. simpl.
      apply (extract_blocks_stops _ _ _ _ _ _ _ Hpre).
      unfold extract_block. simpl. rewrite N. reflexivity.
    + intros team name Hteam Hname N.
      apply (analyze_match_extract_raises _ _ _ _ _ _ _ _ Hf Hi Ht Hs).
      unfold extract_stats. rewrite Hit. simpl.
      apply (extract_blocks_stops _ _ _ _ _ _ _ Hpre).
      unfold extract_block. rewrite Hteam. simpl. rewrite Hname. simpl.
      rewrite N. reflexivity.
  - intros live bad pre post key h es_live es_pre es_bad Hl Hit Hpre Hbad.
    assert (A : analyze_matches h =
                (Raise (KeyError key), es_live ++ es_pre ++ es_bad)).
    { unfold analyze_matches. rewrite (bind_run _ _ _ _ _ Hl).
      rewrite bind_lift, Hit.
      rewrite (for_each_stops _ _ _ _ _ _ _ _ Hpre Hbad). reflexivity. }
    split; [exact A|]. split.
    + rewrite try_analyze_run, A. reflexivity.
    + intros S. rewrite (loop_iteration_run h S), A. cbn [fst snd].
      rewrite <- !app_assoc. reflexivity.
Qed.

(** ** The live fetch *)

Lemma fetch_live_matches_not_200 (h : list event) (status : Z)
    (body : result pyval) :
  get_live world h = HttpResponse status body -> status <> 200 ->
  fetch_live_matches h = (Ok (PList []), [EvGetLive; EvPrintApi status]).
Proof.
  intros Hg Hs. unfold fetch_live_matches. rewrite Hg.
  destruct (Z.eqb_spec status 200) as [->|_]; [contradiction|reflexivity].
Qed.

Lemma analyze_matches_run (live : pyval) (ms : list pyval)
    (h es_live : list event) :
  fetch_live_matches h = (Ok live, es_live) ->
  py_iter live = Ok ms ->
  analyze_matches h =
  (fst (for_each ms analyze_match (h ++ es_live)),
   es_live ++ snd (for_each ms analyze_match (h ++ es_live))).
Proof.
  intros Hl Hi. unfold analyze_matches.
  rewrite (bind_run _ _ _ _ _ Hl), bind_lift, Hi. reflexivity.
Qed.

Lemma analyze_matches_raise (h es_live : list event) (e : exn) :
  fetch_live_matches h = (Raise e, es_live) ->
  analyze_matches h = (Raise e, es_live).
Proof. intros Hl. unfold analyze_matches. apply bind_raise, Hl. Qed.

(** X7. When the live endpoint answers with a status other than 200,
    whatever the body, the pass prints the status and ends normally: no
    statistics are requested and nothing is sent; the turn of the loop
    then sleeps, when [POLL_SECONDS] is an interval that the sleep
    accepts. *)
Theorem live_fetch_failure_skips_pass (h : list event) (status : Z)
    (body : result pyval) :
  get_live world h = HttpResponse status body -> status <> 200 ->
  analyze_matches h = (Ok tt, [EvGetLive; EvPrintApi status]) /\
  (sleepable POLL_SECONDS ->
   loop_iteration h =
     (Ok tt, [EvGetLive; EvPrintApi status; EvSleep POLL_SECONDS])).
Proof.
  intros Hg Hs.
  pose proof (fetch_live_matches_not_200 h status body Hg Hs) as F.
  assert (A : analyze_matches h = (Ok tt, [EvGetLive; EvPrintApi status]))
    by (rewrite (analyze_matches_run _ [] _ _ F eq_refl); reflexivity).
  split; [exact A|]. intros S. rewrite (loop_iteration_run h S), A.
  reflexivity.
Qed.

(** X8. A 200 answer whose JSON object has no "response" key, or an empty
    list under it, is a pass over no match: it ends normally after the one
    request. *)
Theorem live_body_without_matches (h : list event) (d : dict) :
  get_live world h = HttpResponse 200 (Ok (PDict d)) ->
  dict_find d "response" = None \/ dict_find d "response" = Some (PList []) ->
  analyze_matches h = (Ok tt, [EvGetLive]).
Proof.
  intros Hg Hd.
  assert (F : fetch_live_matches h = (Ok (PList []), [EvGetLive])).
  { unfold fetch_live_matches. rewrite Hg. cbn [Z.eqb Pos.eqb negb rbind].
    unfold response_field, dict_get. destruct Hd as [-> | ->]; reflexivity. }
  rewrite (analyze_matches_run _ [] _ _ F eq_refl). reflexivity.
Qed.

(** X9. An exception of the live fetch leaves the pass after the one
    request and is caught and printed by the [try] statement of the turn
    of the loop: a transport error, a body that is not JSON, and a JSON
    body that is not an object ([AttributeError], the body having no
    [get]).  The turn then sleeps, when [POLL_SECONDS] is an interval that
    the sleep accepts. *)
Theorem live_fetch_errors_reach_the_loop (h : list event) (e : exn) :
  get_live world h = HttpFailure e \/
  get_live world h = HttpResponse 200 (Raise e) \/
  (exists data, get_live world h = HttpResponse 200 (Ok data) /\
                (forall d, data <> PDict d) /\ e = AttributeError) ->
  analyze_matches h = (Raise e, [EvGetLive]) /\
  try_except analyze_matches (fun e => emit (EvPrintLoop e)) h =
    (Ok tt, [EvGetLive; EvPrintLoop e]) /\
  (sleepable POLL_SECONDS ->
   loop_iteration h =
     (Ok tt, [EvGetLive; EvPrintLoop e; EvSleep POLL_SECONDS])).
Proof.
  intros H.
  assert (F : fetch_live_matches h = (Raise e, [EvGetLive])).
  { unfold fetch_live_matches.
    destruct H as [-> | [-> | (data & -> & N & ->)]]; try reflexivity.
    cbn [Z.eqb Pos.eqb negb rbind]. unfold response_field.
    destruct data; try reflexivity. exfalso. apply (N d). reflexivity. }
  pose proof (analyze_matches_raise _ _ _ F) as A.
  split; [exact A|]. split.
  - rewrite try_analyze_run, A. reflexivity.
  - intros S. rewrite (loop_iteration_run h S), A. reflexivity.
Qed.

(** ** What a pass requests and sends *)

Lemma stats_requested_app (es es' : list event) :
  stats_requested (es ++ es') = stats_requested es ++ stats_requested es'.
Proof.
  induction es as [|e es IH]; simpl; [reflexivity|].
  destruct e; simpl; rewrite IH; reflexivity.
Qed.

Lemma live_requests_app (es es' : list event) :
  live_requests (es ++ es') = (live_requests es + live_requests es')%nat.
Proof.
  induction es as [|e es IH]; simpl; [reflexivity|].
  destruct e; simpl; rewrite IH; reflexivity.
Qed.

Lemma fetch_live_matches_events (h : list event) :
  sent (snd (fetch_live_matches h)) = [] /\
  stats_requested (snd (fetch_live_matches h)) = [] /\
  live_requests (snd (fetch_live_matches h)) = 1%nat.
Proof.
  unfold fetch_live_matches.
  destruct (get_live world h) as [e|status body]; [repeat split|].
  destruct (negb (status =? 200)); repeat split.
Qed.

Lemma fetch_match_statistics_events (id : pyval) (h : list event) :
  stats_requested (snd (fetch_match_statistics id h)) = [id] /\
  live_requests (snd (fetch_match_statistics id h)) = O.
Proof.
  unfold fetch_match_statistics.
  destruct (get_stats world h id) as [e|status body]; [split; reflexivity|].
  destruct (negb (status =? 200)); split; reflexivity.
Qed.

Lemma score_and_alert_events (teams : pyval) (x : extracted) (h : list event) :
  snd (score_and_alert teams x h) = [] \/
  exists prob text,
    compute_goal_probability (real_stats x) = Ok prob /\
    (DEFAULT_THRESHOLD <=? prob)%float = true /\
    snd (score_and_alert teams x h) = [EvSend text].
Proof.
  unfold score_and_alert. rewrite bind_lift.
  destruct (compute_goal_probability (real_stats x)) as [prob|e];
    [|left; reflexivity].
  destruct (DEFAULT_THRESHOLD <=? prob)%float eqn:T; [|left; reflexivity].
  rewrite bind_lift.
  destruct (home_name teams) as [home|e]; [|left; reflexivity].
  rewrite bind_lift.
  destruct (away_name teams) as [away|e]; [|left; reflexivity].
  right. exists prob, (alert_message home away prob (real_stats x)).
  split; [reflexivity|]. split; [exact T|].
  unfold bot_send_message. destruct (send_message world h _); reflexivity.
Qed.

(** The events of the analysis of one match: nothing before the statistics
    request, then the request, then what the alert adds. *)
Lemma analyze_match_events (m : pyval) (h : list event) :
  snd (analyze_match m h) = [] \/
  exists id teams x es,
    fixture_id_of m = Ok id /\
    subscript m "teams" = Ok teams /\
    es = snd (fetch_match_statistics id h) /\
    (snd (analyze_match m h) = es \/
     (fst (analyze_match m h) = fst (score_and_alert teams x (h ++ es)) /\
      snd (analyze_match m h) = es ++ snd (score_and_alert teams x (h ++ es)))).
Proof.
  unfold analyze_match, fixture_id_of. rewrite bind_lift.
  destruct (subscript m "fixture") as [fixture|e]; [|left; reflexivity].
  rewrite bind_lift. cbn [rbind].
  destruct (subscript fixture "id") as [id|e]; [|left; reflexivity].
  rewrite bind_lift.
  destruct (subscript m "teams") as [teams|e]; [|left; reflexivity].
  right. exists id, teams.
  destruct (fetch_match_statistics id h) as [[sr|e] es] eqn:F.
  - rewrite (bind_run _ _ _ _ _ F), bind_lift.
    destruct (extract_stats teams sr) as [x|e].
    + exists x, es. repeat split. right. split; reflexivity.
    + exists extracted_init, es. repeat split. left. cbn [snd].
      apply app_nil_r.
  - rewrite (bind_raise _ _ _ _ _ F).
    exists extracted_init, es. repeat split. left. reflexivity.
Qed.

Lemma analyze_match_sent (m : pyval) (h : list event) :
  sent (snd (analyze_match m h)) = [] \/
  exists x prob text,
    compute_goal_probability (real_stats x) = Ok prob /\
    (DEFAULT_THRESHOLD <=? prob)%float = true /\
    sent (snd (analyze_match m h)) = [text].
Proof.
  destruct (analyze_match_events m h)
    as [->|(id & teams & x & es & _ & _ & -> & [->|[_ ->]])].
  - left. reflexivity.
  - left. apply fetch_match_statistics_sent.
  - rewrite sent_app, fetch_match_statistics_sent.
    destruct (score_and_alert_events teams x
                (h ++ snd (fetch_match_statistics id h)))
      as [->|(prob & text & Hp & Ht & ->)]; [left; reflexivity|].
    right. exists x, prob, text. auto.
Qed.

Lemma analyze_match_ok_requests (m : pyval) (h es : list event) :
  analyze_match m h = (Ok tt, es) ->
  exists id, fixture_id_of m = Ok id /\ stats_requested es = [id].
Proof.
  intros H.
  assert (R : fst (analyze_match m h) = Ok tt) by (rewrite H; reflexivity).
  assert (E : snd (analyze_match m h) = es) by (rewrite H; reflexivity).
  clear H. revert R E. unfold analyze_match, fixture_id_of.
  rewrite bind_lift.
  destruct (subscript m "fixture") as [fixture|e]; [|discriminate].
  rewrite bind_lift. cbn [rbind].
  destruct (subscript fixture "id") as [id|e]; [|discriminate].
  rewrite bind_lift.
  destruct (subscript m "teams") as [teams|e]; [|discriminate].
  destruct (fetch_match_statistics id h) as [[sr|e] es0] eqn:F.
  - rewrite (bind_run _ _ _ _ _ F), bind_lift.
    pose proof (proj1 (fetch_match_statistics_events id h)) as Q.
    rewrite F in Q. cbn [snd] in Q.
    destruct (extract_stats teams sr) as [x|e]; [|discriminate].
    intros _ E. exists id. split; [reflexivity|]. rewrite <- E. cbn [snd].
    rewrite stats_requested_app, Q.
    destruct (score_and_alert_events teams x (h ++ es0))
      as [->|(prob & text & _ & _ & ->)]; reflexivity.
  - rewrite (bind_raise _ _ _ _ _ F). discriminate.
Qed.

Lemma for_each_ok_requests (ms : list pyval) :
  forall h es,
    for_each ms analyze_match h = (Ok tt, es) ->
    map fixture_id_of ms = map Ok (stats_requested es).
Proof.
  induction ms as [|m ms IH]; intros h es H; cbn [for_each] in H.
  - injection H as <-. reflexivity.
  - unfold bind in H.
    destruct (analyze_match m h) as [[[]|e] es1] eqn:A; [|discriminate].
    destruct (for_each ms analyze_match (h ++ es1)) as [r es2] eqn:R.
    injection H as -> <-.
    destruct (analyze_match_ok_requests _ _ _ A) as (id & Hid & Q).
    rewrite stats_requested_app, Q. cbn [map app].
    rewrite Hid, (IH _ _ R). reflexivity.
Qed.

(** X10. A pass that ends normally has requested the statistics of every live
    match exactly once, in the order of the live list, under the id found
    at [match["fixture"]["id"]]. *)
Theorem statistics_requested_once_per_match (live : pyval) (ms : list pyval)
    (h es_live es : list event) :
  fetch_live_matches h = (Ok live, es_live) ->
  py_iter live = Ok ms ->
  analyze_matches h = (Ok tt, es) ->
  map fixture_id_of ms = map Ok (stats_requested es).
Proof.
  intros Hl Hi H. rewrite (analyze_matches_run _ _ _ _ Hl Hi) in H.
  destruct (for_each ms analyze_match (h ++ es_live)) as [r es'] eqn:R.
  cbn [fst snd] in H. injection H as -> <-.
  pose proof (proj1 (proj2 (fetch_live_matches_events h))) as Q.
  rewrite Hl in Q. cbn [snd] in Q.
  rewrite stats_requested_app, Q. apply (for_each_ok_requests _ _ _ R).
Qed.

Lemma for_each_sent_length (ms : list pyval) :
  forall h,
    (List.length (sent (snd (for_each ms analyze_match h)))
     <= List.length ms)%nat.
Proof.
  induction ms as [|m ms IH]; intros h; cbn [for_each]; [apply le_n|].
  unfold bind.
  assert (L : (List.length (sent (snd (analyze_match m h))) <= 1)%nat).
  { destruct (analyze_match_sent m h) as [->|(x & p & t & _ & _ & ->)];
      cbn [List.length]; lia. }
  destruct (analyze_match m h) as [[[]|e] es1]; cbn [snd] in *.
  - specialize (IH (h ++ es1)).
    destruct (for_each ms analyze_match (h ++ es1)) as [r es2].
    cbn [snd List.length] in *. rewrite sent_app, length_app. lia.
  - cbn [List.length]. lia.
Qed.

(** X11. A pass sends at most one alert per live match, however it ends. *)
Theorem at_most_one_alert_per_match (live : pyval) (ms : list pyval)
    (h es_live : list event) :
  fetch_live_matches h = (Ok live, es_live) ->
  py_iter live = Ok ms ->
  (List.length (sent (snd (analyze_matches h))) <= List.length ms)%nat.
Proof.
  intros Hl Hi. rewrite (analyze_matches_run _ _ _ _ Hl Hi). cbn [snd].
  pose proof (proj1 (fetch_live_matches_events h)) as Q.
  rewrite Hl in Q. cbn [snd] in Q. rewrite sent_app, Q.
  apply for_each_sent_length.
Qed.

Lemma analyze_matches_events (h : list event) :
  snd (analyze_matches h) = snd (fetch_live_matches h) \/
  exists ms,
    snd (analyze_matches h) =
    snd (fetch_live_matches h)
    ++ snd (for_each ms analyze_match (h ++ snd (fetch_live_matches h))).
Proof.
  destruct (fetch_live_matches h) as [[live|e] es_live] eqn:F.
  - destruct (py_iter live) as [ms|e] eqn:I.
    + right. exists ms. rewrite (analyze_matches_run _ _ _ _ F I). reflexivity.
    + left. unfold analyze_matches.
      rewrite (bind_run _ _ _ _ _ F), bind_lift, I. cbn [snd].
      apply app_nil_r.
  - left. rewrite (analyze_matches_raise _ _ _ F). reflexivity.
Qed.

(** A threshold that no score reaches silences the pass. *)
Lemma analyze_matches_silent :
  (forall stats prob, compute_goal_probability stats = Ok prob ->
                      (DEFAULT_THRESHOLD <=? prob)%float = false) ->
  forall h, sent (snd (analyze_matches h)) = [].
Proof.
  intros Hthr h.
  pose proof (proj1 (fetch_live_matches_events h)) as Q.
  destruct (analyze_matches_events h) as [->|[ms ->]]; [exact Q|].
  rewrite sent_app, Q. cbn [app].
  generalize (h ++ snd (fetch_live_matches h)) as h1.
  induction ms as [|m ms IH]; intros h1; cbn [for_each]; [reflexivity|].
  unfold bind.
  assert (S : sent (snd (analyze_match m h1)) = []).
  { destruct (analyze_match_sent m h1)
      as [S|(x & p & t & Hp & Ht & _)]; [exact S|].
    rewrite (Hthr _ _ Hp) in Ht. discriminate. }
  destruct (analyze_match m h1) as [[[]|e] es1]; cbn [snd] in *; [|exact S].
  specialize (IH (h1 ++ es1)).
  destruct (for_each ms analyze_match (h1 ++ es1)) as [r es2].
  cbn [snd] in *. rewrite sent_app, S, IH. reflexivity.
Qed.

Lemma background_task_silent :
  (forall h, sent (snd (analyze_matches h)) = []) ->
  forall n h, sent (snd (background_task n h)) = [].
Proof.
  intros S n. induction n as [|n IH]; intros h; [reflexivity|].
  cbn [background_task]. unfold bind.
  destruct (loop_iteration_cases h) as [-> | [e ->]].
  - match goal with
    | |- context [background_task n ?h'] =>
        specialize (IH h'); destruct (background_task n h') as [r es]
    end.
    cbn [snd] in *. rewrite !sent_app, S, IH.
    destruct (fst (analyze_matches h)); reflexivity.
  - cbn [snd]. rewrite sent_app, S.
    destruct (fst (analyze_matches h)); reflexivity.
Qed.

(** ** One request for the live matches per turn *)

Lemma for_each_live_requests (ms : list pyval) :
  forall h, live_requests (snd (for_each ms analyze_match h)) = O.
Proof.
  assert (A : forall m h, live_requests (snd (analyze_match m h)) = O).
  { intros m h.
    destruct (analyze_match_events m h)
      as [->|(id & teams & x & es & _ & _ & -> & [->|[_ ->]])].
    - reflexivity.
    - apply fetch_match_statistics_events.
    - rewrite live_requests_app,
        (proj2 (fetch_match_statistics_events id h)).
      destruct (score_and_alert_events teams x
                  (h ++ snd (fetch_match_statistics id h)))
        as [->|(prob & text & _ & _ & ->)]; reflexivity. }
  induction ms as [|m ms IH]; intros h; cbn [for_each]; [reflexivity|].
  unfold bind. specialize (A m h).
  destruct (analyze_match m h) as [[[]|e] es1]; cbn [snd] in *; [|exact A].
  specialize (IH (h ++ es1)).
  destruct (for_each ms analyze_match (h ++ es1)) as [r es2].
  cbn [snd] in *. rewrite live_requests_app, A, IH. reflexivity.
Qed.

Lemma analyze_matches_live_requests (h : list event) :
  live_requests (snd (analyze_matches h)) = 1%nat.
Proof.
  pose proof (proj2 (proj2 (fetch_live_matches_events h))) as Q.
  destruct (analyze_matches_events h) as [->|[ms ->]]; [exact Q|].
  rewrite live_requests_app, Q, for_each_live_requests. reflexivity.
Qed.

(** X16. When [POLL_SECONDS] is an interval that the sleep accepts, the
    first [n] turns of the loop ask for the live matches exactly [n]
    times: once per turn, whether the turn's analysis ends normally or
    with an exception.  With any other interval the loop asks once and
    ends at its first sleep. *)
Theorem one_live_request_per_turn :
  (sleepable POLL_SECONDS ->
   forall n h, live_requests (snd (background_task n h)) = n) /\
  (~ sleepable POLL_SECONDS ->
   forall n h, live_requests (snd (background_task (S n) h)) = 1%nat).
Proof.
  split.
  - intros Hs n. induction n as [|n IH]; intros h; [reflexivity|].
    cbn [background_task]. unfold bind. rewrite (loop_iteration_run h Hs).
    match goal with
    | |- context [background_task n ?h'] =>
        specialize (IH h'); destruct (background_task n h') as [r es]
    end.
    cbn [snd] in *.
    rewrite !live_requests_app, analyze_matches_live_requests, IH.
    destruct (fst (analyze_matches h)); reflexivity.
  - intros N n h. rewrite (background_task_dies n h N). cbn [snd].
    rewrite live_requests_app, analyze_matches_live_requests.
    destruct (fst (analyze_matches h)); reflexivity.
Qed.

(** ** What the extraction stores *)

Lemma assign_stat_stored (label : string) (convert : pyval -> result pyval)
    (set_home set_away : pyval -> extracted -> extracted)
    (teams team_name s : pyval) (x x' : extracted) :
  assign_stat label convert set_home set_away teams team_name s x = Ok x' ->
  x' = x \/
  exists v c, convert (py_or v (PInt 0)) = Ok c /\
              (x' = set_home c x \/ x' = set_away c x).
Proof.
  unfold assign_stat.
  destruct (subscript s "type") as [ty|e]; cbn [rbind]; [|discriminate].
  destruct (py_eq ty (PStr label)); [|intros H; injection H as <-; auto].
  destruct (home_name teams) as [hn|e]; cbn [rbind]; [|discriminate].
  intros H. right.
  destruct (py_eq team_name hn);
    destruct (subscript s "value") as [v|e]; cbn [rbind] in H;
    try discriminate;
    destruct (convert (py_or v (PInt 0))) as [c|e] eqn:C; cbn [rbind] in H;
    try discriminate; injection H as <-; exists v, c; auto.
Qed.

Lemma py_or_stored (v : pyval) : stored_count (py_or v (PInt 0)).
Proof.
  unfold stored_count, py_or. destruct (truthy v) eqn:T; auto.
Qed.

Lemma extract_entry_stored (teams tn s : pyval) (x x' : extracted) :
  stored x -> extract_entry teams tn x s = Ok x' -> stored x'.
Proof.
  unfold extract_entry. intros S H.
  assign_step H x1. assign_step H x2.
  assert (S1 : stored x1).
  { destruct (assign_stat_stored _ _ _ _ _ _ _ _ _ E)
      as [->|(v & c & C & [->| ->])]; [exact S| |];
      unfold keep in C; injection C as <-;
      destruct S as (A & B & C & D & F & G); repeat split; cbn;
      try assumption; apply py_or_stored. }
  assert (S2 : stored x2).
  { destruct (assign_stat_stored _ _ _ _ _ _ _ _ _ E0)
      as [->|(v & c & C & [->| ->])]; [exact S1| |];
      unfold keep in C; injection C as <-;
      destruct S1 as (A & B & C & D & F & G); repeat split; cbn;
      try assumption; apply py_or_stored. }
  destruct (assign_stat_stored _ _ _ _ _ _ _ _ _ H)
    as [->|(v & c & C & [->| ->])]; [exact S2| |];
    unfold to_pyfloat in C;
    destruct (py_float (py_or v (PInt 0))) as [f|e]; cbn [rbind] in C;
    try discriminate; injection C as <-;
    destruct S2 as (A & B & C & D & F & G); repeat split; cbn;
    try assumption; right; exists f; reflexivity.
Qed.

Lemma extract_stats_invariant (P : extracted -> Prop) (teams : pyval) :
  (forall tn s x x', P x -> extract_entry teams tn x s = Ok x' -> P x') ->
  P extracted_init ->
  forall stats_response x,
    extract_stats teams stats_response = Ok x -> P x.
Proof.
  intros Step Init sr x. unfold extract_stats.
  destruct (py_iter sr) as [bs|e]; cbn [rbind]; [|discriminate].
  revert Init. generalize extracted_init as x0. revert x.
  induction bs as [|b bs IH]; intros x x0 P0 H; cbn [extract_blocks] in H.
  - injection H as <-. exact P0.
  - destruct (extract_block teams x0 b) as [x1|e] eqn:B; cbn [rbind] in H;
      [|discriminate].
    apply (IH x x1); [|exact H]. clear IH H.
    unfold extract_block in B.
    destruct (subscript b "team") as [team|e]; cbn [rbind] in B;
      [|discriminate].
    destruct (subscript team "name") as [tn|e]; cbn [rbind] in B;
      [|discriminate].
    destruct (subscript b "statistics") as [st|e]; cbn [rbind] in B;
      [|discriminate].
    destruct (py_iter st) as [es|e]; cbn [rbind] in B; [|discriminate].
    revert x0 P0 B. induction es as [|s es IHes]; intros x0 P0 B;
      cbn [extract_entries] in B.
    + injection B as <-. exact P0.
    + destruct (extract_entry teams tn x0 s) as [x2|e] eqn:X; cbn [rbind] in B;
        [|discriminate].
      apply (IHes x2); [|exact B]. apply (Step _ _ _ _ P0 X).
Qed.

(** X13. Whatever the statistics response holds, an extraction that ends
    normally leaves in each xG field the initial 0 or a float, and in each
    shots and attacks field the int 0 or a value that is true in a
    condition: [None], an empty string, an empty list and [False] never
    reach the score. *)
Theorem extraction_stores_numbers_or_truthy (teams stats_response : pyval)
    (x : extracted) :
  extract_stats teams stats_response = Ok x ->
  stored_xg (xg_home x) /\ stored_xg (xg_away x) /\
  stored_count (shots_home x) /\ stored_count (shots_away x) /\
  stored_count (attacks_home x) /\ stored_count (attacks_away x).
Proof.
  apply (extract_stats_invariant stored teams).
  - intros tn s x0 x'. apply extract_entry_stored.
  - unfold stored, stored_xg, stored_count. cbn. auto 7.
Qed.

(** ** Repeated entries *)

Lemma assign_stat_overwrites (label : string) (convert : pyval -> result pyval)
    (set_home set_away : pyval -> extracted -> extracted)
    (teams tn s1 s2 : pyval) (x x1 : extracted) :
  (forall c c' x, set_home c (set_home c' x) = set_home c x) ->
  (forall c c' x, set_away c (set_away c' x) = set_away c x) ->
  entry_has_type label s1 = true ->
  entry_has_type label s2 = true ->
  assign_stat label convert set_home set_away teams tn s1 x = Ok x1 ->
  assign_stat label convert set_home set_away teams tn s2 x1 =
  assign_stat label convert set_home set_away teams tn s2 x.
Proof.
  intros Lh La. unfold entry_has_type, assign_stat.
  destruct (subscript s1 "type") as [ty1|e]; cbn [rbind]; [|discriminate].
  intros ->.
  destruct (subscript s2 "type") as [ty2|e]; cbn [rbind]; [|discriminate].
  intros ->.
  destruct (home_name teams) as [hn|e]; cbn [rbind]; [|discriminate].
  destruct (py_eq tn hn);
    destruct (subscript s1 "value") as [v1|e]; cbn [rbind]; try discriminate;
    destruct (convert (py_or v1 (PInt 0))) as [c1|e]; cbn [rbind];
    try discriminate; intros H; injection H as <-;
    destruct (subscript s2 "value") as [v2|e]; cbn [rbind]; try reflexivity;
    destruct (convert (py_or v2 (PInt 0))) as [c2|e]; cbn [rbind];
    try reflexivity; rewrite ?Lh, ?La; reflexivity.
Qed.

Lemma extract_entry_only_shots (teams tn s : pyval) (x : extracted) :
  subscript s "type" = Ok (PStr "Shots on Goal") ->
  extract_entry teams tn x s =
  assign_stat "Shots on Goal" keep set_shots_home set_shots_away teams tn s x.
Proof.
  intros Ht. unfold extract_entry.
  destruct (assign_stat "Shots on Goal" _ _ _ _ _ _ _) as [x'|e];
    cbn [rbind]; [|reflexivity].
  rewrite (assign_stat_miss _ _ _ _ _ _ _ _ _ Ht); [|reflexivity].
  cbn [rbind]. apply (assign_stat_miss _ _ _ _ _ _ _ _ _ Ht). reflexivity.
Qed.

Lemma extract_entry_only_attacks (teams tn s : pyval) (x : extracted) :
  subscript s "type" = Ok (PStr "Attacks") ->
  extract_entry teams tn x s =
  assign_stat "Attacks" keep set_attacks_home set_attacks_away teams tn s x.
Proof.
  intros Ht. unfold extract_entry.
  rewrite (assign_stat_miss _ _ _ _ _ _ _ _ _ Ht); [|reflexivity].
  cbn [rbind].
  destruct (assign_stat "Attacks" _ _ _ _ _ _ _) as [x'|e];
    cbn [rbind]; [|reflexivity].
  apply (assign_stat_miss _ _ _ _ _ _ _ _ _ Ht). reflexivity.
Qed.

Lemma extract_entry_only_xg (teams tn s : pyval) (x : extracted) :
  subscript s "type" = Ok (PStr "xG") ->
  extract_entry teams tn x s =
  assign_stat "xG" to_pyfloat set_xg_home set_xg_away teams tn s x.
Proof.
  intros Ht. unfold extract_entry.
  rewrite (assign_stat_miss _ _ _ _ _ _ _ _ _ Ht); [|reflexivity].
  cbn [rbind].
  rewrite (assign_stat_miss _ _ _ _ _ _ _ _ _ Ht); [|reflexivity].
  reflexivity.
Qed.

(** X14. Of two entries of the same recognised type in one team's block the
    later one decides: when the earlier one is read without an error, the
    two together leave what the later one alone leaves, or fail as it
    does. *)
Theorem later_entry_overwrites (label : string) (teams tn s1 s2 : pyval)
    (x x1 : extracted) :
  In label ["Shots on Goal"; "Attacks"; "xG"] ->
  subscript s1 "type" = Ok (PStr label) ->
  subscript s2 "type" = Ok (PStr label) ->
  extract_entry teams tn x s1 = Ok x1 ->
  extract_entries teams tn x [s1; s2] = extract_entries teams tn x [s2].
Proof.
  intros L H1 H2 E. cbn [extract_entries]. rewrite E. cbn [rbind].
  assert (T1 : entry_has_type label s1 = true)
    by (unfold entry_has_type; rewrite H1; cbn [py_eq]; apply String.eqb_refl).
  assert (T2 : entry_has_type label s2 = true)
    by (unfold entry_has_type; rewrite H2; cbn [py_eq]; apply String.eqb_refl).
  f_equal. revert E.
  destruct L as [<-|[<-|[<-|[]]]].
  - rewrite !extract_entry_only_shots by assumption.
    apply assign_stat_overwrites; trivial.
  - rewrite !extract_entry_only_attacks by assumption.
    apply assign_stat_overwrites; trivial.
  - rewrite !extract_entry_only_xg by assumption.
    apply assign_stat_overwrites; trivial.
Qed.

(** ** The terms of the score *)

Lemma compute_pairs (stats : dict) :
  compute_goal_probability stats =
  (t1 <- pair_term (dict_get stats "xG_home" (PInt 0))
                   (dict_get stats "xG_away" (PInt 0)) 0.5 ;;
   t2 <- pair_term (dict_get stats "shots_on_home" (PInt 0))
                   (dict_get stats "shots_on_away" (PInt 0)) 0.05 ;;
   t3 <- pair_term (dict_get stats "attacks_home" (PInt 0))
                   (dict_get stats "attacks_away" (PInt 0)) 0.01 ;;
   Ok (py_min ((t1 + t2 + t3) / 2) 1.0))%res.
Proof.
  unfold compute_goal_probability, pair_term.
  destruct (py_add (dict_get stats "xG_home" (PInt 0))
                   (dict_get stats "xG_away" (PInt 0))) as [a|e];
    cbn [rbind]; [|reflexivity].
  destruct (py_mul_float a 0.5) as [a'|e]; cbn [rbind]; [|reflexivity].
  destruct (py_add (dict_get stats "shots_on_home" (PInt 0))
                   (dict_get stats "shots_on_away" (PInt 0))) as [b|e];
    cbn [rbind]; [|reflexivity].
  destruct (py_mul_float b 0.05) as [b'|e]; cbn [rbind]; [|reflexivity].
  destruct (py_add (dict_get stats "attacks_home" (PInt 0))
                   (dict_get stats "attacks_away" (PInt 0))) as [c|e];
    cbn [rbind]; [|reflexivity].
  destruct (py_mul_float c 0.01) as [c'|e]; cbn [rbind]; reflexivity.
Qed.

Lemma compute_pairs_of (r : field -> pyval) :
  compute_goal_probability (stats_of r) =
  (t1 <- pair_term (r XgHome) (r XgAway) 0.5 ;;
   t2 <- pair_term (r ShotsHome) (r ShotsAway) 0.05 ;;
   t3 <- pair_term (r AttacksHome) (r AttacksAway) 0.01 ;;
   Ok (py_min ((t1 + t2 + t3) / 2) 1.0))%res.
Proof. rewrite compute_pairs. reflexivity. Qed.

Lemma pair_term_num (a b : pyval) (c : float) (x y : num) :
  as_num a = Some x -> as_num b = Some y ->
  pair_term a b c = (u <- num_sum x y ;; Ok (u * c)%float)%res.
Proof.
  intros Ea Eb. unfold pair_term, py_add, py_mul_float, num_sum.
  rewrite Ea, Eb.
  destruct x as [za|fa], y as [zb|fb]; cbn [rbind as_num to_float].
  - reflexivity.
  - destruct (float_of_Z za); reflexivity.
  - destruct (float_of_Z zb); reflexivity.
  - reflexivity.
Qed.

Lemma pair_term_not_num (a b : pyval) (c : float) :
  as_num a = None \/ as_num b = None -> pair_term a b c = Raise TypeError.
Proof.
  unfold pair_term, py_add, py_mul_float.
  intros [E|E].
  - rewrite E. destruct a; try discriminate; destruct b; reflexivity.
  - rewrite E. destruct (as_num a) as [[]|] eqn:Ea;
      destruct b; try discriminate; try reflexivity;
      destruct a; try discriminate; reflexivity.
Qed.

Lemma float_of_Z_raises (z : Z) (e : exn) :
  float_of_Z z = Raise e -> e = OverflowError.
Proof.
  unfold float_of_Z.
  destruct (binary_normalize prec emax z 0 false); congruence.
Qed.

Lemma num_sum_raises (x y : num) (e : exn) :
  num_sum x y = Raise e -> e = OverflowError.
Proof.
  destruct x as [a|f], y as [b|g]; unfold num_sum; cbn [to_float rbind].
  - apply float_of_Z_raises.
  - destruct (float_of_Z a) eqn:E; cbn [rbind]; [discriminate|].
    intros H. injection H as <-. apply (float_of_Z_raises _ _ E).
  - destruct (float_of_Z b) eqn:E; cbn [rbind]; [discriminate|].
    intros H. injection H as <-. apply (float_of_Z_raises _ _ E).
  - discriminate.
Qed.

Lemma pair_term_raises (a b : pyval) (c : float) (e : exn) :
  pair_term a b c = Raise e -> e = TypeError \/ e = OverflowError.
Proof.
  destruct (as_num a) as [x|] eqn:Ea.
  - destruct (as_num b) as [y|] eqn:Eb.
    + rewrite (pair_term_num a b c x y Ea Eb).
      destruct (num_sum x y) eqn:E; cbn [rbind]; [discriminate|].
      intros H. injection H as <-. right. apply (num_sum_raises _ _ _ E).
    + rewrite pair_term_not_num by (right; exact Eb).
      intros H. injection H as <-. left. reflexivity.
  - rewrite pair_term_not_num by (left; exact Ea).
    intros H. injection H as <-. left. reflexivity.
Qed.

Lemma compute_result_is_min (stats : dict) (p : float) :
  compute_goal_probability stats = Ok p -> exists s, p = py_min (s / 2) 1.
Proof.
  rewrite compute_pairs.
  destruct (pair_term _ _ 0.5) as [t1|]; [|discriminate].
  destruct (pair_term _ _ 0.05) as [t2|]; [|discriminate].
  destruct (pair_term _ _ 0.01) as [t3|]; [|discriminate].
  cbn [rbind]. intros H. injection H as <-. eexists. reflexivity.
Qed.

Lemma py_min_one_capped (s : float) : (1 <? py_min s 1)%float = false.
Proof.
  unfold py_min. destruct (1 <? s)%float eqn:E; [reflexivity|exact E].
Qed.

(** X5. Whatever the stats dict holds, a probability that
    [compute_goal_probability] returns is never greater than 1: the
    comparison [1.0 < p] is false for it, also when the score is a NaN. *)
Theorem probability_capped (stats : dict) (p : float) :
  compute_goal_probability stats = Ok p -> (1 <? p)%float = false.
Proof.
  intros H. destruct (compute_result_is_min stats p H) as [s ->].
  apply py_min_one_capped.
Qed.

Lemma compute_non_numeric (r : field -> pyval) (i : field) :
  as_num (r i) = None ->
  exists e, compute_goal_probability (stats_of r) = Raise e /\
            (e = TypeError \/ e = OverflowError).
Proof.
  intros N. rewrite compute_pairs_of.
  assert (A : forall (a b : pyval) (c : float) (k : float -> result float),
             (forall t, exists e, k t = Raise e /\
                                  (e = TypeError \/ e = OverflowError)) ->
             exists e, rbind (pair_term a b c) k = Raise e /\
                       (e = TypeError \/ e = OverflowError)).
  { intros a b c k Hk. destruct (pair_term a b c) as [t|e] eqn:E; cbn [rbind].
    - apply Hk.
    - exists e. split; [reflexivity|]. apply (pair_term_raises _ _ _ _ E). }
  assert (B : forall (a b : pyval) (c : float) (k : float -> result float),
             as_num a = None \/ as_num b = None ->
             exists e, rbind (pair_term a b c) k = Raise e /\
                       (e = TypeError \/ e = OverflowError)).
  { intros a b c k H. rewrite (pair_term_not_num a b c H). cbn [rbind].
    exists TypeError. auto. }
  destruct i.
  - apply B. auto.
  - apply B. auto.
  - apply A. intros t1. apply B. auto.
  - apply A. intros t1. apply B. auto.
  - apply A. intros t1. apply A. intros t2. apply B. auto.
  - apply A. intros t1. apply A. intros t2. apply B. auto.
Qed.

(** X6. A stats dict that holds under one of the six keys a value that is
    not a number (a str, a list, a dict, [None]) makes
    [compute_goal_probability] raise: [TypeError], unless a pair of fields
    before it has already raised [OverflowError]. *)
Theorem non_numeric_field_raises (stats : dict) (i : field) :
  as_num (dict_get stats (field_key i) (PInt 0)) = None ->
  exists e, compute_goal_probability stats = Raise e /\
            (e = TypeError \/ e = OverflowError).
Proof.
  intros N.
  assert (E : compute_goal_probability stats =
              compute_goal_probability
                (stats_of (fun j => dict_get stats (field_key j) (PInt 0))))
    by (rewrite compute_pairs, compute_pairs_of; reflexivity).
  rewrite E.
  apply (compute_non_numeric
           (fun j => dict_get stats (field_key j) (PInt 0)) i N).
Qed.

(** X15. When the extraction has stored a value that is not a number (the API
    gave a non-empty str or a list as a shots or attacks value), the
    scoring of the match raises after the statistics request: nothing is
    sent for the match and the pass stops there. *)
Theorem non_numeric_stat_aborts_match
    (m fixture fixture_id teams stats_response : pyval) (x : extracted)
    (i : field) (h es : list event) :
  subscript m "fixture" = Ok fixture ->
  subscript fixture "id" = Ok fixture_id ->
  subscript m "teams" = Ok teams ->
  fetch_match_statistics fixture_id h = (Ok stats_response, es) ->
  extract_stats teams stats_response = Ok x ->
  as_num (fields_of x i) = None ->
  exists e, analyze_match m h = (Raise e, es) /\
            (e = TypeError \/ e = OverflowError) /\
            sent es = [].
Proof.
  intros Hf Hi Ht Hs Hx N.
  destruct (compute_non_numeric (fields_of x) i N) as (e & E & K).
  exists e. split; [|split; [exact K|]].
  - rewrite (analyze_match_run _ _ _ _ _ _ _ _ Hf Hi Ht Hs Hx).
    unfold score_and_alert. rewrite bind_lift.
    change (real_stats x) with (stats_of (fields_of x)). rewrite E.
    cbn [fst snd]. rewrite app_nil_r. reflexivity.
  - pose proof (fetch_match_statistics_sent fixture_id h) as Q.
    rewrite Hs in Q. exact Q.
Qed.

(** ** Values that count as absent *)

(** X17. A recognised entry whose value is false in a condition (0, 0.0,
    [False], an empty str or list, as well as [None]) stores the int 0 in
    a shots or attacks field and the float 0.0 in an xG field: [or 0]
    replaces the value before the assignment. *)
Theorem falsy_value_is_stored_as_zero (teams tn s hn v : pyval)
    (x : extracted) :
  home_name teams = Ok hn ->
  subscript s "value" = Ok v ->
  truthy v = false ->
  (subscript s "type" = Ok (PStr "Shots on Goal") ->
   extract_entry teams tn x s =
   Ok ((if py_eq tn hn then set_shots_home else set_shots_away) (PInt 0) x)) /\
  (subscript s "type" = Ok (PStr "Attacks") ->
   extract_entry teams tn x s =
   Ok ((if py_eq tn hn then set_attacks_home else set_attacks_away)
         (PInt 0) x)) /\
  (subscript s "type" = Ok (PStr "xG") ->
   extract_entry teams tn x s =
   Ok ((if py_eq tn hn then set_xg_home else set_xg_away) (PFloat 0) x)).
Proof.
  intros Hh Hv F.
  assert (O : py_or v (PInt 0) = PInt 0)
    by (unfold py_or; rewrite F; reflexivity).
  split; [|split]; intros Ht.
  - rewrite (extract_entry_shots _ _ _ _ _ _ Ht Hh Hv), O. reflexivity.
  - rewrite (extract_entry_attacks _ _ _ _ _ _ Ht Hh Hv), O. reflexivity.
  - rewrite (extract_entry_xg _ _ _ _ _ _ Ht Hh Hv), O. reflexivity.
Qed.

(** ** An exception in the middle of a pass *)

(** X18. Whatever exception the analysis of one live match raises (a transport
    error of the statistics request, an error of the extraction or of the
    score, a refusal of the notifier), the pass stops at that match: the
    events of the matches before it stay, no statistics are requested for
    the matches after it, and the [try] statement of the turn of the loop
    catches and prints the exception; the turn then sleeps, when
    [POLL_SECONDS] is an interval that the sleep accepts. *)
Theorem exception_in_a_match_stops_the_pass (live bad : pyval)
    (pre post : list pyval) (e : exn) (h es_live es_pre es_bad : list event) :
  fetch_live_matches h = (Ok live, es_live) ->
  py_iter live = Ok (pre ++ bad :: post) ->
  for_each pre analyze_match (h ++ es_live) = (Ok tt, es_pre) ->
  analyze_match bad ((h ++ es_live) ++ es_pre) = (Raise e, es_bad) ->
  analyze_matches h = (Raise e, es_live ++ es_pre ++ es_bad) /\
  (exists n,
     map Ok (stats_requested (snd (analyze_matches h))) =
     firstn n (map fixture_id_of (pre ++ [bad]))) /\
  try_except analyze_matches (fun e => emit (EvPrintLoop e)) h =
    (Ok tt, (es_live ++ es_pre ++ es_bad) ++ [EvPrintLoop e]) /\
  (sleepable POLL_SECONDS ->
   loop_iteration h =
     (Ok tt,
      (es_live ++ es_pre ++ es_bad)
      ++ [EvPrintLoop e; EvSleep POLL_SECONDS])).
Proof.
  intros Hl Hit Hpre Hbad.
  assert (A : analyze_matches h = (Raise e, es_live ++ es_pre ++ es_bad)).
  { rewrite (analyze_matches_run _ _ _ _ Hl Hit).
    rewrite (for_each_stops _ _ _ _ _ _ _ _ Hpre Hbad). reflexivity. }
  split; [exact A|]. split.
  - rewrite A. cbn [snd].
    pose proof (proj1 (proj2 (fetch_live_matches_events h))) as Q.
    rewrite Hl in Q. cbn [snd] in Q.
    rewrite !stats_requested_app, Q. cbn [app].
    rewrite map_app, map_app, <- (for_each_ok_requests _ _ _ Hpre).
    destruct (analyze_match_events bad ((h ++ es_live) ++ es_pre))
      as [E|(id & teams & x & es & Hid & _ & -> & E)].
    + rewrite Hbad in E. cbn [snd] in E. subst es_bad.
      exists (List.length (map fixture_id_of pre)).
      cbn [stats_requested map]. rewrite app_nil_r.
      rewrite firstn_app, firstn_all, Nat.sub_diag. cbn [firstn].
      rewrite app_nil_r. reflexivity.
    + exists (S (List.length (map fixture_id_of pre))).
      assert (R : stats_requested es_bad = [id]).
      { rewrite Hbad in E. cbn [fst snd] in E.
        destruct E as [->|[_ ->]].
        - apply fetch_match_statistics_events.
        - rewrite stats_requested_app,
            (proj1 (fetch_match_statistics_events _ _)).
          destruct (score_and_alert_events teams x
                      (((h ++ es_live) ++ es_pre)
                       ++ snd (fetch_match_statistics id
                                 ((h ++ es_live) ++ es_pre))))
            as [->|(prob & text & _ & _ & ->)]; reflexivity. }
      rewrite R. cbn [map]. rewrite Hid.
      rewrite firstn_app, firstn_all2 by lia.
      replace (S (List.length (map fixture_id_of pre))
               - List.length (map fixture_id_of pre))%nat with 1%nat by lia.
      reflexivity.
  - split.
    + rewrite try_analyze_run, A. reflexivity.
    + intros S. rewrite (loop_iteration_run h S), A. cbn [fst snd].
      rewrite <- !app_assoc. reflexivity.
Qed.

(** ** Statistics in range *)

Lemma pow2_pos_1022 : 0 < 2 ^ 1022.
Proof. apply Z.pow_pos_nonneg; [reflexivity|discriminate]. Qed.

Lemma assign_stat_effect (label : string) (convert : pyval -> result pyval)
    (set_home set_away : pyval -> extracted -> extracted)
    (teams team_name s : pyval) (x x' : extracted) :
  assign_stat label convert set_home set_away teams team_name s x = Ok x' ->
  x' = x \/
  (entry_has_type label s = true /\
   exists v c, subscript s "value" = Ok v /\
               convert (py_or v (PInt 0)) = Ok c /\
               (x' = set_home c x \/ x' = set_away c x)).
Proof.
  unfold assign_stat, entry_has_type.
  destruct (subscript s "type") as [ty|e]; cbn [rbind]; [|discriminate].
  destruct (py_eq ty (PStr label)); [|intros H; injection H as <-; auto].
  destruct (home_name teams) as [hn|e]; cbn [rbind]; [|discriminate].
  intros H. right. split; [reflexivity|].
  destruct (py_eq team_name hn);
    destruct (subscript s "value") as [v|e]; cbn [rbind] in H;
    try discriminate;
    destruct (convert (py_or v (PInt 0))) as [c|e] eqn:C; cbn [rbind] in H;
    try discriminate; injection H as <-; exists v, c; auto.
Qed.

Lemma extract_entry_in_range (teams tn s : pyval) (x x' : extracted) :
  entry_in_range s ->
  (forall j, small_nonneg (fields_of x j)) ->
  extract_entry teams tn x s = Ok x' ->
  forall j, small_nonneg (fields_of x' j).
Proof.
  unfold extract_entry. intros R P H.
  assign_step H x1. assign_step H x2.
  assert (P1 : forall j, small_nonneg (fields_of x1 j)).
  { destruct (assign_stat_effect _ _ _ _ _ _ _ _ _ E)
      as [->|(T & v & c & Hv & C & [->| ->])]; [exact P| |];
      unfold keep in C; injection C as <-;
      pose proof (proj1 (R v Hv) (or_introl T)) as G;
      intros []; try apply G; apply (P XgHome) || apply (P XgAway)
      || apply (P ShotsHome) || apply (P ShotsAway)
      || apply (P AttacksHome) || apply (P AttacksAway). }
  assert (P2 : forall j, small_nonneg (fields_of x2 j)).
  { destruct (assign_stat_effect _ _ _ _ _ _ _ _ _ E0)
      as [->|(T & v & c & Hv & C & [->| ->])]; [exact P1| |];
      unfold keep in C; injection C as <-;
      pose proof (proj1 (R v Hv) (or_intror T)) as G;
      intros []; try apply G; apply (P1 XgHome) || apply (P1 XgAway)
      || apply (P1 ShotsHome) || apply (P1 ShotsAway)
      || apply (P1 AttacksHome) || apply (P1 AttacksAway). }
  destruct (assign_stat_effect _ _ _ _ _ _ _ _ _ H)
    as [->|(T & v & c & Hv & C & [->| ->])]; [exact P2| |];
    unfold to_pyfloat in C;
    destruct (py_float (py_or v (PInt 0))) as [f|e] eqn:F; cbn [rbind] in C;
    try discriminate; injection C as <-;
    pose proof (proj2 (R v Hv) T f F) as G;
    intros []; try exact G; apply (P2 XgHome) || apply (P2 XgAway)
    || apply (P2 ShotsHome) || apply (P2 ShotsAway)
    || apply (P2 AttacksHome) || apply (P2 AttacksAway).
Qed.

(** A property that every entry of the response keeps is kept by both
    loops. *)
Lemma extract_stats_invariant_on (P : extracted -> Prop)
    (teams stats_response : pyval) :
  (forall b s tn x x',
     In b (response_blocks stats_response) -> In s (block_entries b) ->
     P x -> extract_entry teams tn x s = Ok x' -> P x') ->
  P extracted_init ->
  forall x, extract_stats teams stats_response = Ok x -> P x.
Proof.
  intros Step Init x. unfold extract_stats. unfold response_blocks in Step.
  destruct (py_iter stats_response) as [bs|e]; cbn [rbind]; [|discriminate].
  revert Init. generalize extracted_init as x0. revert x.
  induction bs as [|b bs IH]; intros x x0 P0 H; cbn [extract_blocks] in H.
  - injection H as <-. exact P0.
  - destruct (extract_block teams x0 b) as [x1|e] eqn:B; cbn [rbind] in H;
      [|discriminate].
    apply (IH (fun b' s tn y y' I => Step b' s tn y y' (or_intror I)) x x1);
      [|exact H].
    assert (Sb : forall s tn y y', In s (block_entries b) -> P y ->
                   extract_entry teams tn y s = Ok y' -> P y')
      by (intros s tn y y' I; apply (Step b); [left; reflexivity|exact I]).
    clear IH H Step. unfold extract_block in B. unfold block_entries in Sb.
    destruct (subscript b "team") as [team|e]; cbn [rbind] in B;
      [|discriminate].
    destruct (subscript team "name") as [tn|e]; cbn [rbind] in B;
      [|discriminate].
    destruct (subscript b "statistics") as [st|e]; cbn [rbind] in B, Sb;
      [|discriminate].
    destruct (py_iter st) as [es|e]; cbn [rbind] in B; [|discriminate].
    revert x0 P0 B. induction es as [|s es IHes]; intros x0 P0 B;
      cbn [extract_entries] in B.
    + injection B as <-. exact P0.
    + destruct (extract_entry teams tn x0 s) as [x2|e] eqn:X; cbn [rbind] in B;
        [|discriminate].
      apply (IHes (fun s' tn' y y' I => Sb s' tn' y y' (or_intror I)) x2);
        [|exact B].
      apply (Sb s tn x0 x2 (or_introl eq_refl) P0 X).
Qed.

Lemma extract_stats_in_range (teams stats_response : pyval) (x : extracted) :
  (forall b s, In b (response_blocks stats_response) ->
               In s (block_entries b) -> entry_in_range s) ->
  extract_stats teams stats_response = Ok x ->
  forall j, small_nonneg (fields_of x j).
Proof.
  intros R.
  apply (extract_stats_invariant_on
           (fun x => forall j, small_nonneg (fields_of x j))).
  - intros b s tn y y' Ib Is Py X.
    apply (extract_entry_in_range teams tn s y y' (R b s Ib Is) Py X).
  - intros []; exact (conj (Z.le_refl 0) pow2_pos_1022).
Qed.

End Bot.

(** * Float arithmetic *)

Lemma dhe_bounds (n d : Z) : 0 < d ->
  n / d <= div_half_even n d <= n / d + 1.
Proof.
  intros Hd. unfold div_half_even.
  destruct (2 * (n mod d) ?= d); try destruct (Z.even (n / d)); lia.
Qed.

Lemma dhe_mono (x y d : Z) : 0 < d -> x <= y ->
  div_half_even x d <= div_half_even y d.
Proof.
  intros Hd Hxy.
  pose proof (Z.div_le_mono x y d Hd Hxy) as Hq.
  destruct (Z.eq_dec (x / d) (y / d)) as [E|N].
  - unfold div_half_even. rewrite <- E.
    pose proof (Z.div_mod x d) as Dx. pose proof (Z.div_mod y d) as Dy.
    assert (x mod d <= y mod d) by nia.
    destruct (2 * (x mod d) ?= d) eqn:Cx; destruct (2 * (y mod d) ?= d) eqn:Cy;
      try destruct (Z.even (x / d)); try lia;
      rewrite ?Z.compare_eq_iff, ?Z.compare_lt_iff, ?Z.compare_gt_iff in *; lia.
  - pose proof (dhe_bounds x d Hd). pose proof (dhe_bounds y d Hd). lia.
Qed.

Lemma dhe_exact (m d : Z) : 0 < d -> div_half_even (m * d) d = m.
Proof.
  intros Hd. unfold div_half_even.
  rewrite Z.mod_mul, Z.div_mul by lia.
  replace (2 * 0) with 0 by lia.
  destruct (0 ?= d) eqn:C; rewrite ?Z.compare_eq_iff, ?Z.compare_gt_iff in C; lia.
Qed.

Lemma dhe_scale (x d k : Z) : 0 < d -> 0 < k ->
  div_half_even (x * k) (d * k) = div_half_even x d.
Proof.
  intros Hd Hk. unfold div_half_even.
  rewrite Z.div_mul_cancel_r by lia.
  rewrite Zmult_mod_distr_r.
  replace (2 * (x mod d * k)) with ((2 * (x mod d)) * k) by lia.
  rewrite (Z.mul_comm d k), (Z.mul_comm _ k).
  rewrite <- Zmult_compare_compat_l by lia. reflexivity.
Qed.

Lemma dhe_one (x : Z) : div_half_even x 1 = x.
Proof. rewrite <- (Z.mul_1_r x) at 1. apply dhe_exact. lia. Qed.

Lemma bpow_pos (e : Z) : (0 < bpow e)%R.
Proof. apply powerRZ_lt. lra. Qed.

Lemma bpow_add (a b : Z) : bpow (a + b) = (bpow a * bpow b)%R.
Proof. apply powerRZ_add. lra. Qed.

Lemma bpow_IZR (k : Z) : 0 <= k -> bpow k = IZR (2 ^ k).
Proof.
  intros H. pattern k. apply natlike_ind; [reflexivity| |exact H].
  intros x Hx IH. unfold Z.succ. rewrite bpow_add, IH, Z.pow_add_r by lia.
  rewrite mult_IZR. f_equal. unfold bpow. simpl. lra.
Qed.

Lemma bpow_le (a b : Z) : a <= b -> (bpow a <= bpow b)%R.
Proof.
  intros H. replace b with (a + (b - a)) by lia. rewrite bpow_add.
  rewrite (bpow_IZR (b - a)) by lia.
  assert (1 <= 2 ^ (b - a)) by (apply Z.lt_pred_le, Z.pow_pos_nonneg; lia).
  apply IZR_le in H0. pose proof (bpow_pos a). nra.
Qed.

Lemma bpow_lt (a b : Z) : a < b -> (bpow a < bpow b)%R.
Proof.
  intros H. replace b with (a + (b - a)) by lia. rewrite bpow_add.
  rewrite (bpow_IZR (b - a)) by lia.
  assert (2 <= 2 ^ (b - a)).
  { replace (b - a) with (Z.succ (b - a - 1)) by lia.
    rewrite Z.pow_succ_r by lia.
    assert (0 < 2 ^ (b - a - 1)) by (apply Z.pow_pos_nonneg; lia). lia. }
  apply IZR_le in H0. pose proof (bpow_pos a). nra.
Qed.

Lemma bpow_lt_inv (a b : Z) : (bpow a < bpow b)%R -> a < b.
Proof.
  intros H. destruct (Z_lt_le_dec a b) as [L|G]; [exact L|].
  apply bpow_le in G. lra.
Qed.

Lemma bpow_1 : bpow 1 = 2%R.
Proof. unfold bpow. simpl. lra. Qed.

Lemma bpow_0 : bpow 0 = 1%R.
Proof. reflexivity. Qed.

#[global] Opaque bpow.

Lemma F2R_shift (n e k : Z) : 0 <= k -> F2R (n * 2 ^ k) e = F2R n (e + k).
Proof.
  intros H. unfold F2R. rewrite mult_IZR, bpow_add, <- bpow_IZR by lia.
  rewrite (Rmult_comm (bpow e)). ring.
Qed.

Lemma F2R_le (n m e : Z) : n <= m -> (F2R n e <= F2R m e)%R.
Proof.
  intros H. unfold F2R. apply IZR_le in H. pose proof (bpow_pos e). nra.
Qed.

Lemma F2R_le_inv (n m e : Z) : (F2R n e <= F2R m e)%R -> n <= m.
Proof.
  intros H. unfold F2R in H. pose proof (bpow_pos e).
  apply le_IZR. nra.
Qed.

Lemma F2R_lt_inv (n m e : Z) : (F2R n e < F2R m e)%R -> n < m.
Proof.
  intros H. unfold F2R in H. pose proof (bpow_pos e).
  apply lt_IZR. nra.
Qed.

(** digits *)
Lemma digits2_pos_bounds (m : positive) :
  2 ^ (Zpos (digits2_pos m) - 1) <= Zpos m < 2 ^ Zpos (digits2_pos m).
Proof.
  induction m as [m IH|m IH|]; simpl digits2_pos.
  - rewrite Pos2Z.inj_succ.
    replace (Z.succ (Z.pos (digits2_pos m)) - 1)
      with (Z.succ (Z.pos (digits2_pos m) - 1)) by lia.
    rewrite !Z.pow_succ_r by lia. lia.
  - rewrite Pos2Z.inj_succ.
    replace (Z.succ (Z.pos (digits2_pos m)) - 1)
      with (Z.succ (Z.pos (digits2_pos m) - 1)) by lia.
    rewrite !Z.pow_succ_r by lia. lia.
  - simpl. lia.
Qed.

Lemma Zdigits2_bounds (n : Z) : 0 < n ->
  2 ^ (Zdigits2 n - 1) <= n < 2 ^ Zdigits2 n.
Proof.
  destruct n as [|p|p]; try lia. intros _. apply digits2_pos_bounds.
Qed.

Lemma Zdigits2_pos (n : Z) : 0 < n -> 0 < Zdigits2 n.
Proof. destruct n; simpl; lia. Qed.

Lemma Zdigits2_nonneg (n : Z) : 0 <= Zdigits2 n.
Proof. destruct n; simpl; lia. Qed.

Lemma Zdigits2_unique (n d : Z) :
  2 ^ (d - 1) <= n < 2 ^ d -> 0 < n -> Zdigits2 n = d.
Proof.
  intros [L U] Hn. pose proof (Zdigits2_bounds n Hn) as [L' U'].
  pose proof (Zdigits2_pos n Hn).
  assert (0 < d).
  { destruct (Z_lt_le_dec 0 d); [assumption|].
    destruct (Z.eq_dec d 0) as [->|]; [simpl in U; lia|].
    rewrite Z.pow_neg_r in U by lia. lia. }
  destruct (Z_lt_le_dec (Zdigits2 n) d).
  - assert (2 ^ Zdigits2 n <= 2 ^ (d - 1)) by (apply Z.pow_le_mono_r; lia). lia.
  - destruct (Z_lt_le_dec d (Zdigits2 n)); [|lia].
    assert (2 ^ d <= 2 ^ (Zdigits2 n - 1)) by (apply Z.pow_le_mono_r; lia). lia.
Qed.

Lemma Zdigits2_shift (n k : Z) : 0 < n -> 0 <= k ->
  Zdigits2 (n * 2 ^ k) = Zdigits2 n + k.
Proof.
  intros Hn Hk. pose proof (Zdigits2_bounds n Hn) as [L U].
  pose proof (Zdigits2_pos n Hn).
  assert (0 < 2 ^ k) by (apply Z.pow_pos_nonneg; lia).
  apply Zdigits2_unique; [|nia].
  replace (Zdigits2 n + k - 1) with ((Zdigits2 n - 1) + k) by lia.
  rewrite !Z.pow_add_r by lia. nia.
Qed.

Lemma Zdigits2_div (n k : Z) : 0 < n -> 0 <= k -> k <= Zdigits2 n ->
  Zdigits2 (n / 2 ^ k) = Zdigits2 n - k.
Proof.
  intros Hn Hk Hd. pose proof (Zdigits2_bounds n Hn) as [L U].
  assert (P : 0 < 2 ^ k) by (apply Z.pow_pos_nonneg; lia).
  destruct (Z.eq_dec k (Zdigits2 n)) as [E|N].
  - rewrite E, Z.div_small by lia. simpl. lia.
  - assert (Hq : 2 ^ (Zdigits2 n - k - 1) <= n / 2 ^ k < 2 ^ (Zdigits2 n - k)).
    { split.
      - apply Z.div_le_lower_bound; [lia|].
        rewrite <- Z.pow_add_r by lia.
        replace (k + (Zdigits2 n - k - 1)) with (Zdigits2 n - 1) by lia. lia.
      - apply Z.div_lt_upper_bound; [lia|].
        rewrite <- Z.pow_add_r by lia.
        replace (k + (Zdigits2 n - k)) with (Zdigits2 n) by lia. lia. }
    apply Zdigits2_unique; [exact Hq|].
    assert (0 < 2 ^ (Zdigits2 n - k - 1)) by (apply Z.pow_pos_nonneg; lia). lia.
Qed.

(** magnitude bounds in R *)
Lemma F2R_mag (n e : Z) : 0 < n ->
  (bpow (Zdigits2 n + e - 1) <= F2R n e < bpow (Zdigits2 n + e))%R.
Proof.
  intros Hn. pose proof (Zdigits2_bounds n Hn) as [L U].
  pose proof (Zdigits2_pos n Hn). unfold F2R.
  replace (Zdigits2 n + e - 1) with ((Zdigits2 n - 1) + e) by lia.
  rewrite !bpow_add.
  rewrite (bpow_IZR (Zdigits2 n)), (bpow_IZR (Zdigits2 n - 1)) by lia.
  apply IZR_le in L. apply IZR_lt in U. pose proof (bpow_pos e).
  split; [apply Rmult_le_compat_r; lra | apply Rmult_lt_compat_r; lra].
Qed.

Lemma fexp64_eq (e : Z) : fexp prec emax e = fexp64 e.
Proof. reflexivity. Qed.

Lemma pow2_pos (k : Z) : 0 <= k -> 0 < 2 ^ k.
Proof. intros. apply Z.pow_pos_nonneg; lia. Qed.

Lemma rne_at_scale (E N c c0 : Z) : c0 <= c -> c0 <= E ->
  rne_at E N c = div_half_even (N * 2 ^ (c - c0)) (2 ^ (E - c0)).
Proof.
  intros H1 H2. unfold rne_at.
  replace (c - c0) with ((c - Z.min c E) + (Z.min c E - c0)) by lia.
  replace (E - c0) with ((E - Z.min c E) + (Z.min c E - c0)) by lia.
  rewrite !Z.pow_add_r by lia. rewrite Z.mul_assoc.
  rewrite dhe_scale; [reflexivity| |]; apply pow2_pos; lia.
Qed.

Lemma rne_at_mono (E N1 c1 N2 c2 : Z) :
  (F2R N1 c1 <= F2R N2 c2)%R -> rne_at E N1 c1 <= rne_at E N2 c2.
Proof.
  intros H. set (c0 := Z.min (Z.min c1 c2) E).
  rewrite (rne_at_scale E N1 c1 c0), (rne_at_scale E N2 c2 c0) by lia.
  apply dhe_mono; [apply pow2_pos; lia|].
  apply (F2R_le_inv _ _ c0).
  rewrite !F2R_shift by lia.
  replace (c0 + (c1 - c0)) with c1 by lia.
  replace (c0 + (c2 - c0)) with c2 by lia. exact H.
Qed.

Lemma rne_at_exact (E N c : Z) : E <= c -> rne_at E N c = N * 2 ^ (c - E).
Proof.
  intros H. unfold rne_at. rewrite Z.min_r by lia.
  rewrite Z.sub_diag. apply dhe_one.
Qed.

Lemma rne_at_nonneg (E N c : Z) : 0 <= N -> 0 <= rne_at E N c.
Proof.
  intros H. unfold rne_at.
  assert (0 < 2 ^ (E - Z.min c E)) by (apply pow2_pos; lia).
  assert (0 <= N * 2 ^ (c - Z.min c E)).
  { apply Z.mul_nonneg_nonneg; [lia|]. apply Z.lt_le_incl, pow2_pos. lia. }
  pose proof (dhe_bounds (N * 2 ^ (c - Z.min c E)) _ H0).
  assert (0 <= N * 2 ^ (c - Z.min c E) / 2 ^ (E - Z.min c E))
    by (apply Z.div_pos; lia).
  lia.
Qed.

Lemma fexp64_mono (a b : Z) : a <= b -> fexp64 a <= fexp64 b.
Proof. unfold fexp64. lia. Qed.

Lemma F2R_pow (k e : Z) : 0 <= k -> F2R (2 ^ k) e = bpow (k + e).
Proof.
  intros H. unfold F2R. rewrite bpow_add, (bpow_IZR k) by lia. reflexivity.
Qed.

(** bounds on the rounded mantissa *)
Lemma rnd_m_upper (N c : Z) : 0 < N -> rnd_m N c <= 2 ^ 53.
Proof.
  intros HN. unfold rnd_m. set (E := rnd_e N c).
  pose proof (F2R_mag N c HN) as [_ U].
  set (mag := Zdigits2 N + c) in *.
  assert (HE : mag - 53 <= E) by (unfold E, rnd_e, fexp64; fold mag; lia).
  destruct (Z_lt_le_dec mag E) as [Lt|Ge].
  - assert (H : rne_at E N c <= rne_at E 1 E).
    { apply rne_at_mono.
      replace (F2R 1 E) with (bpow E) by (unfold F2R; lra).
      pose proof (bpow_le mag E ltac:(lia)). lra. }
    rewrite (rne_at_exact E 1 E) in H by lia. rewrite Z.sub_diag in H. simpl in H.
    pose proof (pow2_pos 53 ltac:(lia)). lia.
  - assert (H : rne_at E N c <= rne_at E (2 ^ (mag - E)) E).
    { apply rne_at_mono. rewrite F2R_pow by lia.
      replace (mag - E + E) with mag by lia. lra. }
    rewrite (rne_at_exact E _ E) in H by lia. rewrite Z.sub_diag, Z.mul_1_r in H.
    assert (2 ^ (mag - E) <= 2 ^ 53) by (apply Z.pow_le_mono_r; lia). lia.
Qed.

Lemma rnd_m_lower (N c : Z) : 0 < N -> -1074 < rnd_e N c ->
  2 ^ 52 <= rnd_m N c.
Proof.
  intros HN HE. unfold rnd_m. set (E := rnd_e N c) in *.
  pose proof (F2R_mag N c HN) as [L _].
  set (mag := Zdigits2 N + c) in *.
  assert (E = mag - 53) by (unfold E, rnd_e, fexp64 in *; fold mag in HE |- *; lia).
  assert (H0 : rne_at E (2 ^ 52) E <= rne_at E N c).
  { apply rne_at_mono. rewrite F2R_pow by lia.
    replace (52 + E) with (mag - 1) by lia. exact L. }
  rewrite (rne_at_exact E _ E) in H0 by lia. rewrite Z.sub_diag, Z.mul_1_r in H0. exact H0.
Qed.

Lemma rnd_mag_le (N1 c1 N2 c2 : Z) : 0 < N1 -> 0 < N2 ->
  (F2R N1 c1 <= F2R N2 c2)%R -> Zdigits2 N1 + c1 <= Zdigits2 N2 + c2.
Proof.
  intros H1 H2 H. pose proof (F2R_mag N1 c1 H1) as [L1 _].
  pose proof (F2R_mag N2 c2 H2) as [_ U2].
  assert (Zdigits2 N1 + c1 - 1 < Zdigits2 N2 + c2) by (apply bpow_lt_inv; lra).
  lia.
Qed.

(** the rounded value is monotone *)
Lemma rnd_value_mono (N1 c1 N2 c2 : Z) : 0 < N1 -> 0 < N2 ->
  (F2R N1 c1 <= F2R N2 c2)%R ->
  (F2R (rnd_m N1 c1) (rnd_e N1 c1) <= F2R (rnd_m N2 c2) (rnd_e N2 c2))%R.
Proof.
  intros H1 H2 H. pose proof (rnd_mag_le _ _ _ _ H1 H2 H) as Hm.
  pose proof (fexp64_mono _ _ Hm) as HE. fold (rnd_e N1 c1) (rnd_e N2 c2) in HE.
  destruct (Z.eq_dec (rnd_e N1 c1) (rnd_e N2 c2)) as [E|NE].
  - unfold rnd_m. rewrite E. apply F2R_le, rne_at_mono, H.
  - assert (Hlo : -1074 < rnd_e N2 c2) by (unfold rnd_e, fexp64 in *; lia).
    pose proof (rnd_m_lower N2 c2 H2 Hlo) as L2.
    set (mag2 := Zdigits2 N2 + c2) in *.
    assert (E2 : rnd_e N2 c2 = mag2 - 53) by (unfold rnd_e, fexp64 in *; fold mag2 in Hlo |- *; lia).
    apply Rle_trans with (bpow (mag2 - 1)).
    + set (E1 := rnd_e N1 c1) in *.
      assert (Hc : rne_at E1 N1 c1 <= rne_at E1 (2 ^ (mag2 - 1 - E1)) E1).
      { apply rne_at_mono. rewrite F2R_pow by lia.
        replace (mag2 - 1 - E1 + E1) with (mag2 - 1) by lia.
        pose proof (F2R_mag N1 c1 H1) as [_ U1].
        assert (Zdigits2 N1 + c1 <= mag2 - 1).
        { destruct (Z_lt_le_dec (Zdigits2 N1 + c1) mag2); [lia|].
          assert (Zdigits2 N1 + c1 = mag2) by lia.
          exfalso. apply NE. unfold E1, rnd_e. rewrite H0. reflexivity. }
        pose proof (bpow_le _ _ H0). lra. }
      rewrite (rne_at_exact E1 _ E1) in Hc by lia. rewrite Z.sub_diag, Z.mul_1_r in Hc.
      unfold rnd_m. fold E1.
      apply Rle_trans with (F2R (2 ^ (mag2 - 1 - E1)) E1); [apply F2R_le, Hc|].
      rewrite F2R_pow by lia. replace (mag2 - 1 - E1 + E1) with (mag2 - 1) by lia.
      lra.
    + apply Rle_trans with (F2R (2 ^ 52) (rnd_e N2 c2)); [|apply F2R_le, L2].
      rewrite F2R_pow by lia. rewrite E2.
      replace (52 + (mag2 - 53)) with (mag2 - 1) by lia. lra.
Qed.

Lemma iter_pos_nat {A} (f : A -> A) (p : positive) (x : A) :
  SpecFloat.iter_pos f p x = Nat.iter (Pos.to_nat p) f x.
Proof.
  revert x. induction p as [p IH|p IH|]; intros x; simpl SpecFloat.iter_pos.
  - rewrite !IH, Pos2Nat.inj_xI.
    replace (S (2 * Pos.to_nat p))%nat with (Pos.to_nat p + (Pos.to_nat p + 1))%nat by lia.
    rewrite !Nat.iter_add. reflexivity.
  - rewrite !IH, Pos2Nat.inj_xO.
    replace (2 * Pos.to_nat p)%nat with (Pos.to_nat p + Pos.to_nat p)%nat by lia.
    rewrite Nat.iter_add. reflexivity.
  - reflexivity.
Qed.

Lemma shr_1_spec (m : Z) (r s : bool) : 0 <= m ->
  shr_1 (Build_shr_record m r s) = Build_shr_record (m / 2) (Z.odd m) (r || s).
Proof.
  intros H. rewrite <- Z.div2_div.
  destruct m as [|[p|p|]|]; try lia; reflexivity.
Qed.

Lemma mod_pow2_succ (N k : Z) : 0 < k ->
  N mod 2 ^ k = N mod 2 ^ (k - 1) + 2 ^ (k - 1) * ((N / 2 ^ (k - 1)) mod 2).
Proof.
  intros H. replace k with ((k - 1) + 1) at 1 by lia.
  rewrite Z.pow_add_r by lia. change (2 ^ 1) with 2.
  apply Z.rem_mul_r; [|lia]. apply Z.pow_nonzero; lia.
Qed.

Lemma shr_1_repr (N k : Z) (mrs : shr_record) : 0 <= N -> 0 <= k ->
  repr N k mrs -> repr N (k + 1) (shr_1 mrs).
Proof.
  intros HN Hk [Hm Hr Hs]. destruct mrs as [m r s]. simpl in Hm, Hr, Hs.
  assert (P : 0 < 2 ^ k) by (apply pow2_pos; lia).
  assert (0 <= m) by (subst m; apply Z.div_pos; lia).
  rewrite shr_1_spec by assumption. constructor; simpl.
  - rewrite Hm, Z.pow_add_r, Z.div_div by lia. reflexivity.
  - replace (k + 1 - 1) with k by lia. rewrite Hm.
    replace (0 <? k + 1) with true by (symmetry; apply Z.ltb_lt; lia).
    reflexivity.
  - replace (k + 1 - 1) with k by lia.
    replace (0 <? k + 1) with true by (symmetry; apply Z.ltb_lt; lia).
    rewrite Hr, Hs. simpl.
    destruct (Z.ltb_spec 0 k) as [Hk0|Hk0]; simpl.
    + rewrite (mod_pow2_succ N k Hk0), Zmod_odd.
      assert (Q : 0 < 2 ^ (k - 1)) by (apply pow2_pos; lia).
      pose proof (Z.mod_pos_bound N (2 ^ (k - 1)) Q).
      destruct (Z.odd (N / 2 ^ (k - 1))); simpl.
      * symmetry. apply negb_true_iff, Z.eqb_neq. lia.
      * f_equal. rewrite Z.mul_0_r, Z.add_0_r. reflexivity.
    + assert (k = 0) by lia. subst k. simpl. rewrite Z.mod_1_r. reflexivity.
Qed.

Lemma iter_shr_1_repr (N k : Z) (n : nat) (mrs : shr_record) :
  0 <= N -> 0 <= k -> repr N k mrs ->
  repr N (k + Z.of_nat n) (Nat.iter n shr_1 mrs).
Proof.
  intros HN Hk H. induction n as [|n IH].
  - simpl. rewrite Z.add_0_r. exact H.
  - rewrite Nat2Z.inj_succ. simpl Nat.iter.
    replace (k + Z.succ (Z.of_nat n)) with (k + Z.of_nat n + 1) by lia.
    apply shr_1_repr; [lia|lia|exact IH].
Qed.

Lemma shr_repr (N k e n : Z) (mrs : shr_record) :
  0 <= N -> 0 <= k -> 0 <= n -> repr N k mrs ->
  repr N (k + n) (fst (shr mrs e n)) /\ snd (shr mrs e n) = e + n.
Proof.
  intros HN Hk Hn H. destruct n as [|p|p]; try lia; simpl.
  - rewrite !Z.add_0_r. split; [exact H|reflexivity].
  - split; [|reflexivity]. rewrite iter_pos_nat.
    rewrite <- (positive_nat_Z p). apply iter_shr_1_repr; assumption.
Qed.

Lemma round_repr (N k : Z) (mrs : shr_record) : 0 <= N -> 0 <= k ->
  repr N k mrs ->
  round_nearest_even (shr_m mrs) (loc_of_shr_record mrs) =
  div_half_even N (2 ^ k).
Proof.
  intros HN Hk [Hm Hr Hs]. destruct mrs as [m r s]. simpl in *.
  destruct (Z.ltb_spec 0 k) as [Hk0|Hk0]; simpl in *.
  - unfold div_half_even. rewrite <- Hm.
    rewrite (mod_pow2_succ N k Hk0), Zmod_odd.
    assert (Q : 0 < 2 ^ (k - 1)) by (apply pow2_pos; lia).
    pose proof (Z.mod_pos_bound N (2 ^ (k - 1)) Q) as B.
    replace (2 ^ k) with (2 * 2 ^ (k - 1))
      by (rewrite <- Z.pow_succ_r by lia; f_equal; lia).
    rewrite <- Hr.
    symmetry in Hs.
    destruct r, s; cbn [loc_of_shr_record round_nearest_even shr_m Z.b2z];
      try (apply negb_true_iff, Z.eqb_neq in Hs);
      try (apply negb_false_iff, Z.eqb_eq in Hs).
    + replace (_ ?= _) with Gt; [reflexivity|symmetry; apply Z.compare_gt_iff; lia].
    + replace (_ ?= _) with Eq; [reflexivity|symmetry; apply Z.compare_eq_iff; lia].
    + replace (_ ?= _) with Lt; [reflexivity|symmetry; apply Z.compare_lt_iff; lia].
    + replace (_ ?= _) with Lt; [reflexivity|symmetry; apply Z.compare_lt_iff; lia].
  - assert (k = 0) by lia. subst k. simpl in *. subst r s. simpl.
    rewrite Hm, Z.div_1_r. symmetry. apply dhe_one.
Qed.

Lemma shr_nop (mrs : shr_record) (e n : Z) : n <= 0 -> shr mrs e n = (mrs, e).
Proof. destruct n; try lia; reflexivity. Qed.

Lemma rnd_e_lower (N c : Z) : -1074 <= rnd_e N c.
Proof. unfold rnd_e, fexp64. lia. Qed.

Lemma Zdigits2_le53 (m : Z) : 0 < m -> m < 2 ^ 53 -> Zdigits2 m <= 53.
Proof.
  intros H0 H. pose proof (Zdigits2_bounds m H0) as [L _].
  destruct (Z_lt_le_dec 53 (Zdigits2 m)); [|lia].
  assert (2 ^ 53 <= 2 ^ (Zdigits2 m - 1)) by (apply Z.pow_le_mono_r; lia). lia.
Qed.

Lemma binary_round_aux_spec (sx : bool) (m e : Z) (l : location) (N k0 : Z) :
  0 < N -> 0 <= k0 ->
  repr N k0 (shr_record_of_loc m l) ->
  Zdigits2 m + e = Zdigits2 N + (e - k0) ->
  e <= fexp64 (Zdigits2 m + e) ->
  binary_round_aux prec emax sx m e l = SFround sx N (e - k0).
Proof.
  intros HN Hk0 Hrep Hmag Hsh.
  unfold binary_round_aux, shr_fexp. rewrite !fexp64_eq.
  set (n := fexp64 (Zdigits2 m + e) - e).
  destruct (shr_repr N k0 e n _ ltac:(lia) Hk0 ltac:(lia) Hrep) as [R1 R2].
  destruct (shr (shr_record_of_loc m l) e n) as [mrs' e']. simpl in R1, R2.
  rewrite (round_repr N (k0 + n) mrs') by (assumption || lia).
  assert (HE : e' = rnd_e N (e - k0)).
  { rewrite R2. unfold n, rnd_e. rewrite <- Hmag. lia. }
  assert (Hm1 : div_half_even N (2 ^ (k0 + n)) = rnd_m N (e - k0)).
  { unfold rnd_m. rewrite (rne_at_scale _ N (e - k0) (e - k0)) by lia.
    rewrite Z.sub_diag, Z.mul_1_r. f_equal. f_equal. lia. }
  rewrite Hm1, HE. clear Hm1 HE R1 R2 mrs' e'. rewrite ?fexp64_eq.
  unfold SFround.
  set (m1 := rnd_m N (e - k0)). set (E := rnd_e N (e - k0)).
  pose proof (rnd_m_upper N (e - k0) HN) as U. fold m1 in U.
  assert (L : 0 <= m1) by (apply rne_at_nonneg; lia).
  pose proof (rnd_e_lower N (e - k0)) as LE. fold E in LE.
  destruct (Z.eqb_spec m1 0) as [Hz|NZ].
  - rewrite Hz. simpl Zdigits2. rewrite shr_nop by (unfold fexp64; lia).
    reflexivity.
  - destruct (Z.eqb_spec m1 (2 ^ 53)) as [T|NT].
    + rewrite T.
      replace (fexp64 (Zdigits2 (2 ^ 53) + E) - E) with 1
        by (change (Zdigits2 (2 ^ 53)) with 54; unfold fexp64; lia).
      reflexivity.
    + assert (D : Zdigits2 m1 <= 53) by (apply Zdigits2_le53; lia).
      rewrite shr_nop by (unfold fexp64; lia).
      simpl shr_m. destruct m1 as [|p|p]; try lia. reflexivity.
Qed.

Lemma rne_at_ext (E N1 c1 N2 c2 : Z) :
  F2R N1 c1 = F2R N2 c2 -> rne_at E N1 c1 = rne_at E N2 c2.
Proof.
  intros H. apply Z.le_antisymm; apply rne_at_mono; rewrite H; apply Rle_refl.
Qed.

Lemma rnd_e_ext (N1 c1 N2 c2 : Z) : 0 < N1 -> 0 < N2 ->
  F2R N1 c1 = F2R N2 c2 -> rnd_e N1 c1 = rnd_e N2 c2.
Proof.
  intros H1 H2 H. unfold rnd_e. f_equal.
  apply Z.le_antisymm; apply rnd_mag_le; try assumption; rewrite H;
    apply Rle_refl.
Qed.

Lemma SFround_ext (s : bool) (N1 c1 N2 c2 : Z) : 0 < N1 -> 0 < N2 ->
  F2R N1 c1 = F2R N2 c2 -> SFround s N1 c1 = SFround s N2 c2.
Proof.
  intros H1 H2 H. unfold SFround, rnd_m.
  rewrite (rnd_e_ext _ _ _ _ H1 H2 H), (rne_at_ext _ _ _ _ _ H). reflexivity.
Qed.

Lemma pos_iter_xO (m d : positive) :
  Zpos (Pos.iter xO m d) = Zpos m * 2 ^ Zpos d.
Proof.
  induction d as [|d IH] using Pos.peano_ind.
  - simpl. lia.
  - rewrite Pos.iter_succ, Pos2Z.inj_succ, Z.pow_succ_r by lia.
    rewrite Pos2Z.inj_xO, IH. lia.
Qed.

Lemma shl_align_spec (mx : positive) (ex ex' : Z) :
  snd (shl_align mx ex ex') = Z.min ex ex' /\
  Zpos (fst (shl_align mx ex ex')) = Zpos mx * 2 ^ (ex - Z.min ex ex').
Proof.
  unfold shl_align. destruct (ex' - ex) as [|d|d] eqn:D; simpl.
  - rewrite Z.min_l by lia. rewrite Z.sub_diag, Z.pow_0_r. split; lia.
  - rewrite Z.min_l by lia. rewrite Z.sub_diag, Z.pow_0_r. split; lia.
  - rewrite Z.min_r by lia. split; [reflexivity|].
    rewrite pos_iter_xO. replace (ex - ex') with (Zpos d) by lia. reflexivity.
Qed.

Lemma repr_exact (m : Z) : repr m 0 (shr_record_of_loc m loc_Exact).
Proof.
  constructor; simpl; [rewrite Z.div_1_r|..]; reflexivity.
Qed.

Lemma binary_round_spec (s : bool) (mx : positive) (ex : Z) :
  binary_round prec emax s mx ex = SFround s (Zpos mx) ex.
Proof.
  unfold binary_round. rewrite fexp64_eq.
  pose proof (shl_align_spec mx ex (fexp64 (Zpos (digits2_pos mx) + ex)))
    as [He Hm].
  destruct (shl_align mx ex _) as [mz ez]. cbn [fst snd] in He, Hm.
  set (E := fexp64 (Zpos (digits2_pos mx) + ex)) in *.
  assert (D : Zdigits2 (Zpos mz) + ez = Zdigits2 (Zpos mx) + ex).
  { rewrite Hm, Zdigits2_shift by lia. lia. }
  rewrite (binary_round_aux_spec s (Zpos mz) ez loc_Exact (Zpos mz) 0);
    try lia.
  - rewrite Z.sub_0_r. apply SFround_ext; try lia.
    rewrite Hm, F2R_shift by lia. f_equal. lia.
  - apply repr_exact.
  - rewrite D. change (Zdigits2 (Zpos mx)) with (Zpos (digits2_pos mx)).
    fold E. lia.
Qed.

Lemma binary_normalize_spec (n e : Z) (sz : bool) :
  binary_normalize prec emax n e sz =
  match n with
  | Z0 => S754_zero sz
  | Zpos m => SFround false (Zpos m) e
  | Zneg m => SFround true (Zpos m) e
  end.
Proof. destruct n; simpl; rewrite ?binary_round_spec; reflexivity. Qed.

(** validity of rounded results *)
Lemma canonical_iff (m : positive) (e : Z) :
  canonical_mantissa prec emax m e = true <->
  fexp64 (Zdigits2 (Zpos m) + e) = e.
Proof. unfold canonical_mantissa. rewrite fexp64_eq. apply Z.eqb_eq. Qed.

Lemma Zdigits2_53 (m : Z) : 2 ^ 52 <= m < 2 ^ 53 -> Zdigits2 m = 53.
Proof.
  intros H. apply Zdigits2_unique; [exact H|].
  pose proof (pow2_pos 52 ltac:(lia)). lia.
Qed.

Lemma SFround_valid (s : bool) (N c : Z) : 0 < N ->
  valid_binary (SFround s N c) = true.
Proof.
  intros HN. unfold SFround.
  pose proof (rnd_m_upper N c HN) as U.
  assert (L : 0 <= rnd_m N c) by (apply rne_at_nonneg; lia).
  pose proof (rnd_e_lower N c) as LE.
  pose proof (rnd_m_lower N c HN) as LO.
  set (m1 := rnd_m N c) in *. set (E := rnd_e N c) in *.
  destruct (Z.eqb_spec m1 0); [reflexivity|].
  destruct (Z.eqb_spec m1 (2 ^ 53)).
  - destruct (Z.leb_spec (E + 1) 971); [|reflexivity].
    simpl. unfold bounded. apply andb_true_iff. split.
    + apply canonical_iff.
      match goal with |- context [Zdigits2 ?x] => change (Zdigits2 x) with 53 end.
      unfold fexp64. lia.
    + apply Z.leb_le. change (emax - prec) with 971. lia.
  - destruct (Z.leb_spec E 971); [|reflexivity].
    simpl. unfold bounded. apply andb_true_iff. split.
    + apply canonical_iff. rewrite Z2Pos.id by lia.
      destruct (Z.eq_dec E (-1074)) as [->|NE].
      * pose proof (Zdigits2_le53 m1 ltac:(lia) ltac:(lia)).
        pose proof (Zdigits2_pos m1 ltac:(lia)). unfold fexp64. lia.
      * rewrite Zdigits2_53 by lia. unfold fexp64. lia.
    + apply Z.leb_le. change (emax - prec) with 971. lia.
Qed.

Lemma F2R_carry (s : bool) (E : Z) :
  F2R (cond_Zopp s (2 ^ 52)) (E + 1) = F2R (cond_Zopp s (2 ^ 53)) E.
Proof.
  unfold F2R. rewrite bpow_add.
  rewrite bpow_1.
  assert (H : IZR (2 ^ 53) = (IZR (2 ^ 52) * 2)%R).
  { rewrite <- mult_IZR. f_equal. }
  destruct s; unfold cond_Zopp; rewrite ?opp_IZR, H;
    generalize (IZR (2 ^ 52)); intros; ring.
Qed.

Lemma SFround_value (s : bool) (N c : Z) : 0 < N ->
  sf_is_inf (SFround s N c) = false ->
  SF2R (SFround s N c) = F2R (cond_Zopp s (rnd_m N c)) (rnd_e N c).
Proof.
  intros HN. unfold SFround.
  assert (L : 0 <= rnd_m N c) by (apply rne_at_nonneg; lia).
  set (m1 := rnd_m N c) in *. set (E := rnd_e N c) in *.
  destruct (Z.eqb_spec m1 0) as [->|NZ].
  - intros _. simpl. unfold F2R. destruct s; simpl; lra.
  - destruct (Z.eqb_spec m1 (2 ^ 53)) as [->|NT].
    + destruct (E + 1 <=? 971); [|discriminate]. intros _. cbn [SF2R].
      rewrite Z2Pos.id by (apply pow2_pos; lia).
      apply F2R_carry.
    + destruct (E <=? 971); [|discriminate]. intros _. cbn [SF2R].
      rewrite Z2Pos.id by lia. reflexivity.
Qed.

Lemma SFround_inf_iff (s : bool) (N c : Z) : 0 < N ->
  (sf_is_inf (SFround s N c) = true <->
   (bpow 1024 <= F2R (rnd_m N c) (rnd_e N c))%R).
Proof.
  intros HN. unfold SFround.
  pose proof (rnd_m_upper N c HN) as U.
  assert (L : 0 <= rnd_m N c) by (apply rne_at_nonneg; lia).
  pose proof (rnd_e_lower N c) as LE.
  pose proof (rnd_m_lower N c HN) as LO.
  set (m1 := rnd_m N c) in *. set (E := rnd_e N c) in *.
  pose proof (bpow_pos 1024) as P.
  destruct (Z.eqb_spec m1 0) as [Hz|NZ].
  - rewrite Hz. cbn [sf_is_inf]. unfold F2R. split; [discriminate|]. intros H.
    exfalso. lra.
  - destruct (Z.eqb_spec m1 (2 ^ 53)) as [T|NT].
    + rewrite T, F2R_pow by lia.
      destruct (Z.leb_spec (E + 1) 971); cbn [sf_is_inf]; split;
        try discriminate; try reflexivity.
      * intros H'. apply Rle_not_lt in H'. exfalso. apply H'.
        apply bpow_lt. lia.
      * intros _. apply bpow_le. lia.
    + destruct (Z.leb_spec E 971); cbn [sf_is_inf]; split; try discriminate;
        try reflexivity.
      * intros H'. apply Rle_not_lt in H'. exfalso. apply H'.
        apply Rlt_le_trans with (F2R (2 ^ 53) E).
        { unfold F2R. apply Rmult_lt_compat_r; [apply bpow_pos|].
          apply IZR_lt. lia. }
        rewrite F2R_pow by lia. apply bpow_le. lia.
      * intros _. apply Rle_trans with (F2R (2 ^ 52) E).
        { rewrite F2R_pow by lia. apply bpow_le. lia. }
        apply F2R_le, LO. lia.
Qed.

Lemma F2R_opp (n e : Z) : F2R (- n) e = (- F2R n e)%R.
Proof. unfold F2R. rewrite opp_IZR. ring. Qed.

Lemma F2R_pos (n e : Z) : 0 < n -> (0 < F2R n e)%R.
Proof.
  intros H. unfold F2R. apply Rmult_lt_0_compat; [|apply bpow_pos].
  apply IZR_lt. exact H.
Qed.

Lemma F2R_lt (n m e : Z) : n < m -> (F2R n e < F2R m e)%R.
Proof.
  intros H. unfold F2R. apply Rmult_lt_compat_r; [apply bpow_pos|].
  apply IZR_lt. exact H.
Qed.

Lemma valid_finite (s : bool) (m : positive) (e : Z) :
  valid_binary (S754_finite s m e) = true ->
  fexp64 (Zdigits2 (Zpos m) + e) = e /\ e <= 971.
Proof.
  simpl. unfold bounded. intros H. apply andb_true_iff in H as [C B].
  apply canonical_iff in C. apply Z.leb_le in B. split; assumption.
Qed.

Lemma canonical_lt (m1 m2 : positive) (e1 e2 : Z) :
  fexp64 (Zdigits2 (Zpos m1) + e1) = e1 ->
  fexp64 (Zdigits2 (Zpos m2) + e2) = e2 ->
  e1 < e2 -> (F2R (Zpos m1) e1 < F2R (Zpos m2) e2)%R.
Proof.
  intros C1 C2 H.
  pose proof (F2R_mag (Zpos m1) e1 ltac:(lia)) as [_ U].
  pose proof (F2R_mag (Zpos m2) e2 ltac:(lia)) as [L _].
  assert (Zdigits2 (Zpos m1) + e1 <= Zdigits2 (Zpos m2) + e2 - 1)
    by (unfold fexp64 in *; lia).
  pose proof (bpow_le _ _ H0). lra.
Qed.

Lemma pos_compare_F2R (m1 m2 : positive) (e : Z) :
  cmp_spec (Some (Pos.compare_cont Eq m1 m2)) (F2R (Zpos m1) e) (F2R (Zpos m2) e).
Proof.
  change (Pos.compare_cont Eq m1 m2) with (Pos.compare m1 m2).
  destruct (Pos.compare_spec m1 m2) as [->|H|H]; simpl.
  - reflexivity.
  - apply F2R_lt. lia.
  - apply F2R_lt. lia.
Qed.

Lemma SFcompare_finite (x y : spec_float) :
  valid_binary x = true -> valid_binary y = true ->
  sf_is_fin x = true -> sf_is_fin y = true ->
  cmp_spec (SFcompare x y) (SF2R x) (SF2R y).
Proof.
  intros Vx Vy Fx Fy.
  destruct x as [sx|sx| |sx mx ex]; try discriminate;
    destruct y as [sy|sy| |sy my ey]; try discriminate.
  - simpl. reflexivity.
  - cbn [SFcompare SF2R].
    pose proof (F2R_pos (Zpos my) ey ltac:(lia)).
    destruct sy; cbn [cmp_spec cond_Zopp].
    + change (Z.opp (Zpos my)) with (- Zpos my). rewrite F2R_opp. lra.
    + lra.
  - cbn [SFcompare SF2R].
    pose proof (F2R_pos (Zpos mx) ex ltac:(lia)).
    destruct sx; cbn [cmp_spec cond_Zopp].
    + rewrite F2R_opp. lra.
    + lra.
  - apply valid_finite in Vx as [Cx _]. apply valid_finite in Vy as [Cy _].
    pose proof (F2R_pos (Zpos mx) ex ltac:(lia)).
    pose proof (F2R_pos (Zpos my) ey ltac:(lia)).
    cbn [SFcompare SF2R].
    destruct sx, sy; cbn [cond_Zopp cmp_spec]; rewrite ?F2R_opp.
    + destruct (Z.compare_spec ex ey) as [->|L|G]; cbn [cmp_spec].
      * pose proof (pos_compare_F2R mx my ey) as Q.
        destruct (Pos.compare_cont Eq mx my); cbn [CompOpp cmp_spec] in *; lra.
      * pose proof (canonical_lt _ _ _ _ Cx Cy L). lra.
      * pose proof (canonical_lt _ _ _ _ Cy Cx G). lra.
    + lra.
    + lra.
    + destruct (Z.compare_spec ex ey) as [->|L|G]; cbn [cmp_spec].
      * apply pos_compare_F2R.
      * apply (canonical_lt _ _ _ _ Cx Cy L).
      * apply (canonical_lt _ _ _ _ Cy Cx G).
Qed.

Lemma SFleb_finite (x y : spec_float) :
  valid_binary x = true -> valid_binary y = true ->
  sf_is_fin x = true -> sf_is_fin y = true ->
  (SFleb x y = true <-> (SF2R x <= SF2R y)%R).
Proof.
  intros Vx Vy Fx Fy. pose proof (SFcompare_finite x y Vx Vy Fx Fy) as C.
  unfold SFleb. destruct (SFcompare x y) as [[]|]; simpl in C;
    split; intros H; try reflexivity; try discriminate; try lra;
    try contradiction.
Qed.

Lemma SFltb_finite (x y : spec_float) :
  valid_binary x = true -> valid_binary y = true ->
  sf_is_fin x = true -> sf_is_fin y = true ->
  (SFltb x y = true <-> (SF2R x < SF2R y)%R).
Proof.
  intros Vx Vy Fx Fy. pose proof (SFcompare_finite x y Vx Vy Fx Fy) as C.
  unfold SFltb. destruct (SFcompare x y) as [[]|]; simpl in C;
    split; intros H; try reflexivity; try discriminate; try lra;
    try contradiction.
Qed.

Lemma SFleb_nonpos_nonneg (a b : spec_float) :
  nonpos_class a -> nonneg_class b -> SFleb a b = true.
Proof.
  destruct a as [sa|[]| |[] ma ea]; simpl; try contradiction;
    destruct b as [sb|[]| |[] mb eb]; simpl; try contradiction; reflexivity.
Qed.

Lemma SFround_class (s : bool) (N c : Z) :
  if s then nonpos_class (SFround s N c) else nonneg_class (SFround s N c).
Proof.
  unfold SFround.
  destruct s; repeat match goal with |- context [if ?b then _ else _] =>
                       destruct b end; exact I.
Qed.

Lemma SFround_not_nan (s : bool) (N c : Z) : sf_is_nan (SFround s N c) = false.
Proof.
  unfold SFround.
  repeat match goal with |- context [if ?b then _ else _] => destruct b end;
    reflexivity.
Qed.

Lemma SFround_opp (N c : Z) : SFround true N c = SFopp (SFround false N c).
Proof.
  unfold SFround.
  repeat match goal with |- context [if ?b then _ else _] => destruct b end;
    reflexivity.
Qed.

Lemma SFcompare_opp (x y : spec_float) :
  SFcompare (SFopp x) (SFopp y) = SFcompare y x.
Proof.
  destruct x as [sx|sx| |sx mx ex], y as [sy|sy| |sy my ey];
    cbn [SFopp SFcompare]; try reflexivity;
    try (destruct sx; reflexivity); try (destruct sy; reflexivity);
    try (destruct sx, sy; reflexivity).
  destruct sx, sy; cbn [negb]; try reflexivity.
  - rewrite (Z.compare_antisym ex ey).
    destruct (ex ?= ey); cbn [CompOpp]; try reflexivity.
    rewrite (Pos.compare_cont_antisym my mx Eq). reflexivity.
  - rewrite (Z.compare_antisym ex ey).
    destruct (ex ?= ey); cbn [CompOpp]; try reflexivity.
    rewrite (Pos.compare_cont_antisym mx my Eq). reflexivity.
Qed.

Lemma SFleb_opp (x y : spec_float) : SFleb (SFopp x) (SFopp y) = SFleb y x.
Proof. unfold SFleb. rewrite SFcompare_opp. reflexivity. Qed.

Lemma sf_fin_of_not_inf (o : spec_float) :
  sf_is_nan o = false -> sf_is_inf o = false -> sf_is_fin o = true.
Proof. destruct o; simpl; congruence. Qed.

Lemma SFround_pos_le (N1 c1 N2 c2 : Z) : 0 < N1 -> 0 < N2 ->
  (F2R N1 c1 <= F2R N2 c2)%R ->
  SFleb (SFround false N1 c1) (SFround false N2 c2) = true.
Proof.
  intros H1 H2 H.
  pose proof (rnd_value_mono _ _ _ _ H1 H2 H) as V.
  pose proof (SFround_class false N1 c1) as K1.
  pose proof (SFround_class false N2 c2) as K2.
  pose proof (SFround_inf_iff false N1 c1 H1) as I1.
  pose proof (SFround_inf_iff false N2 c2 H2) as I2.
  pose proof (SFround_value false N1 c1 H1) as R1.
  pose proof (SFround_value false N2 c2 H2) as R2.
  pose proof (SFround_valid false N1 c1 H1) as V1.
  pose proof (SFround_valid false N2 c2 H2) as V2.
  pose proof (SFround_not_nan false N1 c1) as Q1.
  pose proof (SFround_not_nan false N2 c2) as Q2.
  cbn [cond_Zopp] in R1, R2.
  destruct (sf_is_inf (SFround false N2 c2)) eqn:E2.
  - clear - K1 K2 E2 Q1.
    destruct (SFround false N2 c2) as [|[]| |]; try discriminate;
      try contradiction.
    destruct (SFround false N1 c1) as [|[]| |[]]; try discriminate;
      try contradiction; reflexivity.
  - destruct (sf_is_inf (SFround false N1 c1)) eqn:E1.
    + exfalso. destruct I1 as [I1 _]. specialize (I1 eq_refl).
      destruct I2 as [_ I2]. assert (C : false = true) by (apply I2; lra).
      discriminate.
    + apply SFleb_finite; try assumption; try (apply sf_fin_of_not_inf; assumption).
      rewrite R1, R2 by reflexivity. exact V.
Qed.

Lemma Rounds_valid (r : R) (o : spec_float) :
  Rounds r o -> valid_binary o = true /\ sf_is_nan o = false.
Proof.
  intros [s _ ->|N c H _ ->|N c H _ ->].
  - split; reflexivity.
  - split; [apply SFround_valid; exact H|apply SFround_not_nan].
  - split; [apply SFround_valid; exact H|apply SFround_not_nan].
Qed.

Lemma Rounds_mono (r1 r2 : R) (o1 o2 : spec_float) :
  Rounds r1 o1 -> Rounds r2 o2 -> (r1 <= r2)%R -> SFleb o1 o2 = true.
Proof.
  intros [s1 E1 ->|N1 c1 H1 E1 ->|N1 c1 H1 E1 ->]
         [s2 E2 ->|N2 c2 H2 E2 ->|N2 c2 H2 E2 ->] H;
    try pose proof (F2R_pos N1 c1 H1); try pose proof (F2R_pos N2 c2 H2);
    try (exfalso; lra).
  - reflexivity.
  - apply SFleb_nonpos_nonneg; [exact I|apply (SFround_class false)].
  - apply SFround_pos_le; try assumption. lra.
  - apply SFleb_nonpos_nonneg; [apply (SFround_class true)|exact I].
  - apply SFleb_nonpos_nonneg;
      [apply (SFround_class true)|apply (SFround_class false)].
  - rewrite !SFround_opp, SFleb_opp. apply SFround_pos_le; try assumption. lra.
Qed.

Lemma F2R_cond_Zopp (s : bool) (n e : Z) :
  F2R (cond_Zopp s n) e = (if s then - F2R n e else F2R n e)%R.
Proof. destruct s; simpl; [apply F2R_opp|reflexivity]. Qed.

Lemma F2R_add (a b e : Z) : F2R (a + b) e = (F2R a e + F2R b e)%R.
Proof. unfold F2R. rewrite plus_IZR. ring. Qed.

Lemma F2R_0 (e : Z) : F2R 0 e = 0%R.
Proof. unfold F2R. simpl. ring. Qed.

Lemma F2R_1 (n : Z) : F2R n 0 = IZR n.
Proof. unfold F2R. rewrite bpow_0. ring. Qed.

(** a valid finite float is the rounding of its own value *)
Lemma SFround_id (s : bool) (m : positive) (e : Z) :
  valid_binary (S754_finite s m e) = true ->
  SFround s (Zpos m) e = S754_finite s m e.
Proof.
  intros V. apply valid_finite in V as [C B]. unfold SFround, rnd_m.
  change (rnd_e (Zpos m) e) with (fexp64 (Zdigits2 (Zpos m) + e)).
  rewrite C, rne_at_exact by lia. rewrite Z.sub_diag, Z.mul_1_r.
  assert (D : Zdigits2 (Zpos m) <= 53) by (unfold fexp64 in C; lia).
  pose proof (Zdigits2_bounds (Zpos m) ltac:(lia)) as [_ U].
  assert (2 ^ Zdigits2 (Zpos m) <= 2 ^ 53) by (apply Z.pow_le_mono_r; lia).
  destruct (Z.eqb_spec (Zpos m) 0); [lia|].
  destruct (Z.eqb_spec (Zpos m) (2 ^ 53)); [lia|].
  destruct (Z.leb_spec e 971); [reflexivity|lia].
Qed.

Lemma Rounds_id (x : spec_float) :
  valid_binary x = true -> sf_is_fin x = true -> Rounds (SF2R x) x.
Proof.
  intros V F. destruct x as [s|s| |s m e]; try discriminate.
  - apply (Rounds_zero _ _ s); reflexivity.
  - destruct s.
    + apply (Rounds_neg _ _ (Zpos m) e); [lia| |symmetry; apply SFround_id, V].
      cbn [SF2R cond_Zopp]. apply F2R_opp.
    + apply (Rounds_pos _ _ (Zpos m) e); [lia| |symmetry; apply SFround_id, V].
      reflexivity.
Qed.

Lemma Rounds_normalize (n e : Z) (sz : bool) :
  Rounds (F2R n e) (binary_normalize prec emax n e sz).
Proof.
  rewrite binary_normalize_spec. destruct n as [|p|p].
  - apply (Rounds_zero _ _ sz); [apply F2R_0|reflexivity].
  - apply (Rounds_pos _ _ (Zpos p) e); [lia|reflexivity|reflexivity].
  - apply (Rounds_neg _ _ (Zpos p) e); [lia| |reflexivity].
    change (Zneg p) with (- Zpos p). apply F2R_opp.
Qed.

Lemma shl_align_value (mx : positive) (ex ez : Z) : ez <= ex ->
  F2R (Zpos (fst (shl_align mx ex ez))) ez = F2R (Zpos mx) ex.
Proof.
  intros H. pose proof (shl_align_spec mx ex ez) as [_ Hm].
  rewrite Hm, Z.min_r, F2R_shift by lia. f_equal. lia.
Qed.

Lemma SFadd_fin (x y : spec_float) :
  valid_binary x = true -> valid_binary y = true ->
  sf_is_fin x = true -> sf_is_fin y = true ->
  Rounds (SF2R x + SF2R y) (SFadd prec emax x y).
Proof.
  intros Vx Vy Fx Fy.
  destruct x as [sx|sx| |sx mx ex]; try discriminate;
    destruct y as [sy|sy| |sy my ey]; try discriminate.
  - apply (Rounds_zero _ _ (if Bool.eqb sx sy then sx else false)).
    + simpl. lra.
    + destruct sx, sy; reflexivity.
  - replace (SF2R (S754_zero sx) + SF2R (S754_finite sy my ey))%R
      with (SF2R (S754_finite sy my ey)) by (simpl; lra).
    apply Rounds_id; assumption.
  - replace (SF2R (S754_finite sx mx ex) + SF2R (S754_zero sy))%R
      with (SF2R (S754_finite sx mx ex)) by (simpl; lra).
    apply Rounds_id; assumption.
  - cbn [SFadd].
    set (ez := Z.min ex ey).
    replace (SF2R (S754_finite sx mx ex) + SF2R (S754_finite sy my ey))%R
      with (F2R (cond_Zopp sx (Zpos (fst (shl_align mx ex ez)))
                 + cond_Zopp sy (Zpos (fst (shl_align my ey ez)))) ez).
    + apply Rounds_normalize.
    + rewrite F2R_add, !F2R_cond_Zopp, !shl_align_value by (unfold ez; lia).
      cbn [SF2R]. rewrite !F2R_cond_Zopp. reflexivity.
Qed.

Lemma SFleb_ninf (b : spec_float) :
  sf_is_nan b = false -> SFleb (S754_infinity true) b = true.
Proof. destruct b as [|[]| |]; simpl; try discriminate; reflexivity. Qed.

Lemma SFleb_pinf (a : spec_float) :
  sf_is_nan a = false -> SFleb a (S754_infinity false) = true.
Proof. destruct a as [|[]| |[]]; simpl; try discriminate; reflexivity. Qed.

Lemma SFadd_not_nan (x y : spec_float) :
  valid_binary x = true -> valid_binary y = true ->
  sf_is_fin x = true -> sf_is_fin y = true ->
  sf_is_nan (SFadd prec emax x y) = false.
Proof. intros. apply (Rounds_valid _ _ (SFadd_fin x y H H0 H1 H2)). Qed.

Lemma SFadd_valid (x y : spec_float) :
  valid_binary x = true -> valid_binary y = true ->
  valid_binary (SFadd prec emax x y) = true.
Proof.
  intros Vx Vy.
  destruct (sf_is_fin x) eqn:Fx; destruct (sf_is_fin y) eqn:Fy.
  - apply (Rounds_valid _ _ (SFadd_fin x y Vx Vy Fx Fy)).
  - destruct x as [sx|sx| |sx mx ex]; try discriminate;
      destruct y as [sy|[]| |sy my ey]; try discriminate; reflexivity.
  - destruct x as [sx|[]| |sx mx ex]; try discriminate;
      destruct y as [sy|sy| |sy my ey]; try discriminate; reflexivity.
  - destruct x as [sx|[]| |sx mx ex]; try discriminate;
      destruct y as [sy|[]| |sy my ey]; try discriminate; reflexivity.
Qed.

Lemma SFadd_mono_l (x x' y : spec_float) :
  valid_binary x = true -> valid_binary x' = true -> valid_binary y = true ->
  sf_le x x' -> sf_le (SFadd prec emax x y) (SFadd prec emax x' y).
Proof.
  intros Vx Vx' Vy [N|[N|L]].
  - left. destruct x; try discriminate. reflexivity.
  - right. left. destruct x'; try discriminate. reflexivity.
  - destruct (sf_is_fin x) eqn:Fx; destruct (sf_is_fin x') eqn:Fx';
      destruct (sf_is_fin y) eqn:Fy.
    + right. right.
      apply (Rounds_mono _ _ _ _ (SFadd_fin x y Vx Vy Fx Fy)
               (SFadd_fin x' y Vx' Vy Fx' Fy)).
      apply SFleb_finite in L; try assumption. lra.
    + destruct y as [sy|[]| |sy my ey]; try discriminate;
        destruct x as [sx|sx| |sx mx ex]; try discriminate;
        destruct x' as [sx'|sx'| |sx' mx' ex']; try discriminate;
        unfold sf_le; simpl; auto.
    + (* x finite, x' not *)
      destruct x' as [sx'|[]| |sx' mx' ex']; try discriminate.
      * exfalso. clear - L Fx.
        destruct x as [|[]| |[]]; simpl in *; discriminate.
      * right. right.
        replace (SFadd prec emax (S754_infinity false) y)
          with (S754_infinity false)
          by (destruct y as [|[]| |]; try discriminate; reflexivity).
        apply SFleb_pinf, SFadd_not_nan; assumption.
      * exfalso. clear - L. destruct x as [|[]| |[]]; simpl in *; discriminate.
    + destruct y as [sy|[]| |sy my ey]; try discriminate;
        destruct x as [sx|sx| |sx mx ex]; try discriminate;
        destruct x' as [sx'|[]| |sx' mx' ex']; try discriminate;
        unfold sf_le; simpl in *; auto.
    + destruct x as [sx|[]| |sx mx ex]; try discriminate.
      * right. right.
        replace (SFadd prec emax (S754_infinity true) y)
          with (S754_infinity true)
          by (destruct y as [|[]| |]; try discriminate; reflexivity).
        apply SFleb_ninf, SFadd_not_nan; assumption.
      * exfalso. clear - L Fx'.
        destruct x' as [|[]| |[]]; simpl in *; discriminate.
    + destruct y as [sy|[]| |sy my ey]; try discriminate;
        destruct x as [sx|[]| |sx mx ex]; try discriminate;
        destruct x' as [sx'|sx'| |sx' mx' ex']; try discriminate;
        unfold sf_le; simpl in *; auto.
    + destruct x as [sx|[]| |sx mx ex]; try discriminate;
        destruct x' as [sx'|[]| |sx' mx' ex']; try discriminate;
        destruct y as [sy|sy| |sy my ey]; try discriminate;
        unfold sf_le; simpl in *; auto.
    + destruct y as [sy|[]| |sy my ey]; try discriminate;
        destruct x as [sx|[]| |sx mx ex]; try discriminate;
        destruct x' as [sx'|[]| |sx' mx' ex']; try discriminate;
        unfold sf_le; simpl in *; auto.
Qed.

Lemma SFadd_comm (x y : spec_float) :
  SFadd prec emax x y = SFadd prec emax y x.
Proof.
  destruct x as [[]|[]| |sx mx ex], y as [[]|[]| |sy my ey]; try reflexivity.
  cbn [SFadd]. rewrite (Z.min_comm ey ex), Z.add_comm. reflexivity.
Qed.

Lemma SFadd_mono_r (x y y' : spec_float) :
  valid_binary x = true -> valid_binary y = true -> valid_binary y' = true ->
  sf_le y y' -> sf_le (SFadd prec emax x y) (SFadd prec emax x y').
Proof.
  intros. rewrite (SFadd_comm x y), (SFadd_comm x y').
  apply SFadd_mono_l; assumption.
Qed.

Lemma Zdigits2_mul_ge (a b : Z) : 0 < a -> 0 < b ->
  Zdigits2 a + Zdigits2 b - 1 <= Zdigits2 (a * b).
Proof.
  intros Ha Hb.
  pose proof (Zdigits2_bounds a Ha) as [La _].
  pose proof (Zdigits2_bounds b Hb) as [Lb _].
  pose proof (Zdigits2_pos a Ha). pose proof (Zdigits2_pos b Hb).
  assert (Hab : 0 < a * b) by nia.
  pose proof (Zdigits2_bounds (a * b) Hab) as [_ U].
  destruct (Z_lt_le_dec (Zdigits2 (a * b)) (Zdigits2 a + Zdigits2 b - 1));
    [|lia].
  exfalso.
  assert (2 ^ Zdigits2 (a * b) <= 2 ^ ((Zdigits2 a - 1) + (Zdigits2 b - 1)))
    by (apply Z.pow_le_mono_r; lia).
  rewrite Z.pow_add_r in H1 by lia.
  assert (0 < 2 ^ (Zdigits2 a - 1)) by (apply pow2_pos; lia).
  assert (0 < 2 ^ (Zdigits2 b - 1)) by (apply pow2_pos; lia).
  nia.
Qed.

Lemma F2R_mul (a b e f : Z) : F2R (a * b) (e + f) = (F2R a e * F2R b f)%R.
Proof. unfold F2R. rewrite mult_IZR, bpow_add. ring. Qed.

Section Mul.

(** multiplication by a positive constant with a full mantissa *)
Variable mc : positive.

Variable ec : Z.

Hypothesis mc_digits : Zdigits2 (Zpos mc) = 53.

Let C := S754_finite false mc ec.

Lemma SFmul_fin (x : spec_float) :
  valid_binary x = true -> sf_is_fin x = true ->
  Rounds (SF2R x * SF2R C) (SFmul prec emax x C).
Proof.
  intros V F. destruct x as [sx|sx| |sx mx ex]; try discriminate.
  - apply (Rounds_zero _ _ (xorb sx false)); [simpl; lra|reflexivity].
  - unfold C. cbn [SFmul]. rewrite xorb_false_r.
    assert (S : ex + ec <= fexp64 (Zdigits2 (Zpos (mx * mc)) + (ex + ec))).
    { pose proof (Zdigits2_mul_ge (Zpos mx) (Zpos mc) ltac:(lia) ltac:(lia)).
      pose proof (Zdigits2_pos (Zpos mx) ltac:(lia)).
      rewrite Pos2Z.inj_mul. unfold fexp64. lia. }
    rewrite (binary_round_aux_spec sx (Zpos (mx * mc)) (ex + ec) loc_Exact
               (Zpos (mx * mc)) 0)
      by first [exact S | apply repr_exact | lia].
    rewrite Z.sub_0_r.
    assert (E : F2R (Zpos (mx * mc)) (ex + ec) =
                (F2R (Zpos mx) ex * F2R (Zpos mc) ec)%R)
      by (rewrite Pos2Z.inj_mul; apply F2R_mul).
    destruct sx.
    + apply (Rounds_neg _ _ (Zpos (mx * mc)) (ex + ec)); [lia| |reflexivity].
      rewrite E. cbn [SF2R cond_Zopp].
      change (Z.opp (Zpos mx)) with (- Zpos mx). rewrite F2R_opp. ring.
    + apply (Rounds_pos _ _ (Zpos (mx * mc)) (ex + ec)); [lia| |reflexivity].
      rewrite E. reflexivity.
Qed.

Lemma SFmul_inf (s : bool) :
  SFmul prec emax (S754_infinity s) C = S754_infinity s.
Proof. unfold C. cbn [SFmul]. rewrite xorb_false_r. reflexivity. Qed.

Lemma SFmul_valid (x : spec_float) :
  valid_binary x = true -> valid_binary (SFmul prec emax x C) = true.
Proof.
  intros V. destruct (sf_is_fin x) eqn:F.
  - apply (Rounds_valid _ _ (SFmul_fin x V F)).
  - destruct x; try discriminate; reflexivity.
Qed.

Lemma SF2R_C_pos : (0 < SF2R C)%R.
Proof. apply F2R_pos. reflexivity. Qed.

Lemma SFmul_mono (x x' : spec_float) :
  valid_binary x = true -> valid_binary x' = true ->
  sf_le x x' -> sf_le (SFmul prec emax x C) (SFmul prec emax x' C).
Proof.
  intros Vx Vx' [N|[N|L]].
  - left. destruct x; try discriminate. reflexivity.
  - right. left. destruct x'; try discriminate. reflexivity.
  - destruct (sf_is_fin x) eqn:Fx; destruct (sf_is_fin x') eqn:Fx'.
    + right. right.
      apply (Rounds_mono _ _ _ _ (SFmul_fin x Vx Fx) (SFmul_fin x' Vx' Fx')).
      apply SFleb_finite in L; try assumption.
      pose proof SF2R_C_pos. nra.
    + destruct x' as [sx'|[]| |sx' mx' ex']; try discriminate.
      * exfalso. clear - L Fx.
        destruct x as [|[]| |[]]; simpl in *; discriminate.
      * right. right. rewrite SFmul_inf.
        apply SFleb_pinf, (Rounds_valid _ _ (SFmul_fin x Vx Fx)).
      * exfalso. clear - L. destruct x as [|[]| |[]]; simpl in *; discriminate.
    + destruct x as [sx|[]| |sx mx ex]; try discriminate.
      * right. right. rewrite SFmul_inf.
        apply SFleb_ninf, (Rounds_valid _ _ (SFmul_fin x' Vx' Fx')).
      * exfalso. clear - L Fx'.
        destruct x' as [|[]| |[]]; simpl in *; discriminate.
    + destruct x as [sx|[]| |sx mx ex]; try discriminate;
        destruct x' as [sx'|[]| |sx' mx' ex']; try discriminate;
        rewrite !SFmul_inf; unfold sf_le; simpl; auto.
Qed.

End Mul.

Lemma div_eucl_pair (a b : Z) : Z.div_eucl a b = (a / b, a mod b).
Proof. unfold Z.div, Z.modulo. destruct (Z.div_eucl a b). reflexivity. Qed.

Lemma SFdiv_core_two (mx : positive) (ex : Z) :
  fexp64 (Zdigits2 (Zpos mx) + ex) = ex ->
  let e' := fexp64 (Zdigits2 (Zpos mx) + ex - 2) in
  let N := Zpos mx * 2 ^ (ex - e') in
  SFdiv_core_binary prec emax (Zpos mx) ex (Zpos p52) (-51) =
  (N / 2, e', if Z.odd N then loc_Inexact Eq else loc_Exact).
Proof.
  intros C e' N. unfold SFdiv_core_binary.
  change (Zdigits2 (Zpos p52)) with 53. rewrite fexp64_eq.
  replace (Zdigits2 (Z.pos mx) + ex - (53 + -51))
    with (Zdigits2 (Z.pos mx) + ex - 2) by lia.
  fold e'.
  assert (He : e' <= ex) by (unfold e', fexp64 in *; lia).
  rewrite Z.min_l by lia.
  replace (ex - -51 - e') with (ex - e' + 51) by lia.
  destruct (ex - e' + 51) as [|p|p] eqn:S; try lia.
  rewrite <- S, Z.shiftl_mul_pow2, div_eucl_pair by lia.
  rewrite Z.pow_add_r, Z.mul_assoc by lia. fold N.
  change (Zpos p52) with (2 * 2 ^ 51).
  rewrite Zmult_mod_distr_r, Z.div_mul_cancel_r by lia.
  rewrite Zmod_odd.
  unfold new_location. change (Z.even (2 * 2 ^ 51)) with true.
  unfold new_location_even.
  destruct (Z.odd N); reflexivity.
Qed.

Lemma SFdiv_two_fin (x : spec_float) :
  valid_binary x = true -> sf_is_fin x = true ->
  Rounds (SF2R x * bpow (-1)) (SFdiv prec emax x sf_two).
Proof.
  intros V F. destruct x as [sx|sx| |sx mx ex]; try discriminate.
  - apply (Rounds_zero _ _ (xorb sx false)); [simpl; lra|reflexivity].
  - apply valid_finite in V as [C B].
    unfold sf_two. cbn [SFdiv]. rewrite xorb_false_r.
    rewrite (SFdiv_core_two mx ex C).
    set (e' := fexp64 (Zdigits2 (Zpos mx) + ex - 2)).
    set (N := Zpos mx * 2 ^ (ex - e')).
    assert (He : e' <= ex) by (unfold e', fexp64 in *; lia).
    assert (HN : 0 < N).
    { unfold N. apply Z.mul_pos_pos; [lia|apply pow2_pos; lia]. }
    assert (DN : Zdigits2 N = Zdigits2 (Zpos mx) + (ex - e'))
      by (apply Zdigits2_shift; lia).
    pose proof (Zdigits2_pos (Zpos mx) ltac:(lia)) as Dp.
    assert (Dq : Zdigits2 (N / 2) = Zdigits2 N - 1).
    { change 2 with (2 ^ 1) at 1. apply Zdigits2_div; lia. }
    rewrite (binary_round_aux_spec sx (N / 2) e' _ N 1); try lia.
    + assert (E : F2R N (e' - 1) = (F2R (Zpos mx) ex * bpow (-1))%R).
      { unfold N. rewrite F2R_shift by lia.
        replace (e' - 1 + (ex - e')) with (ex + -1) by lia.
        unfold F2R. rewrite bpow_add. ring. }
      destruct sx.
      * apply (Rounds_neg _ _ N (e' - 1)); [lia| |reflexivity].
        rewrite E. cbn [SF2R cond_Zopp].
        change (Z.opp (Zpos mx)) with (- Zpos mx). rewrite F2R_opp. ring.
      * apply (Rounds_pos _ _ N (e' - 1)); [lia| |reflexivity].
        rewrite E. reflexivity.
    + constructor.
      * change (2 ^ 1) with 2.
        destruct (Z.odd N); reflexivity.
      * change (1 - 1) with 0. rewrite Z.pow_0_r, Z.div_1_r.
        destruct (Z.odd N); reflexivity.
      * change (1 - 1) with 0. rewrite Z.pow_0_r, Z.mod_1_r.
        destruct (Z.odd N); reflexivity.
    + rewrite Dq, DN. unfold e', fexp64. lia.
Qed.

Lemma SFdiv_two_inf (s : bool) :
  SFdiv prec emax (S754_infinity s) sf_two = S754_infinity s.
Proof. unfold sf_two. cbn [SFdiv]. rewrite xorb_false_r. reflexivity. Qed.

Lemma SFdiv_two_valid (x : spec_float) :
  valid_binary x = true -> valid_binary (SFdiv prec emax x sf_two) = true.
Proof.
  intros V. destruct (sf_is_fin x) eqn:F.
  - apply (Rounds_valid _ _ (SFdiv_two_fin x V F)).
  - destruct x; try discriminate; reflexivity.
Qed.

Lemma SFdiv_two_mono (x x' : spec_float) :
  valid_binary x = true -> valid_binary x' = true ->
  sf_le x x' -> sf_le (SFdiv prec emax x sf_two) (SFdiv prec emax x' sf_two).
Proof.
  intros Vx Vx' [N|[N|L]].
  - left. destruct x; try discriminate. reflexivity.
  - right. left. destruct x'; try discriminate. reflexivity.
  - destruct (sf_is_fin x) eqn:Fx; destruct (sf_is_fin x') eqn:Fx'.
    + right. right.
      apply (Rounds_mono _ _ _ _ (SFdiv_two_fin x Vx Fx)
               (SFdiv_two_fin x' Vx' Fx')).
      apply SFleb_finite in L; try assumption.
      pose proof (bpow_pos (-1)). nra.
    + destruct x' as [sx'|[]| |sx' mx' ex']; try discriminate.
      * exfalso. clear - L Fx.
        destruct x as [|[]| |[]]; simpl in *; discriminate.
      * right. right. rewrite SFdiv_two_inf.
        apply SFleb_pinf, (Rounds_valid _ _ (SFdiv_two_fin x Vx Fx)).
      * exfalso. clear - L. destruct x as [|[]| |[]]; simpl in *; discriminate.
    + destruct x as [sx|[]| |sx mx ex]; try discriminate.
      * right. right. rewrite SFdiv_two_inf.
        apply SFleb_ninf, (Rounds_valid _ _ (SFdiv_two_fin x' Vx' Fx')).
      * exfalso. clear - L Fx'.
        destruct x' as [|[]| |[]]; simpl in *; discriminate.
    + destruct x as [sx|[]| |sx mx ex]; try discriminate;
        destruct x' as [sx'|[]| |sx' mx' ex']; try discriminate;
        rewrite !SFdiv_two_inf; unfold sf_le; simpl; auto.
Qed.

Lemma SFleb_refl (a : spec_float) : sf_is_nan a = false -> SFleb a a = true.
Proof.
  destruct a as [s|[]| |[] m e]; try discriminate; intros _;
    unfold SFleb; cbn [SFcompare]; try reflexivity;
    rewrite Z.compare_refl;
    change (Pos.compare_cont Eq m m) with (Pos.compare m m);
    rewrite Pos.compare_refl; reflexivity.
Qed.

Lemma fle_refl_finite (a : float) : fle a a.
Proof.
  unfold fle, sf_le. destruct (sf_is_nan (Prim2SF a)) eqn:N; [left; reflexivity|].
  right. right. apply SFleb_refl, N.
Qed.

Lemma fle_add_l (x x' y : float) : fle x x' -> fle (x + y) (x' + y).
Proof.
  unfold fle. rewrite !add_spec. apply SFadd_mono_l; apply Prim2SF_valid.
Qed.

Lemma fle_add_r (x y y' : float) : fle y y' -> fle (x + y) (x + y').
Proof.
  unfold fle. rewrite !add_spec. apply SFadd_mono_r; apply Prim2SF_valid.
Qed.

Lemma fle_mul_const (c : float) (mc : positive) (ec : Z) (x x' : float) :
  Prim2SF c = S754_finite false mc ec ->
  Zdigits2 (Zpos mc) = 53 ->
  fle x x' -> fle (x * c) (x' * c).
Proof.
  intros Hc Hd. unfold fle. rewrite !mul_spec, Hc.
  apply SFmul_mono; try apply Prim2SF_valid. exact Hd.
Qed.

Lemma Prim2SF_two : Prim2SF 2 = sf_two.
Proof. reflexivity. Qed.

Lemma fle_div_two (x x' : float) : fle x x' -> fle (x / 2) (x' / 2).
Proof.
  unfold fle. rewrite !div_spec, Prim2SF_two.
  apply SFdiv_two_mono; apply Prim2SF_valid.
Qed.

Lemma Prim2SF_one : Prim2SF 1 = sf_one.
Proof. reflexivity. Qed.

Lemma sf_one_valid : valid_binary sf_one = true.
Proof. reflexivity. Qed.

Lemma SFcompare_some (a b : spec_float) :
  sf_is_nan a = false -> sf_is_nan b = false -> SFcompare a b <> None.
Proof.
  destruct a as [|[]| |[]], b as [|[]| |[]]; simpl; try discriminate.
Qed.

Lemma sf_total_one (b : spec_float) :
  sf_is_nan b = false -> SFltb sf_one b = false -> SFleb b sf_one = true.
Proof.
  intros N. unfold SFltb, SFleb.
  rewrite (SFcompare_antisym sf_one b).
  pose proof (SFcompare_some sf_one b eq_refl N).
  destruct (SFcompare sf_one b) as [[]|]; simpl; congruence.
Qed.

Lemma sf_lt_le_trans_one (b c : spec_float) :
  valid_binary b = true -> valid_binary c = true ->
  SFltb sf_one b = true -> SFleb b c = true -> SFltb sf_one c = true.
Proof.
  intros Vb Vc L1 L2.
  destruct (sf_is_fin b) eqn:Fb; destruct (sf_is_fin c) eqn:Fc.
  - apply SFltb_finite in L1; try assumption; try reflexivity.
    apply SFleb_finite in L2; try assumption.
    apply SFltb_finite; try assumption; try reflexivity. lra.
  - destruct c as [|[]| |]; try discriminate.
    + destruct b as [|[]| |[]]; discriminate.
    + reflexivity.
    + destruct b as [|[]| |[]]; discriminate.
  - destruct b as [|[]| |]; try discriminate.
    destruct c as [|[]| |[]]; discriminate.
  - destruct b as [|[]| |]; try discriminate;
      destruct c as [|[]| |]; try discriminate; reflexivity.
Qed.

Lemma fle_min1 (x x' : float) : fle x x' -> fle (py_min x 1) (py_min x' 1).
Proof.
  unfold py_min. rewrite !ltb_spec, Prim2SF_one. intros H.
  pose proof (Prim2SF_valid x) as Vx. pose proof (Prim2SF_valid x') as Vx'.
  destruct (SFltb sf_one (Prim2SF x)) eqn:L;
    destruct (SFltb sf_one (Prim2SF x')) eqn:L'.
  - apply fle_refl_finite.
  - unfold fle in *. destruct H as [N|[N|H]].
    + destruct (Prim2SF x); discriminate.
    + right. left. exact N.
    + rewrite (sf_lt_le_trans_one _ _ Vx Vx' L H) in L'. discriminate.
  - unfold fle in *. rewrite Prim2SF_one.
    destruct (sf_is_nan (Prim2SF x)) eqn:N; [left; exact N|].
    right. right. apply sf_total_one; assumption.
  - exact H.
Qed.

Lemma fle_ltb (p p' : float) : fle p p' -> (p' <? p)%float = false.
Proof.
  unfold fle. rewrite ltb_spec. unfold SFltb, sf_le, SFleb.
  rewrite (SFcompare_antisym (Prim2SF p) (Prim2SF p')).
  intros [N|[N|L]].
  - destruct (Prim2SF p); try discriminate. reflexivity.
  - destruct (Prim2SF p'); try discriminate.
    destruct (Prim2SF p); reflexivity.
  - destruct (SFcompare (Prim2SF p) (Prim2SF p')) as [[]|]; simpl;
      congruence.
Qed.

Lemma fle_leb (p p' : float) :
  fle p p' -> sf_is_nan (Prim2SF p) = false -> sf_is_nan (Prim2SF p') = false ->
  (p <=? p')%float = true.
Proof.
  unfold fle. rewrite leb_spec. intros [N|[N|L]]; congruence.
Qed.



(** ** Ints as floats *)

Lemma Zcompare_IZR (a b : Z) : cmp_spec (Some (a ?= b)) (IZR a) (IZR b).
Proof.
  destruct (Z.compare_spec a b) as [->|H|H]; simpl;
    [reflexivity|apply IZR_lt, H|apply IZR_lt, H].
Qed.

Lemma Zcompare_F2R (a b e : Z) : cmp_spec (Some (a ?= b)) (F2R a e) (F2R b e).
Proof.
  destruct (Z.compare_spec a b) as [->|H|H]; simpl;
    [reflexivity|apply F2R_lt, H|apply F2R_lt, H].
Qed.

Lemma cond_Zopp_mul (s : bool) (a b : Z) :
  cond_Zopp s (a * b) = cond_Zopp s a * b.
Proof. destruct s; simpl; lia. Qed.

Lemma cmp_Z_sf_spec (z : Z) (sf : spec_float) :
  sf_is_fin sf = true -> cmp_spec (cmp_Z_sf z sf) (IZR z) (SF2R sf).
Proof.
  destruct sf as [s|s| |s m e]; try discriminate; intros _.
  - apply Zcompare_IZR.
  - cbn [cmp_Z_sf SF2R]. destruct (Z.leb_spec 0 e) as [H|H].
    + rewrite cond_Zopp_mul.
      replace (F2R (cond_Zopp s (Zpos m)) e)
        with (IZR (cond_Zopp s (Zpos m) * 2 ^ e)).
      * apply Zcompare_IZR.
      * rewrite <- F2R_1, F2R_shift by lia. reflexivity.
    + replace (IZR z) with (F2R (z * 2 ^ (- e)) e).
      * apply Zcompare_F2R.
      * rewrite F2R_shift by lia. replace (e + - e) with 0 by lia.
        apply F2R_1.
Qed.

Lemma Rounds_of_Z (z : Z) :
  Rounds (IZR z) (binary_normalize prec emax z 0 false).
Proof. rewrite <- F2R_1. apply Rounds_normalize. Qed.

Lemma float_of_Z_Prim2SF (z : Z) (f : float) :
  float_of_Z z = Ok f -> Prim2SF f = binary_normalize prec emax z 0 false.
Proof.
  unfold float_of_Z. intros H.
  pose proof (proj1 (Rounds_valid _ _ (Rounds_of_Z z))) as V.
  destruct (binary_normalize prec emax z 0 false) as [s|s| |s m e];
    try discriminate; injection H as <-; exact (Prim2SF_SF2Prim _ V).
Qed.

Lemma SFround_fin_small (s : bool) (N c : Z) : 0 < N ->
  Zdigits2 N + c <= 1023 -> sf_is_inf (SFround s N c) = false.
Proof.
  intros HN Hd. destruct (sf_is_inf (SFround s N c)) eqn:E; [|reflexivity].
  exfalso. apply (SFround_inf_iff s N c HN) in E.
  pose proof (rnd_m_upper N c HN) as U.
  assert (HE : rnd_e N c <= 970) by (unfold rnd_e, fexp64; lia).
  apply Rle_not_lt in E. apply E.
  apply Rle_lt_trans with (F2R (2 ^ 53) (rnd_e N c)); [apply F2R_le, U|].
  rewrite F2R_pow by lia. apply bpow_lt. lia.
Qed.

Lemma Zdigits2_le (n d : Z) : 0 < n -> 0 <= d -> n < 2 ^ d -> Zdigits2 n <= d.
Proof.
  intros Hn Hd H. pose proof (Zdigits2_bounds n Hn) as [L _].
  destruct (Z_lt_le_dec d (Zdigits2 n)); [|lia].
  assert (2 ^ d <= 2 ^ (Zdigits2 n - 1)) by (apply Z.pow_le_mono_r; lia). lia.
Qed.

Lemma normalize_not_inf (z : Z) : Z.abs z < 2 ^ 1023 ->
  sf_is_inf (binary_normalize prec emax z 0 false) = false.
Proof.
  intros H. rewrite binary_normalize_spec. destruct z as [|p|p].
  - reflexivity.
  - apply SFround_fin_small; [lia|].
    pose proof (Zdigits2_le (Zpos p) 1023 ltac:(lia) ltac:(lia) H). lia.
  - apply SFround_fin_small; [lia|].
    pose proof (Zdigits2_le (Zpos p) 1023 ltac:(lia) ltac:(lia) H). lia.
Qed.

Lemma float_of_Z_defined (z : Z) : Z.abs z < 2 ^ 1023 ->
  exists f, float_of_Z z = Ok f.
Proof.
  intros H. pose proof (normalize_not_inf z H) as I. unfold float_of_Z.
  destruct (binary_normalize prec emax z 0 false) as [s|s| |s m e];
    try discriminate; eexists; reflexivity.
Qed.

Lemma rnd_exact_small (N : Z) : 0 < N -> N <= 2 ^ 53 ->
  F2R (rnd_m N 0) (rnd_e N 0) = F2R N 0.
Proof.
  intros H0 H. destruct (Z.eq_dec N (2 ^ 53)) as [->|NE].
  - change (rnd_e (2 ^ 53) 0) with (0 + 1).
    replace (rnd_m (2 ^ 53) 0) with (2 ^ 52) by (vm_compute; reflexivity).
    apply (F2R_carry false 0).
  - pose proof (Zdigits2_le53 N H0 ltac:(lia)) as D.
    pose proof (Zdigits2_pos N H0) as P.
    unfold rnd_m. set (E := rnd_e N 0).
    assert (HE : E <= 0) by (unfold E, rnd_e, fexp64; lia).
    rewrite rne_at_exact, F2R_shift by lia. f_equal. lia.
Qed.

Lemma normalize_exact (z : Z) : Z.abs z <= 2 ^ 53 ->
  SF2R (binary_normalize prec emax z 0 false) = IZR z /\
  sf_is_fin (binary_normalize prec emax z 0 false) = true.
Proof.
  intros H.
  assert (B : Z.abs z < 2 ^ 1023).
  { assert (2 ^ 53 < 2 ^ 1023) by (apply Z.pow_lt_mono_r; lia). lia. }
  pose proof (normalize_not_inf z B) as I.
  pose proof (proj2 (Rounds_valid _ _ (Rounds_of_Z z))) as Nn.
  split; [|apply sf_fin_of_not_inf; assumption].
  rewrite binary_normalize_spec in *. destruct z as [|p|p].
  - reflexivity.
  - rewrite SFround_value by (assumption || lia). cbn [cond_Zopp].
    rewrite rnd_exact_small by lia. apply F2R_1.
  - rewrite SFround_value by (assumption || lia). cbn [cond_Zopp].
    rewrite F2R_opp, rnd_exact_small by lia. rewrite F2R_1.
    change (Zneg p) with (- Zpos p). rewrite opp_IZR. reflexivity.
Qed.

Lemma pow53_lt_1023 : 2 ^ 54 < 2 ^ 1023.
Proof. apply Z.pow_lt_mono_r; lia. Qed.

Lemma pow53_54 : 2 ^ 54 = 2 * 2 ^ 53.
Proof. reflexivity. Qed.

Lemma to_float_plain (x : num) : plain_num x -> exists f, to_float x = Ok f.
Proof.
  destruct x as [z|f]; simpl; intros H; [|eexists; reflexivity].
  apply float_of_Z_defined. pose proof pow53_lt_1023. pose proof pow53_54. lia.
Qed.

Lemma num_sum_plain (x y : num) :
  plain_num x -> plain_num y -> exists u, num_sum x y = Ok u.
Proof.
  intros Hx Hy.
  destruct (to_float_plain x Hx) as [fx Ex].
  destruct (to_float_plain y Hy) as [fy Ey].
  destruct x as [a|f], y as [b|g]; unfold num_sum; rewrite ?Ex, ?Ey;
    try (eexists; reflexivity).
  apply float_of_Z_defined. simpl in Hx, Hy.
  pose proof pow53_lt_1023. pose proof pow53_54. lia.
Qed.

Lemma fle_of_SFleb (a b : float) :
  SFleb (Prim2SF a) (Prim2SF b) = true -> fle a b.
Proof. intros H. right. right. exact H. Qed.

Lemma SFltb_SFleb (a b : spec_float) : SFltb a b = true -> SFleb a b = true.
Proof.
  unfold SFltb, SFleb. destruct (SFcompare a b) as [[]|]; congruence.
Qed.

Lemma fle_of_ltb (a b : float) : (a <? b)%float = true -> fle a b.
Proof. rewrite ltb_spec. intros H. apply fle_of_SFleb, SFltb_SFleb, H. Qed.

Lemma fle_int_int (a b : Z) (fa fb : float) :
  float_of_Z a = Ok fa -> float_of_Z b = Ok fb -> a <= b -> fle fa fb.
Proof.
  intros Ha Hb H. apply fle_of_SFleb.
  rewrite (float_of_Z_Prim2SF _ _ Ha), (float_of_Z_Prim2SF _ _ Hb).
  apply (Rounds_mono _ _ _ _ (Rounds_of_Z a) (Rounds_of_Z b)).
  apply IZR_le, H.
Qed.

Lemma Prim2SF_not_nan_of_Z (a : Z) (fa : float) :
  float_of_Z a = Ok fa -> sf_is_nan (Prim2SF fa) = false.
Proof.
  intros Ha. rewrite (float_of_Z_Prim2SF _ _ Ha).
  apply (Rounds_valid _ _ (Rounds_of_Z a)).
Qed.

Lemma fle_int_float (a : Z) (fa g : float) :
  float_of_Z a = Ok fa -> cmp_Z_sf a (Prim2SF g) = Some Lt -> fle fa g.
Proof.
  intros Ha C. apply fle_of_SFleb.
  pose proof (Prim2SF_not_nan_of_Z a fa Ha) as Nn.
  pose proof (Prim2SF_valid g) as Vg.
  destruct (sf_is_fin (Prim2SF g)) eqn:F.
  - pose proof (cmp_Z_sf_spec a _ F) as S. rewrite C in S. simpl in S.
    rewrite (float_of_Z_Prim2SF _ _ Ha).
    apply (Rounds_mono _ _ _ _ (Rounds_of_Z a) (Rounds_id _ Vg F)). lra.
  - destruct (Prim2SF g) as [|[]| |]; try discriminate.
    apply SFleb_pinf, Nn.
Qed.

Lemma fle_float_int (b : Z) (f fb : float) :
  float_of_Z b = Ok fb -> cmp_Z_sf b (Prim2SF f) = Some Gt -> fle f fb.
Proof.
  intros Hb C. apply fle_of_SFleb.
  pose proof (Prim2SF_not_nan_of_Z b fb Hb) as Nn.
  pose proof (Prim2SF_valid f) as Vf.
  destruct (sf_is_fin (Prim2SF f)) eqn:F.
  - pose proof (cmp_Z_sf_spec b _ F) as S. rewrite C in S. simpl in S.
    rewrite (float_of_Z_Prim2SF _ _ Hb).
    apply (Rounds_mono _ _ _ _ (Rounds_id _ Vf F) (Rounds_of_Z b)). lra.
  - destruct (Prim2SF f) as [|[]| |]; try discriminate.
    apply SFleb_ninf, Nn.
Qed.

Lemma add_comm_float (x y : float) : (x + y)%float = (y + x)%float.
Proof. apply Prim2SF_inj. rewrite !add_spec. apply SFadd_comm. Qed.

Lemma num_sum_comm (x y : num) : num_sum x y = num_sum y x.
Proof.
  destruct x as [a|f], y as [b|g]; unfold num_sum; simpl.
  - rewrite Z.add_comm. reflexivity.
  - destruct (float_of_Z a); simpl; [rewrite add_comm_float|]; reflexivity.
  - destruct (float_of_Z b); simpl; [rewrite add_comm_float|]; reflexivity.
  - rewrite add_comm_float. reflexivity.
Qed.

Lemma num_sum_mono_l (x x' y : num) (u u' : float) :
  plain_num y ->
  num_lt x x' = true ->
  num_sum x y = Ok u -> num_sum x' y = Ok u' -> fle u u'.
Proof.
  intros Py L Hu Hu'.
  destruct x as [a|f], x' as [a'|f'], y as [b|g]; unfold num_sum in Hu, Hu';
    simpl in L, Hu, Hu'.
  - apply (fle_int_int _ _ _ _ Hu Hu'). apply Z.ltb_lt in L. lia.
  - destruct (float_of_Z a) as [fa|] eqn:Ea; [|discriminate].
    destruct (float_of_Z a') as [fa'|] eqn:Ea'; [|discriminate].
    simpl in Hu, Hu'. injection Hu as <-. injection Hu' as <-.
    apply fle_add_l, (fle_int_int _ _ _ _ Ea Ea'). apply Z.ltb_lt in L. lia.
  - (* int -> float, partner int *)
    destruct (float_of_Z b) as [fb|] eqn:Eb; [|discriminate].
    simpl in Hu'. injection Hu' as <-.
    destruct (normalize_exact b Py) as [Xb Fb].
    rewrite <- (float_of_Z_Prim2SF _ _ Eb) in Xb, Fb.
    destruct (cmp_Z_sf a (Prim2SF f')) as [[]|] eqn:C; try discriminate.
    apply fle_of_SFleb. rewrite (float_of_Z_Prim2SF _ _ Hu), add_spec.
    pose proof (Prim2SF_valid f') as Vf. pose proof (Prim2SF_valid fb) as Vb.
    destruct (sf_is_fin (Prim2SF f')) eqn:F.
    + pose proof (cmp_Z_sf_spec a _ F) as S. rewrite C in S. simpl in S.
      apply (Rounds_mono _ _ _ _ (Rounds_of_Z (a + b))
               (SFadd_fin _ _ Vf Vb F Fb)).
      rewrite plus_IZR, Xb. lra.
    + destruct (Prim2SF f') as [|[]| |]; try discriminate.
      replace (SF64add (S754_infinity false) (Prim2SF fb))
        with (S754_infinity false)
        by (destruct (Prim2SF fb) as [|[]| |]; try discriminate; reflexivity).
      apply SFleb_pinf, (Rounds_valid _ _ (Rounds_of_Z (a + b))).
  - destruct (float_of_Z a) as [fa|] eqn:Ea; [|discriminate].
    simpl in Hu, Hu'. injection Hu as <-. injection Hu' as <-.
    destruct (cmp_Z_sf a (Prim2SF f')) as [[]|] eqn:C; try discriminate.
    apply fle_add_l, (fle_int_float _ _ _ Ea C).
  - (* float -> int, partner int *)
    destruct (float_of_Z b) as [fb|] eqn:Eb; [|discriminate].
    simpl in Hu. injection Hu as <-.
    destruct (normalize_exact b Py) as [Xb Fb].
    rewrite <- (float_of_Z_Prim2SF _ _ Eb) in Xb, Fb.
    destruct (cmp_Z_sf a' (Prim2SF f)) as [[]|] eqn:C; try discriminate.
    apply fle_of_SFleb. rewrite (float_of_Z_Prim2SF _ _ Hu'), add_spec.
    pose proof (Prim2SF_valid f) as Vf. pose proof (Prim2SF_valid fb) as Vb.
    destruct (sf_is_fin (Prim2SF f)) eqn:F.
    + pose proof (cmp_Z_sf_spec a' _ F) as S. rewrite C in S. simpl in S.
      apply (Rounds_mono _ _ _ _ (SFadd_fin _ _ Vf Vb F Fb)
               (Rounds_of_Z (a' + b))).
      rewrite plus_IZR, Xb. lra.
    + destruct (Prim2SF f) as [|[]| |]; try discriminate.
      replace (SF64add (S754_infinity true) (Prim2SF fb))
        with (S754_infinity true)
        by (destruct (Prim2SF fb) as [|[]| |]; try discriminate; reflexivity).
      apply SFleb_ninf, (Rounds_valid _ _ (Rounds_of_Z (a' + b))).
  - destruct (float_of_Z a') as [fa'|] eqn:Ea'; [|discriminate].
    simpl in Hu, Hu'. injection Hu as <-. injection Hu' as <-.
    destruct (cmp_Z_sf a' (Prim2SF f)) as [[]|] eqn:C; try discriminate.
    apply fle_add_l, (fle_float_int _ _ _ Ea' C).
  - destruct (float_of_Z b) as [fb|] eqn:Eb; [|discriminate].
    simpl in Hu, Hu'. injection Hu as <-. injection Hu' as <-.
    apply fle_add_l, fle_of_ltb, L.
  - injection Hu as <-. injection Hu' as <-.
    apply fle_add_l, fle_of_ltb, L.
Qed.

Lemma num_sum_mono_r (x y y' : num) (u u' : float) :
  plain_num x ->
  num_lt y y' = true ->
  num_sum x y = Ok u -> num_sum x y' = Ok u' -> fle u u'.
Proof.
  intros Px L. rewrite (num_sum_comm x y), (num_sum_comm x y').
  apply num_sum_mono_l; assumption.
Qed.

(** ** The score *)

Lemma pair_term_comm (a b : pyval) (c : float) :
  pair_term a b c = pair_term b a c.
Proof.
  destruct (as_num a) as [x|] eqn:Ea.
  - destruct (as_num b) as [y|] eqn:Eb.
    + rewrite (pair_term_num a b c x y Ea Eb), (pair_term_num b a c y x Eb Ea).
      rewrite num_sum_comm. reflexivity.
    + rewrite !pair_term_not_num by auto. reflexivity.
  - rewrite !pair_term_not_num by auto. reflexivity.
Qed.

Lemma Prim2SF_half : Prim2SF 0.5 = S754_finite false 4503599627370496 (-53).
Proof. reflexivity. Qed.

Lemma Prim2SF_twentieth :
  Prim2SF 0.05 = S754_finite false 7205759403792794 (-57).
Proof. reflexivity. Qed.

Lemma Prim2SF_hundredth :
  Prim2SF 0.01 = S754_finite false 5764607523034235 (-59).
Proof. reflexivity. Qed.

Lemma coefficient_half : coefficient 0.5.
Proof. eexists _, _. split; [apply Prim2SF_half|reflexivity]. Qed.

Lemma coefficient_twentieth : coefficient 0.05.
Proof. eexists _, _. split; [apply Prim2SF_twentieth|reflexivity]. Qed.

Lemma coefficient_hundredth : coefficient 0.01.
Proof. eexists _, _. split; [apply Prim2SF_hundredth|reflexivity]. Qed.

Lemma pair_term_plain (a b : pyval) (c : float) :
  plain a -> plain b -> exists t, pair_term a b c = Ok t.
Proof.
  unfold plain. intros Pa Pb.
  destruct (as_num a) as [x|] eqn:Ea; [|contradiction].
  destruct (as_num b) as [y|] eqn:Eb; [|contradiction].
  rewrite (pair_term_num a b c x y Ea Eb).
  destruct (num_sum_plain x y Pa Pb) as [u ->]. eexists. reflexivity.
Qed.

Lemma pair_term_mono_l (a a' b : pyval) (c t t' : float) :
  coefficient c -> plain b -> py_lt a a' = true ->
  pair_term a b c = Ok t -> pair_term a' b c = Ok t' -> fle t t'.
Proof.
  intros (mc & ec & Hc & Hd) Pb L. unfold plain, py_lt in *.
  destruct (as_num a) as [x|] eqn:Ea; [|discriminate].
  destruct (as_num a') as [x'|] eqn:Ea'; [|discriminate].
  destruct (as_num b) as [y|] eqn:Eb; [|contradiction].
  rewrite (pair_term_num a b c x y Ea Eb), (pair_term_num a' b c x' y Ea' Eb).
  destruct (num_sum x y) as [u|] eqn:Eu; [|discriminate].
  destruct (num_sum x' y) as [u'|] eqn:Eu'; [|discriminate].
  cbn [rbind]. intros H H'. injection H as <-. injection H' as <-.
  apply (fle_mul_const c mc ec _ _ Hc Hd).
  apply (num_sum_mono_l x x' y u u' Pb L Eu Eu').
Qed.

Lemma pair_term_mono_r (a b b' : pyval) (c t t' : float) :
  coefficient c -> plain a -> py_lt b b' = true ->
  pair_term a b c = Ok t -> pair_term a b' c = Ok t' -> fle t t'.
Proof.
  intros Hc Pa L. rewrite (pair_term_comm a b), (pair_term_comm a b').
  apply pair_term_mono_l; assumption.
Qed.


Lemma fle_score_1 (t1 t1' t2 t3 : float) : fle t1 t1' ->
  (py_min ((t1' + t2 + t3) / 2) 1 <? py_min ((t1 + t2 + t3) / 2) 1)%float
  = false.
Proof.
  intros H. apply fle_ltb, fle_min1, fle_div_two, fle_add_l, fle_add_l, H.
Qed.

Lemma fle_score_2 (t1 t2 t2' t3 : float) : fle t2 t2' ->
  (py_min ((t1 + t2' + t3) / 2) 1 <? py_min ((t1 + t2 + t3) / 2) 1)%float
  = false.
Proof.
  intros H. apply fle_ltb, fle_min1, fle_div_two, fle_add_l, fle_add_r, H.
Qed.

Lemma fle_score_3 (t1 t2 t3 t3' : float) : fle t3 t3' ->
  (py_min ((t1 + t2 + t3') / 2) 1 <? py_min ((t1 + t2 + t3) / 2) 1)%float
  = false.
Proof.
  intros H. apply fle_ltb, fle_min1, fle_div_two, fle_add_r, H.
Qed.

(** X1. When the six fields are floats, or ints and bools of magnitude at most
    [2^53], and one of them is replaced by a greater such value, both
    computations return and the new probability is not less than the old
    one (the comparison [p' < p] is false; a NaN, which opposite infinities
    give, compares false). *)
Theorem probability_monotone (r : field -> pyval) (i : field) (v : pyval) :
  (forall j, plain (r j)) -> plain v -> py_lt (r i) v = true ->
  exists p p',
    compute_goal_probability (stats_of r) = Ok p /\
    compute_goal_probability (stats_of (with_field r i v)) = Ok p' /\
    (p' <? p)%float = false.
Proof.
  intros Pr Pv L. rewrite !compute_pairs_of.
  destruct (pair_term_plain (r XgHome) (r XgAway) 0.5 (Pr _) (Pr _))
    as [t1 E1].
  destruct (pair_term_plain (r ShotsHome) (r ShotsAway) 0.05 (Pr _) (Pr _))
    as [t2 E2].
  destruct (pair_term_plain (r AttacksHome) (r AttacksAway) 0.01 (Pr _) (Pr _))
    as [t3 E3].
  destruct i; cbn [with_field field_eqb]; rewrite ?E1, ?E2, ?E3.
  - destruct (pair_term_plain v (r XgAway) 0.5 Pv (Pr _)) as [t' E'].
    rewrite E'. cbn [rbind].
    eexists _, _. split; [reflexivity|]. split; [reflexivity|].
    apply fle_score_1.
    exact (pair_term_mono_l _ _ _ _ _ _ coefficient_half (Pr _) L E1 E').
  - destruct (pair_term_plain (r XgHome) v 0.5 (Pr _) Pv) as [t' E'].
    rewrite E'. cbn [rbind].
    eexists _, _. split; [reflexivity|]. split; [reflexivity|].
    apply fle_score_1.
    exact (pair_term_mono_r _ _ _ _ _ _ coefficient_half (Pr _) L E1 E').
  - destruct (pair_term_plain v (r ShotsAway) 0.05 Pv (Pr _)) as [t' E'].
    rewrite E'. cbn [rbind].
    eexists _, _. split; [reflexivity|]. split; [reflexivity|].
    apply fle_score_2.
    exact (pair_term_mono_l _ _ _ _ _ _ coefficient_twentieth (Pr _) L E2 E').
  - destruct (pair_term_plain (r ShotsHome) v 0.05 (Pr _) Pv) as [t' E'].
    rewrite E'. cbn [rbind].
    eexists _, _. split; [reflexivity|]. split; [reflexivity|].
    apply fle_score_2.
    exact (pair_term_mono_r _ _ _ _ _ _ coefficient_twentieth (Pr _) L E2 E').
  - destruct (pair_term_plain v (r AttacksAway) 0.01 Pv (Pr _)) as [t' E'].
    rewrite E'. cbn [rbind].
    eexists _, _. split; [reflexivity|]. split; [reflexivity|].
    apply fle_score_3.
    exact (pair_term_mono_l _ _ _ _ _ _ coefficient_hundredth (Pr _) L E3 E').
  - destruct (pair_term_plain (r AttacksHome) v 0.01 (Pr _) Pv) as [t' E'].
    rewrite E'. cbn [rbind].
    eexists _, _. split; [reflexivity|]. split; [reflexivity|].
    apply fle_score_3.
    exact (pair_term_mono_r _ _ _ _ _ _ coefficient_hundredth (Pr _) L E3 E').
Qed.

(** X4. The probability does not tell home from away: with the home and the
    away value of each of the three kinds exchanged, the function returns
    the same float, or raises the same exception. *)
Theorem probability_symmetric (r : field -> pyval) :
  compute_goal_probability (stats_of (swap_sides r)) =
  compute_goal_probability (stats_of r).
Proof.
  rewrite !compute_pairs_of. cbn [swap_sides].
  rewrite (pair_term_comm (r XgAway)), (pair_term_comm (r ShotsAway)),
    (pair_term_comm (r AttacksAway)). reflexivity.
Qed.


Lemma SF2R_nonneg (o : spec_float) : nonneg_class o -> (0 <= SF2R o)%R.
Proof.
  destruct o as [s|s| |[] m e]; cbn [SF2R nonneg_class]; try lra;
    try contradiction.
  intros _. apply Rlt_le, F2R_pos. reflexivity.
Qed.

Lemma Rounds_nonneg (r : R) (o : spec_float) :
  Rounds r o -> (0 <= r)%R -> nonneg_class o.
Proof.
  intros [s _ ->|N c H _ ->|N c H E ->] P.
  - exact I.
  - apply (SFround_class false).
  - pose proof (F2R_pos N c H). exfalso. lra.
Qed.

Lemma nonneg_not_nan (o : spec_float) : nonneg_class o -> sf_is_nan o = false.
Proof.
  destruct o; simpl; [reflexivity|reflexivity|contradiction|reflexivity].
Qed.

Lemma SFadd_nonneg (x y : spec_float) :
  valid_binary x = true -> valid_binary y = true ->
  nonneg_class x -> nonneg_class y -> nonneg_class (SF64add x y).
Proof.
  intros Vx Vy Nx Ny.
  destruct (sf_is_fin x) eqn:Fx; destruct (sf_is_fin y) eqn:Fy.
  - apply (Rounds_nonneg _ _ (SFadd_fin x y Vx Vy Fx Fy)).
    pose proof (SF2R_nonneg x Nx). pose proof (SF2R_nonneg y Ny). lra.
  - destruct y as [|[]| |]; try discriminate; try contradiction.
    destruct x as [|[]| |]; try discriminate; exact I.
  - destruct x as [|[]| |]; try discriminate; try contradiction.
    destruct y as [|[]| |]; try discriminate; exact I.
  - destruct x as [|[]| |]; try discriminate; try contradiction.
    destruct y as [|[]| |]; try discriminate; try contradiction. exact I.
Qed.

Lemma SFmul_nonneg (mc : positive) (ec : Z) (x : spec_float) :
  Zdigits2 (Zpos mc) = 53 ->
  valid_binary x = true -> nonneg_class x ->
  nonneg_class (SF64mul x (S754_finite false mc ec)).
Proof.
  intros Hd V N. destruct (sf_is_fin x) eqn:F.
  - apply (Rounds_nonneg _ _ (SFmul_fin mc ec Hd x V F)).
    pose proof (SF2R_nonneg x N). pose proof (SF2R_C_pos mc ec).
    apply Rmult_le_pos; lra.
  - destruct x as [|[]| |]; try discriminate; try contradiction.
    rewrite (SFmul_inf mc ec). exact I.
Qed.

Lemma SFdiv_two_nonneg (x : spec_float) :
  valid_binary x = true -> nonneg_class x ->
  nonneg_class (SF64div x sf_two).
Proof.
  intros V N. destruct (sf_is_fin x) eqn:F.
  - apply (Rounds_nonneg _ _ (SFdiv_two_fin x V F)).
    pose proof (SF2R_nonneg x N). pose proof (bpow_pos (-1)).
    apply Rmult_le_pos; lra.
  - destruct x as [|[]| |]; try discriminate; try contradiction.
    rewrite SFdiv_two_inf. exact I.
Qed.

Lemma fnonneg_of_leb (f : float) : (0 <=? f)%float = true -> fnonneg f.
Proof.
  rewrite leb_spec. unfold fnonneg.
  change (Prim2SF 0) with (S754_zero false).
  destruct (Prim2SF f) as [|[]| |[]]; simpl; try discriminate; auto.
Qed.

Lemma fnonneg_add (x y : float) : fnonneg x -> fnonneg y -> fnonneg (x + y).
Proof.
  unfold fnonneg. rewrite add_spec. apply SFadd_nonneg; apply Prim2SF_valid.
Qed.

Lemma fnonneg_mul (c x : float) : coefficient c -> fnonneg x -> fnonneg (x * c).
Proof.
  intros (mc & ec & Hc & Hd). unfold fnonneg. rewrite mul_spec, Hc.
  apply SFmul_nonneg; [exact Hd|apply Prim2SF_valid].
Qed.

Lemma fnonneg_div_two (x : float) : fnonneg x -> fnonneg (x / 2).
Proof.
  unfold fnonneg. rewrite div_spec, Prim2SF_two.
  apply SFdiv_two_nonneg, Prim2SF_valid.
Qed.

Lemma fnonneg_min1 (x : float) : fnonneg x ->
  (0 <=? py_min x 1)%float = true /\ (py_min x 1 <=? 1)%float = true.
Proof.
  unfold fnonneg, py_min. intros N.
  destruct (1 <? x)%float eqn:E; [split; reflexivity|].
  rewrite !leb_spec. rewrite ltb_spec, Prim2SF_one in E. rewrite Prim2SF_one.
  split.
  - apply SFleb_nonpos_nonneg; [exact I|exact N].
  - apply sf_total_one; [apply nonneg_not_nan, N|exact E].
Qed.

Lemma pow1022 : 2 * 2 ^ 1022 = 2 ^ 1023.
Proof.
  change 1023 with (Z.succ 1022). rewrite Z.pow_succ_r by lia. reflexivity.
Qed.

Lemma float_of_Z_nonneg (z : Z) : 0 <= z < 2 ^ 1023 ->
  exists f, float_of_Z z = Ok f /\ fnonneg f.
Proof.
  intros H. destruct (float_of_Z_defined z ltac:(lia)) as [f E].
  exists f. split; [exact E|]. unfold fnonneg.
  rewrite (float_of_Z_Prim2SF _ _ E).
  apply (Rounds_nonneg _ _ (Rounds_of_Z z)). apply IZR_le. lia.
Qed.

Lemma to_float_nonneg (x : num) : nonneg_num x ->
  exists f, to_float x = Ok f /\ fnonneg f.
Proof.
  destruct x as [z|f]; cbn [to_float nonneg_num]; intros H.
  - apply float_of_Z_nonneg. pose proof pow1022. lia.
  - exists f. split; [reflexivity|apply fnonneg_of_leb, H].
Qed.

Lemma num_sum_nonneg (x y : num) : nonneg_num x -> nonneg_num y ->
  exists u, num_sum x y = Ok u /\ fnonneg u.
Proof.
  intros Hx Hy.
  destruct (to_float_nonneg x Hx) as (fx & Ex & Nx).
  destruct (to_float_nonneg y Hy) as (fy & Ey & Ny).
  destruct x as [a|f], y as [b|g]; unfold num_sum; rewrite ?Ex, ?Ey;
    cbn [rbind];
    try (eexists; split; [reflexivity|apply fnonneg_add; assumption]).
  apply float_of_Z_nonneg. cbn [nonneg_num] in Hx, Hy. pose proof pow1022. lia.
Qed.

Lemma pair_term_nonneg (a b : pyval) (c : float) :
  coefficient c -> small_nonneg a -> small_nonneg b ->
  exists t, pair_term a b c = Ok t /\ fnonneg t.
Proof.
  intros Hc Ha Hb. unfold small_nonneg in *.
  destruct (as_num a) as [x|] eqn:Ea; [|contradiction].
  destruct (as_num b) as [y|] eqn:Eb; [|contradiction].
  rewrite (pair_term_num a b c x y Ea Eb).
  destruct (num_sum_nonneg x y) as (u & -> & Nu).
  - destruct x; exact Ha.
  - destruct y; exact Hb.
  - cbn [rbind]. eexists. split; [reflexivity|apply fnonneg_mul; assumption].
Qed.

Lemma score_in_unit_interval (t1 t2 t3 : float) :
  fnonneg t1 -> fnonneg t2 -> fnonneg t3 ->
  (0 <=? py_min ((t1 + t2 + t3) / 2) 1)%float = true /\
  (py_min ((t1 + t2 + t3) / 2) 1 <=? 1)%float = true.
Proof.
  intros N1 N2 N3.
  apply fnonneg_min1, fnonneg_div_two, fnonneg_add; [|exact N3].
  apply fnonneg_add; assumption.
Qed.

(** X2. When every field is a float that is not less than 0, or an int or
    bool from 0 to below [2^1022], the function returns a probability [p]
    with [0 <= p] and [p <= 1]. *)
Theorem probability_in_unit_interval (r : field -> pyval) :
  (forall j, small_nonneg (r j)) ->
  exists p, compute_goal_probability (stats_of r) = Ok p /\
            (0 <=? p)%float = true /\ (p <=? 1)%float = true.
Proof.
  intros H. rewrite compute_pairs_of.
  destruct (pair_term_nonneg (r XgHome) (r XgAway) 0.5 coefficient_half
              (H _) (H _)) as (t1 & -> & N1).
  destruct (pair_term_nonneg (r ShotsHome) (r ShotsAway) 0.05
              coefficient_twentieth (H _) (H _)) as (t2 & -> & N2).
  destruct (pair_term_nonneg (r AttacksHome) (r AttacksAway) 0.01
              coefficient_hundredth (H _) (H _)) as (t3 & -> & N3).
  cbn [rbind]. eexists. split; [reflexivity|].
  apply score_in_unit_interval; assumption.
Qed.

(** X19. When every shots and attacks entry of a statistics response has
    a value that is absent or a count from 0 to below [2^1022], and every
    xG entry a value that [float] converts to a float not less than 0, the
    stats that the extraction leaves are scored without an exception, and
    the probability [p] has [0 <= p] and [p <= 1]. *)
Theorem statistics_in_range_give_a_probability
    (parse_float : string -> option float) (teams stats_response : pyval)
    (x : extracted) :
  extract_stats parse_float teams stats_response = Ok x ->
  (forall b s, In b (response_blocks stats_response) ->
               In s (block_entries b) -> entry_in_range parse_float s) ->
  exists p, compute_goal_probability (real_stats x) = Ok p /\
            (0 <=? p)%float = true /\ (p <=? 1)%float = true.
Proof.
  intros X R.
  pose proof (extract_stats_in_range parse_float teams stats_response x R X)
    as H.
  change (real_stats x) with (stats_of (fields_of x)).
  rewrite compute_pairs_of. cbn [fields_of].
  destruct (pair_term_nonneg (xg_home x) (xg_away x) 0.5 coefficient_half
              (H XgHome) (H XgAway)) as (t1 & -> & N1).
  destruct (pair_term_nonneg (shots_home x) (shots_away x) 0.05
              coefficient_twentieth (H ShotsHome) (H ShotsAway))
    as (t2 & -> & N2).
  destruct (pair_term_nonneg (attacks_home x) (attacks_away x) 0.01
              coefficient_hundredth (H AttacksHome) (H AttacksAway))
    as (t3 & -> & N3).
  cbn [rbind]. eexists. split; [reflexivity|].
  apply score_in_unit_interval; assumption.
Qed.

Lemma SFround_huge : SFround false (2 ^ 1024) 0 = S754_infinity false.
Proof. vm_compute. reflexivity. Qed.

Lemma SFround_overflow (s : bool) (N : Z) : 2 ^ 1024 <= N ->
  SFround s N 0 = S754_infinity s.
Proof.
  intros H.
  assert (P : 0 < 2 ^ 1024) by (apply pow2_pos; lia).
  assert (E : SFround false N 0 = S754_infinity false).
  { pose proof (SFround_pos_le (2 ^ 1024) 0 N 0 P ltac:(lia)
                  ltac:(apply F2R_le; exact H)) as L.
    rewrite SFround_huge in L.
    pose proof (SFround_class false N 0) as C.
    destruct (SFround false N 0) as [|[]| |[]]; simpl in L, C;
      try discriminate; try contradiction; reflexivity. }
  destruct s; [|exact E]. rewrite SFround_opp, E. reflexivity.
Qed.

Lemma float_of_Z_overflow (z : Z) : 2 ^ 1024 <= Z.abs z ->
  float_of_Z z = Raise OverflowError.
Proof.
  intros H. unfold float_of_Z. rewrite binary_normalize_spec.
  assert (P : 0 < 2 ^ 1024) by (apply pow2_pos; lia).
  destruct z as [|p|p]; [simpl in H; lia| |];
    rewrite SFround_overflow by (simpl in H; lia); reflexivity.
Qed.

(** X3. Two int xG fields whose sum has a magnitude of [2^1024] or more make
    the function raise [OverflowError]: the sum is an int that no float
    holds, and the multiplication by 0.5 converts it. *)
Theorem huge_int_sum_overflows (r : field -> pyval) (a b : Z) :
  as_num (r XgHome) = Some (NInt a) -> as_num (r XgAway) = Some (NInt b) ->
  2 ^ 1024 <= Z.abs (a + b) ->
  compute_goal_probability (stats_of r) = Raise OverflowError.
Proof.
  intros Ea Eb H. rewrite compute_pairs_of.
  rewrite (pair_term_num _ _ _ _ _ Ea Eb). unfold num_sum.
  rewrite (float_of_Z_overflow _ H). reflexivity.
Qed.

(** ** Intervals that the sleep accepts *)

Lemma sleepable_below (seconds : Z) : seconds < 2 ^ 1023 -> sleepable seconds.
Proof.
  intros H. destruct (Z_le_gt_dec seconds 0) as [L|G]; [left; exact L|].
  right. apply float_of_Z_defined. rewrite Z.abs_eq by lia. exact H.
Qed.

Lemma unsleepable_from (seconds : Z) :
  2 ^ 1024 <= seconds -> ~ sleepable seconds.
Proof.
  intros H [L|[f E]].
  - pose proof (pow2_pos 1024 ltac:(lia)). lia.
  - rewrite float_of_Z_overflow in E; [discriminate|].
    pose proof (pow2_pos 1024 ltac:(lia)). rewrite Z.abs_eq by lia. exact H.
Qed.

(** ** A threshold out of reach *)

Lemma sf_lt_one_of_not_le (t : spec_float) :
  sf_is_nan t = false -> SFleb t sf_one = false -> SFltb sf_one t = true.
Proof.
  intros N. unfold SFltb, SFleb.
  rewrite (SFcompare_antisym sf_one t).
  pose proof (SFcompare_some sf_one t eq_refl N).
  destruct (SFcompare sf_one t) as [[]|]; simpl; congruence.
Qed.

Lemma threshold_unreached (threshold p : float) :
  (threshold <=? 1)%float = false -> (1 <? p)%float = false ->
  (threshold <=? p)%float = false.
Proof.
  rewrite !leb_spec, ltb_spec, Prim2SF_one. intros T P.
  destruct (SFleb (Prim2SF threshold) (Prim2SF p)) eqn:L; [|reflexivity].
  assert (N : sf_is_nan (Prim2SF threshold) = false)
    by (destruct (Prim2SF threshold); try reflexivity; discriminate).
  rewrite (sf_lt_le_trans_one _ _ (Prim2SF_valid threshold) (Prim2SF_valid p)
             (sf_lt_one_of_not_le _ N T) L) in P.
  discriminate.
Qed.

(** X12. With a threshold for which [threshold <= 1.0] is false (a value above
    1, or a NaN, both of which [float] reads from the environment), no
    pass and no number of turns of the loop ever sends an alert, whatever
    the data source answers. *)
Theorem threshold_above_one_never_alerts
    (parse_float : string -> option float) (py_repr : pyval -> string)
    (threshold : float) (poll_seconds : Z) (world : oracle) :
  (threshold <=? 1)%float = false ->
  forall (n : nat) (h : list event),
    sent (snd (analyze_matches parse_float py_repr threshold world h)) = [] /\
    sent (snd (background_task parse_float py_repr threshold poll_seconds
                 world n h)) = [].
Proof.
  intros T n h.
  assert (S : forall h0,
             sent (snd (analyze_matches parse_float py_repr threshold world h0))
             = []).
  { apply analyze_matches_silent. intros stats prob Hp.
    destruct (compute_result_is_min stats prob Hp) as [s ->].
    apply (threshold_unreached _ _ T), py_min_one_capped. }
  split; [apply S|]. apply background_task_silent, S.
Qed.

(** C5, as stated, fails when the threshold is 0: the statistics request of
    the match is answered 503, the probability is 0, and an alert is sent
    all the same. *)
Lemma stats_failure_alert_at_zero_threshold :
  get_stats down_world [] (PInt 8) = HttpResponse 503 (Raise DecodeError) /\
  sent (snd (analyze_match ex_parse ex_repr 0 down_world
               (ex_match 8 "Inter" "Milan") [])) =
  [alert_message ex_repr (PStr "Inter") (PStr "Milan") 0
     (stats_dict (PInt 0) (PInt 0) (PInt 0) (PInt 0) (PInt 0) (PInt 0))].
Proof. split; vm_compute; reflexivity. Qed.

Lemma stats_failure_no_alert_witness :
  sent (snd (analyze_match ex_parse ex_repr 0.7 down_world
               (ex_match 8 "Inter" "Milan") [])) = [].
Proof.
  refine (proj2 (proj2 (proj2 (proj2 (proj2
    (stats_failure_no_alert ex_parse ex_repr 0.7 down_world
       (ex_match 8 "Inter" "Milan") (PDict [("id", PInt 8)]) (PInt 8)
       (ex_teams "Inter" "Milan") [] 503 (Raise DecodeError)
       _ _ _ _ _ _)))))); try reflexivity.
  discriminate.
Defined.

(** ** The worked examples *)

(** C9. With the stats of the first example and threshold 0.7 the
    probability is 0.975, the alert is sent and its text contains
    "97.50%"; with xG 1.0 and 0.5 the probability is 0.6 and nothing is
    sent. *)
Theorem worked_examples (py_repr : pyval -> string) (world : oracle)
    (home away : string) (h : list event) :
  real_stats (ex_extracted 2.0 1.0) = ex_stats 2.0 1.0 /\
  compute_goal_probability (ex_stats 2.0 1.0) = Ok 0.975%float /\
  (exists msg,
     snd (score_and_alert py_repr 0.7 world (ex_teams home away)
            (ex_extracted 2.0 1.0) h) = [EvSend msg] /\
     Substring "97.50%" msg) /\
  real_stats (ex_extracted 1.0 0.5) = ex_stats 1.0 0.5 /\
  compute_goal_probability (ex_stats 1.0 0.5) = Ok 0.6%float /\
  score_and_alert py_repr 0.7 world (ex_teams home away)
    (ex_extracted 1.0 0.5) h = (Ok tt, []).
Proof.
  assert (P1 : compute_goal_probability (ex_stats 2.0 1.0) = Ok 0.975%float)
    by (vm_compute; reflexivity).
  assert (P2 : compute_goal_probability (ex_stats 1.0 0.5) = Ok 0.6%float)
    by (vm_compute; reflexivity).
  split; [reflexivity|]. split; [exact P1|]. split; [|split; [reflexivity|]].
  - exists (alert_message py_repr (PStr home) (PStr away) 0.975
              (ex_stats 2.0 1.0)).
    split.
    + rewrite (score_and_alert_run py_repr 0.7 world (ex_teams home away)
                 (PStr home) (PStr away) (ex_extracted 2.0 1.0) 0.975 h P1
                 eq_refl eq_refl).
      reflexivity.
    + unfold alert_message.
      replace (format_percent 0.975) with "97.50%" by (vm_compute; reflexivity).
      exists ("⚡ Probabilità alta di gol!" ++ nl ++ py_str py_repr (PStr home)
              ++ " 🆚 " ++ py_str py_repr (PStr away) ++ nl
              ++ "Probabilità stimata: ")%string.
      eexists. rewrite !append_assoc. reflexivity.
  - split; [exact P2|].
    unfold score_and_alert. rewrite bind_lift.
    change (real_stats (ex_extracted 1.0 0.5)) with (ex_stats 1.0 0.5).
    rewrite P2. reflexivity.
Qed.

(** ** The interval of the examples, and one beyond the floats *)

Lemma poll_60_sleepable : sleepable 60.
Proof. right. exists 60%float. vm_compute. reflexivity. Qed.

(** C8, as stated, fails when [POLL_SECONDS] is [2^1024]: the analysis of
    the first turn raises, the exception is caught and printed, and then
    the sleep raises [OverflowError] outside the [try]: the loop ends
    without having slept, and the second turn never starts. *)
Lemma poll_loop_dies_at_huge_interval :
  background_task ex_parse ex_repr 0.7 (2 ^ 1024) array_world 2 [] =
    (Raise OverflowError, [EvGetLive; EvPrintLoop AttributeError]) /\
  sleeps (snd (background_task ex_parse ex_repr 0.7 (2 ^ 1024) array_world
                 2 [])) = [].
Proof. split; vm_compute; reflexivity. Qed.

Lemma poll_loop_survives_exceptions_witness :
  fst (background_task ex_parse ex_repr 0.7 60 array_world 2 []) = Ok tt /\
  sleeps (snd (background_task ex_parse ex_repr 0.7 60 array_world 2 [])) =
    repeat 60 2.
Proof.
  exact (proj1 (proj2 (proj1 (poll_loop_survives_exceptions ex_parse ex_repr
                                0.7 60 array_world) poll_60_sleepable))
           2%nat []).
Defined.

Lemma one_live_request_per_turn_witness :
  live_requests (snd (background_task ex_parse ex_repr 0.7 60 ex_world 3 []))
  = 3%nat.
Proof.
  exact (proj1 (one_live_request_per_turn ex_parse ex_repr 0.7 60 ex_world)
           poll_60_sleepable 3%nat []).
Defined.

(** ** Instances *)

Lemma alert_iff_threshold_witness :
  sent (snd (analyze_match ex_parse ex_repr 0.7 ex_world
               (ex_match 7 "Roma" "Lazio") [])) =
  [alert_message ex_repr (PStr "Roma") (PStr "Lazio") 1
     (stats_dict (PFloat 3.25) (PInt 0) (PInt 9) (PInt 0) (PInt 40) (PInt 12))].
Proof.
  refine (proj1 (alert_iff_threshold ex_parse ex_repr 0.7 ex_world
    (ex_match 7 "Roma" "Lazio") (PDict [("id", PInt 7)]) (PInt 7)
    (ex_teams "Roma" "Lazio")
    (PList [ex_block "Roma" [ex_entry "Shots on Goal" (PInt 9);
                             ex_entry "Attacks" (PInt 40);
                             ex_entry "Ball Possession" (PStr "55%");
                             ex_entry "xG" (PStr "3.25")];
            ex_block "Lazio" [ex_entry "Shots on Goal" PNone;
                              ex_entry "Attacks" (PInt 12)]])
    (PStr "Roma") (PStr "Lazio")
    {| xg_home := PFloat 3.25; xg_away := PInt 0;
       shots_home := PInt 9; shots_away := PInt 0;
       attacks_home := PInt 40; attacks_away := PInt 12 |}
    1%float [] [EvGetStats (PInt 7)] _ _ _ _ _ _ _ _));
    vm_compute; reflexivity.
Defined.


Lemma null_or_missing_stat_is_zero_witness :
  extract_entry ex_parse (ex_teams "Roma" "Lazio") (PStr "Lazio")
    (set_shots_away (PInt 3) extracted_init)
    (ex_entry "Shots on Goal" PNone) =
    Ok (set_shots_away (PInt 0) (set_shots_away (PInt 3) extracted_init)) /\
  extract_stats ex_parse (ex_teams "Roma" "Lazio")
    (PList [ex_block "Roma" [ex_entry "Ball Possession" (PStr "55%")]]) =
    Ok extracted_init.
Proof.
  split.
  - refine (proj1 (proj1 (null_or_missing_stat_is_zero ex_parse)
      (ex_teams "Roma" "Lazio") (PStr "Lazio")
      (ex_entry "Shots on Goal" PNone) (PStr "Roma")
      (set_shots_away (PInt 3) extracted_init) eq_refl eq_refl) eq_refl).
  - refine (proj2 (proj2 (null_or_missing_stat_is_zero ex_parse))
      (ex_teams "Roma" "Lazio")
      [ex_block "Roma" [ex_entry "Ball Possession" (PStr "55%")]] _ _ _ _).
    + intros b [<-|[]]. split.
      * exists (PDict [("name", PStr "Roma")]), (PStr "Roma").
        split; reflexivity.
      * exists (PList [ex_entry "Ball Possession" (PStr "55%")]),
               [ex_entry "Ball Possession" (PStr "55%")].
        split; [reflexivity|]. split; [reflexivity|].
        intros s [<-|[]]. exists (PStr "Ball Possession"). reflexivity.
    + intros b s [<-|[]] [<-|[]]. reflexivity.
    + intros b s [<-|[]] [<-|[]]. reflexivity.
    + intros b s [<-|[]] [<-|[]]. reflexivity.
Defined.

Lemma missing_key_aborts_pass_witness :
  analyze_match ex_parse ex_repr 0.7 broken_world
    (PDict [("fixture", PDict [("id", PInt 8)])]) [] =
    (Raise (KeyError "teams"), []) /\
  loop_iteration ex_parse ex_repr 0.7 60 broken_world [] =
    (Ok tt,
     ([EvGetLive]
      ++ [EvGetStats (PInt 7);
          EvSend (alert_message ex_repr (PStr "Roma") (PStr "Lazio") 1
                    (stats_dict (PFloat 3.25) (PInt 0) (PInt 9) (PInt 0)
                                (PInt 40) (PInt 12)))]
      ++ [])
     ++ [EvPrintLoop (KeyError "teams"); EvSleep 60]).
Proof.
  split.
  - refine (proj1 (proj2 (missing_key_aborts_pass ex_parse ex_repr 0.7 60
                            broken_world))
              [("fixture", PDict [("id", PInt 8)])]
              (PDict [("id", PInt 8)]) (PInt 8) [] eq_refl eq_refl eq_refl).
  - refine (proj2 (proj2 (proj2 (proj2 (proj2
              (missing_key_aborts_pass ex_parse ex_repr 0.7 60 broken_world)))
              (PList [ex_match 7 "Roma" "Lazio";
                      PDict [("fixture", PDict [("id", PInt 8)])];
                      ex_match 9 "Inter" "Milan"])
              (PDict [("fixture", PDict [("id", PInt 8)])])
              [ex_match 7 "Roma" "Lazio"] [ex_match 9 "Inter" "Milan"]
              "teams" [] [EvGetLive] _ [] _ _ _ _)) poll_60_sleepable);
      vm_compute; reflexivity.
Defined.

(** ** Instances of the properties of the score and of the pass *)

Lemma probability_monotone_witness :
  exists p p',
    compute_goal_probability (stats_of ex_fields) = Ok p /\
    compute_goal_probability
      (stats_of (with_field ex_fields ShotsHome (PInt 4))) = Ok p' /\
    (p' <? p)%float = false.
Proof.
  apply (probability_monotone ex_fields ShotsHome (PInt 4)).
  - intros []; vm_compute; first [exact I | discriminate].
  - vm_compute. discriminate.
  - reflexivity.
Defined.

Lemma probability_in_unit_interval_witness :
  exists p, compute_goal_probability (stats_of ex_fields) = Ok p /\
            (0 <=? p)%float = true /\ (p <=? 1)%float = true.
Proof.
  apply (probability_in_unit_interval ex_fields).
  intros []; vm_compute;
    first [reflexivity | split; [discriminate|reflexivity]].
Defined.

Lemma huge_int_sum_overflows_witness :
  compute_goal_probability (stats_of huge_fields) = Raise OverflowError.
Proof.
  apply (huge_int_sum_overflows huge_fields (2 ^ 1024) 0);
    [reflexivity|reflexivity|].
  vm_compute. discriminate.
Defined.

Lemma probability_capped_witness :
  compute_goal_probability
    (stats_dict (PFloat 3.25) (PInt 0) (PInt 9) (PInt 0) (PInt 40) (PInt 12))
  = Ok 1%float /\
  (1 <? 1)%float = false.
Proof.
  assert (H : compute_goal_probability
                (stats_dict (PFloat 3.25) (PInt 0) (PInt 9) (PInt 0)
                            (PInt 40) (PInt 12)) = Ok 1%float)
    by (vm_compute; reflexivity).
  split; [exact H|]. exact (probability_capped _ _ H).
Defined.

Lemma non_numeric_field_raises_witness :
  exists e,
    compute_goal_probability
      [("xG_home", PFloat 1.5); ("shots_on_away", PStr "5")] = Raise e /\
    (e = TypeError \/ e = OverflowError).
Proof.
  apply (non_numeric_field_raises
           [("xG_home", PFloat 1.5); ("shots_on_away", PStr "5")] ShotsAway).
  reflexivity.
Defined.

Lemma live_fetch_failure_skips_pass_witness :
  analyze_matches ex_parse ex_repr 0.7 live_down_world [] =
    (Ok tt, [EvGetLive; EvPrintApi 503]) /\
  loop_iteration ex_parse ex_repr 0.7 60 live_down_world [] =
    (Ok tt, [EvGetLive; EvPrintApi 503; EvSleep 60]).
Proof.
  destruct (live_fetch_failure_skips_pass ex_parse ex_repr 0.7 60
              live_down_world [] 503 (Raise DecodeError))
    as [A L]; [reflexivity|discriminate|].
  split; [exact A|exact (L poll_60_sleepable)].
Defined.

Lemma live_body_without_matches_witness :
  analyze_matches ex_parse ex_repr 0.7 empty_world [] = (Ok tt, [EvGetLive]).
Proof.
  apply (live_body_without_matches ex_parse ex_repr 0.7 empty_world []
           [("results", PInt 0)]); [reflexivity|left; reflexivity].
Defined.

Lemma live_fetch_errors_reach_the_loop_witness :
  analyze_matches ex_parse ex_repr 0.7 array_world [] =
    (Raise AttributeError, [EvGetLive]) /\
  loop_iteration ex_parse ex_repr 0.7 60 array_world [] =
    (Ok tt, [EvGetLive; EvPrintLoop AttributeError; EvSleep 60]).
Proof.
  destruct (live_fetch_errors_reach_the_loop ex_parse ex_repr 0.7 60
              array_world [] AttributeError)
    as (A & _ & L).
  - right. right. exists (PList []).
    split; [reflexivity|]. split; [intros d; discriminate|reflexivity].
  - split; [exact A|exact (L poll_60_sleepable)].
Defined.

Lemma statistics_requested_once_per_match_witness :
  map fixture_id_of [ex_match 7 "Roma" "Lazio"; ex_match 8 "Inter" "Milan"] =
  map Ok (stats_requested
            (snd (analyze_matches ex_parse ex_repr 0.7 ex_world []))).
Proof.
  apply (statistics_requested_once_per_match ex_parse ex_repr 0.7 ex_world
           (PList [ex_match 7 "Roma" "Lazio"; ex_match 8 "Inter" "Milan"])
           [ex_match 7 "Roma" "Lazio"; ex_match 8 "Inter" "Milan"]
           [] [EvGetLive]);
    vm_compute; reflexivity.
Defined.

Lemma at_most_one_alert_per_match_witness :
  (List.length (sent (snd (analyze_matches ex_parse ex_repr 0.7 ex_world [])))
   <= List.length [ex_match 7 "Roma" "Lazio"; ex_match 8 "Inter" "Milan"])%nat.
Proof.
  apply (at_most_one_alert_per_match ex_parse ex_repr 0.7 ex_world
           (PList [ex_match 7 "Roma" "Lazio"; ex_match 8 "Inter" "Milan"])
           [ex_match 7 "Roma" "Lazio"; ex_match 8 "Inter" "Milan"]
           [] [EvGetLive]);
    vm_compute; reflexivity.
Defined.

Lemma threshold_above_one_never_alerts_witness :
  sent (snd (analyze_matches ex_parse ex_repr 1.5 ex_world [])) = [] /\
  sent (snd (background_task ex_parse ex_repr 1.5 60 ex_world 2 [])) = [].
Proof.
  apply (threshold_above_one_never_alerts ex_parse ex_repr 1.5 60 ex_world).
  reflexivity.
Defined.

Lemma extraction_stores_numbers_or_truthy_witness :
  stored_xg (PFloat 3.25) /\ stored_xg (PInt 0) /\
  stored_count (PInt 9) /\ stored_count (PInt 0) /\
  stored_count (PInt 40) /\ stored_count (PInt 12).
Proof.
  apply (extraction_stores_numbers_or_truthy ex_parse
           (ex_teams "Roma" "Lazio")
           (PList [ex_block "Roma" [ex_entry "Shots on Goal" (PInt 9);
                                    ex_entry "Attacks" (PInt 40);
                                    ex_entry "Ball Possession" (PStr "55%");
                                    ex_entry "xG" (PStr "3.25")];
                   ex_block "Lazio" [ex_entry "Shots on Goal" PNone;
                                     ex_entry "Attacks" (PInt 12)]])
           {| xg_home := PFloat 3.25; xg_away := PInt 0;
              shots_home := PInt 9; shots_away := PInt 0;
              attacks_home := PInt 40; attacks_away := PInt 12 |}).
  vm_compute. reflexivity.
Defined.

Lemma later_entry_overwrites_witness :
  extract_entries ex_parse (ex_teams "Roma" "Lazio") (PStr "Roma")
    extracted_init
    [ex_entry "Shots on Goal" (PInt 3); ex_entry "Shots on Goal" (PInt 9)] =
  extract_entries ex_parse (ex_teams "Roma" "Lazio") (PStr "Roma")
    extracted_init [ex_entry "Shots on Goal" (PInt 9)].
Proof.
  apply (later_entry_overwrites ex_parse "Shots on Goal"
           (ex_teams "Roma" "Lazio") (PStr "Roma")
           (ex_entry "Shots on Goal" (PInt 3))
           (ex_entry "Shots on Goal" (PInt 9))
           extracted_init (set_shots_home (PInt 3) extracted_init));
    [left; reflexivity|reflexivity|reflexivity|reflexivity].
Defined.

Lemma non_numeric_stat_aborts_match_witness :
  exists e,
    analyze_match ex_parse ex_repr 0.7 text_world
      (ex_match 7 "Roma" "Lazio") [] = (Raise e, [EvGetStats (PInt 7)]) /\
    (e = TypeError \/ e = OverflowError) /\
    sent [EvGetStats (PInt 7)] = [].
Proof.
  apply (non_numeric_stat_aborts_match ex_parse ex_repr 0.7 text_world
           (ex_match 7 "Roma" "Lazio") (PDict [("id", PInt 7)]) (PInt 7)
           (ex_teams "Roma" "Lazio")
           (PList [ex_block "Roma" [ex_entry "Shots on Goal" (PStr "9")]])
           (set_shots_home (PStr "9") extracted_init) ShotsHome []
           [EvGetStats (PInt 7)]);
    reflexivity.
Defined.

Lemma falsy_value_is_stored_as_zero_witness :
  extract_entry ex_parse (ex_teams "Roma" "Lazio") (PStr "Lazio")
    extracted_init (ex_entry "Attacks" (PFloat 0)) =
    Ok (set_attacks_away (PInt 0) extracted_init) /\
  extract_entry ex_parse (ex_teams "Roma" "Lazio") (PStr "Roma")
    extracted_init (ex_entry "xG" (PStr "")) =
    Ok (set_xg_home (PFloat 0) extracted_init).
Proof.
  split.
  - refine (proj1 (proj2 (falsy_value_is_stored_as_zero ex_parse
      (ex_teams "Roma" "Lazio") (PStr "Lazio")
      (ex_entry "Attacks" (PFloat 0)) (PStr "Roma") (PFloat 0)
      extracted_init eq_refl eq_refl eq_refl)) eq_refl).
  - refine (proj2 (proj2 (falsy_value_is_stored_as_zero ex_parse
      (ex_teams "Roma" "Lazio") (PStr "Roma")
      (ex_entry "xG" (PStr "")) (PStr "Roma") (PStr "")
      extracted_init eq_refl eq_refl eq_refl)) eq_refl).
Defined.

Lemma exception_in_a_match_stops_the_pass_witness :
  analyze_matches ex_parse ex_repr 0.7 mute_world [] =
    (Raise TelegramError,
     [EvGetLive] ++ [] ++
     [EvGetStats (PInt 7);
      EvSend (alert_message ex_repr (PStr "Roma") (PStr "Lazio") 1
                (stats_dict (PFloat 3.25) (PInt 0) (PInt 9) (PInt 0)
                            (PInt 40) (PInt 12)))]) /\
  loop_iteration ex_parse ex_repr 0.7 60 mute_world [] =
    (Ok tt,
     ([EvGetLive] ++ [] ++
      [EvGetStats (PInt 7);
       EvSend (alert_message ex_repr (PStr "Roma") (PStr "Lazio") 1
                 (stats_dict (PFloat 3.25) (PInt 0) (PInt 9) (PInt 0)
                             (PInt 40) (PInt 12)))])
     ++ [EvPrintLoop TelegramError; EvSleep 60]).
Proof.
  destruct (exception_in_a_match_stops_the_pass ex_parse ex_repr 0.7 60
              mute_world
              (PList [ex_match 7 "Roma" "Lazio"; ex_match 8 "Inter" "Milan"])
              (ex_match 7 "Roma" "Lazio") [] [ex_match 8 "Inter" "Milan"]
              TelegramError [] [EvGetLive] []
              [EvGetStats (PInt 7);
               EvSend (alert_message ex_repr (PStr "Roma") (PStr "Lazio") 1
                         (stats_dict (PFloat 3.25) (PInt 0) (PInt 9) (PInt 0)
                                     (PInt 40) (PInt 12)))])
    as (A & _ & _ & L); try (vm_compute; reflexivity).
  split; [exact A|exact (L poll_60_sleepable)].
Defined.

Lemma statistics_in_range_give_a_probability_witness :
  exists p,
    compute_goal_probability
      (real_stats {| xg_home := PFloat 3.25; xg_away := PInt 0;
                     shots_home := PInt 9; shots_away := PInt 0;
                     attacks_home := PInt 40; attacks_away := PInt 12 |})
    = Ok p /\
    (0 <=? p)%float = true /\ (p <=? 1)%float = true.
Proof.
  apply (statistics_in_range_give_a_probability ex_parse
           (ex_teams "Roma" "Lazio")
           (PList [ex_block "Roma" [ex_entry "Shots on Goal" (PInt 9);
                                    ex_entry "Attacks" (PInt 40);
                                    ex_entry "Ball Possession" (PStr "55%");
                                    ex_entry "xG" (PStr "3.25")];
                   ex_block "Lazio" [ex_entry "Shots on Goal" PNone;
                                     ex_entry "Attacks" (PInt 12)]])).
  - vm_compute. reflexivity.
  - intros b s [<-|[<-|[]]] Hs; vm_compute in Hs;
      repeat (destruct Hs as [<-|Hs]); try contradiction;
      intros v Hv; vm_compute in Hv; injection Hv as <-;
      (split;
       [intros T; vm_compute in T; vm_compute;
        first [split; [discriminate|reflexivity]
              | destruct T; discriminate]
       |intros T f Hf; vm_compute in T; try discriminate;
        vm_compute in Hf; injection Hf as <-; reflexivity]).
Defined.
